(** * Retrieval-and-annotation pipeline of the legal RAG summarizer

    A shallow embedding of the deterministic core of the repository:

    - [src/ner/legal_ner.py]                 (module [NER])
    - [src/retrieval/dark_zone_detector.py]  (module [DarkZones])
    - [src/retrieval/query_enhancer.py]      (module [Enhancer])
    - [src/retrieval/chunking.py]            (module [Chunking])
    - [src/retrieval/hybrid_retriever.py]    (module [Hybrid])

    Conventions of the embedding.

    - A Python [str] is a [string]; its characters are the code points
      0..255, with Python's own classification of them ([str.isspace],
      [str.lower], the regular-expression classes).
    - A Python [int] is a [Z]; offsets produced by the matcher are [nat]
      and are injected into [Z] where the source stores them.
    - A Python [float] that the sources only store, negate and compare
      (confidences, sentence scores, the scores that the retrievers hand
      over) is an exact rational [Q].  The fused scores, which the code
      computes by division and addition, are IEEE 754 doubles (module
      [PyFloat]).
    - The regular expressions of the sources are terms of [Re.regex];
      [Re.finditer] follows the backtracking, leftmost, greedy search of
      Python's [re] module. *)

From Stdlib Require Import ZArith NArith QArith List String Ascii Bool Lia.
From Stdlib Require Import Permutation Sorted SetoidList.
From Stdlib Require Import Floats.SpecFloat.
Import ListNotations.

Close Scope Q_scope.
Open Scope string_scope.
Open Scope list_scope.

(* ================================================================== *)
(** * Python strings *)
(* ================================================================== *)

Module PyStr.

Definition code (c : ascii) : N := N_of_ascii c.

Definition in_range (lo hi : N) (c : ascii) : bool :=
  ((lo <=? code c) && (code c <=? hi))%N.

(** [str.isspace] on one character; also the class [\s]. *)
Definition isspace (c : ascii) : bool :=
  in_range 9 13 c || in_range 28 32 c
  || (code c =? 133)%N || (code c =? 160)%N.

(** The class [\d]. *)
Definition isdecimal (c : ascii) : bool := in_range 48 57 c.

Definition is_upper_az (c : ascii) : bool := in_range 65 90 c.
Definition is_lower_az (c : ascii) : bool := in_range 97 122 c.

(** The class [\w]: alphanumeric characters and the underscore. *)
Definition isword (c : ascii) : bool :=
  isdecimal c || is_upper_az c || is_lower_az c || (code c =? 95)%N
  || (code c =? 170)%N || in_range 178 179 c || (code c =? 181)%N
  || in_range 185 186 c || in_range 188 190 c
  || in_range 192 214 c || in_range 216 246 c || in_range 248 255 c.

Definition shift_up (c : ascii) : ascii := ascii_of_N (code c + 32).
Definition shift_down (c : ascii) : ascii := ascii_of_N (code c - 32).

(** [str.lower] on one character. *)
Definition lower_char (c : ascii) : ascii :=
  if is_upper_az c || in_range 192 214 c || in_range 216 222 c
  then shift_up c else c.

(** Simple (one to one) upper-casing, as the matcher uses it. *)
Definition upper_char (c : ascii) : ascii :=
  if is_lower_az c || in_range 224 246 c || in_range 248 254 c
  then shift_down c else c.

Fixpoint lower (s : string) : string :=
  match s with
  | EmptyString => EmptyString
  | String c s' => String (lower_char c) (lower s')
  end.

(** [str.upper].  The sharp s (223) becomes two letters.  The capitals of
    the characters 181 and 255 lie beyond code point 255; they are left in
    place: like their capitals they are word characters, are not white
    space and match no pattern of the sources. *)
Fixpoint upper (s : string) : string :=
  match s with
  | EmptyString => EmptyString
  | String c s' =>
      if (code c =? 223)%N then String "S" (String "S" (upper s'))
      else String (upper_char c) (upper s')
  end.

(** [str.split()] with no argument: the maximal runs of characters that
    are not white space. *)
Fixpoint split (s : string) : list string :=
  match s with
  | EmptyString => []
  | String c s' =>
      if isspace c then split s'
      else match s' with
           | EmptyString => [String c EmptyString]
           | String c' _ =>
               if isspace c' then String c EmptyString :: split s'
               else match split s' with
                    | w :: ws => String c w :: ws
                    | [] => [String c EmptyString]
                    end
           end
  end.

(** [sep.join(parts)]. *)
Definition join (sep : string) (parts : list string) : string :=
  String.concat sep parts.

Fixpoint lstrip (s : string) : string :=
  match s with
  | EmptyString => EmptyString
  | String c s' => if isspace c then lstrip s' else s
  end.

Fixpoint rstrip (s : string) : string :=
  match s with
  | EmptyString => EmptyString
  | String c s' =>
      match rstrip s' with
      | EmptyString => if isspace c then EmptyString else String c EmptyString
      | r => String c r
      end
  end.

(** [str.strip()]. *)
Definition strip (s : string) : string := rstrip (lstrip s).

Definition len (s : string) : Z := Z.of_nat (String.length s).

(** [s[a:]] and [s[:b]] and [s[a:b]] for offsets that are not negative. *)
Fixpoint drop (n : nat) (s : string) : string :=
  match n, s with
  | O, _ => s
  | S _, EmptyString => EmptyString
  | S n', String _ s' => drop n' s'
  end.

Fixpoint take (n : nat) (s : string) : string :=
  match n, s with
  | O, _ => EmptyString
  | S _, EmptyString => EmptyString
  | S n', String c s' => String c (take n' s')
  end.

Definition slice (s : string) (a b : nat) : string := take (b - a) (drop a s).

(** An offset of a slice, as Python reads it: a negative one counts from
    the end, and both kinds are clipped to the string. *)
Definition clip (s : string) (i : Z) : nat :=
  if (i <? 0)%Z then Z.to_nat (Z.max 0 (len s + i))
  else Z.to_nat (Z.min i (len s)).

(** [s[a:b]], [s[a:]] and [s[:b]] for Python integers. *)
Definition slice_z (s : string) (a b : Z) : string := slice s (clip s a) (clip s b).
Definition from_z (s : string) (a : Z) : string := drop (clip s a) s.
Definition upto_z (s : string) (b : Z) : string := take (clip s b) s.

(** [s.find(sub)]: the lowest offset at which [sub] occurs, or -1. *)
Fixpoint find_from (sub s : string) (i : nat) : option nat :=
  if String.prefix sub s then Some i
  else match s with
       | EmptyString => None
       | String _ s' => find_from sub s' (S i)
       end.

Definition find (s sub : string) : Z :=
  match find_from sub s 0 with
  | Some i => Z.of_nat i
  | None => (-1)%Z
  end.

(** [sub in s]. *)
Definition contains (s sub : string) : bool :=
  match find_from sub s 0 with Some _ => true | None => false end.

(** A truth test on a string: the empty string is false. *)
Definition nonempty (s : string) : bool :=
  match s with EmptyString => false | _ => true end.

End PyStr.

(* ================================================================== *)
(** * Regular expressions *)
(* ================================================================== *)

Module Re.

(** One-character items of a pattern. *)
Inductive cls : Type :=
| Lit (c : ascii)            (* a literal character *)
| Digit                      (* \d *)
| Space                      (* \s *)
| Dot                        (* .  : anything but a line feed *)
| Range (lo hi : ascii)      (* [lo-hi] *)
| OneOf (cs : string).       (* [abc] *)

Fixpoint mem (c : ascii) (cs : string) : bool :=
  match cs with
  | EmptyString => false
  | String d cs' => Ascii.eqb c d || mem c cs'
  end.

Definition between (lo hi c : ascii) : bool :=
  ((PyStr.code lo <=? PyStr.code c) && (PyStr.code c <=? PyStr.code hi))%N.

(** [ic] is the flag [re.IGNORECASE]. *)
Definition cls_match (ic : bool) (k : cls) (t : ascii) : bool :=
  match k with
  | Lit c =>
      if ic then Ascii.eqb (PyStr.lower_char t) (PyStr.lower_char c)
      else Ascii.eqb t c
  | Digit => PyStr.isdecimal t
  | Space => PyStr.isspace t
  | Dot => negb (PyStr.code t =? 10)%N
  | Range lo hi =>
      between lo hi t
      || (ic && (between lo hi (PyStr.lower_char t)
                 || between lo hi (PyStr.upper_char t)))
  | OneOf cs =>
      mem t cs
      || (ic && (mem (PyStr.lower_char t) cs || mem (PyStr.upper_char t) cs))
  end.

(** The patterns of the sources quantify one-character items only. *)
Inductive regex : Type :=
| Eps
| Chr (k : cls)
| Cat (a b : regex)
| Alt (a b : regex)                          (* a|b, [a] tried first *)
| Rep (k : cls) (lo : nat) (hi : option nat) (* greedy k{lo,hi} *)
| Grp (a : regex)                            (* the capturing group 1 *)
| WordB                                      (* \b *)
| Behind (k : cls).                          (* (?<=k) *)

(** What a successful match reports: its end offset and the span of
    group 1 when the group took part. *)
Definition outcome : Type := (nat * option (nat * nat))%type.

(** A continuation receives the character before the current offset, the
    offset, the text that remains and the span of group 1. *)
Definition cont : Type :=
  option ascii -> nat -> string -> option (nat * nat) -> option outcome.

Definition more (hi : option nat) : bool :=
  match hi with Some O => false | _ => true end.

Definition is_word_opt (c : option ascii) : bool :=
  match c with Some t => PyStr.isword t | None => false end.

Definition head (s : string) : option ascii :=
  match s with EmptyString => None | String c _ => Some c end.

Fixpoint rep (ic : bool) (k : cls) (lo : nat) (hi : option nat)
    (prev : option ascii) (pos : nat) (rest : string)
    (g : option (nat * nat)) (kont : cont) {struct rest} : option outcome :=
  let stop := match lo with O => kont prev pos rest g | S _ => None end in
  match rest with
  | EmptyString => stop
  | String t rest' =>
      if more hi && cls_match ic k t then
        match rep ic k (Nat.pred lo) (option_map Nat.pred hi)
                  (Some t) (S pos) rest' g kont with
        | Some r => Some r
        | None => stop
        end
      else stop
  end.

Fixpoint run (ic : bool) (r : regex) (prev : option ascii) (pos : nat)
    (rest : string) (g : option (nat * nat)) (kont : cont)
    {struct r} : option outcome :=
  match r with
  | Eps => kont prev pos rest g
  | Chr k =>
      match rest with
      | String t rest' =>
          if cls_match ic k t then kont (Some t) (S pos) rest' g else None
      | EmptyString => None
      end
  | Cat a b =>
      run ic a prev pos rest g
          (fun p1 n1 s1 g1 => run ic b p1 n1 s1 g1 kont)
  | Alt a b =>
      match run ic a prev pos rest g kont with
      | Some o => Some o
      | None => run ic b prev pos rest g kont
      end
  | Rep k lo hi => rep ic k lo hi prev pos rest g kont
  | Grp a =>
      run ic a prev pos rest g
          (fun p1 n1 s1 _ => kont p1 n1 s1 (Some (pos, n1)))
  | WordB =>
      if xorb (is_word_opt prev) (is_word_opt (head rest))
      then kont prev pos rest g else None
  | Behind k =>
      match prev with
      | Some t => if cls_match ic k t then kont prev pos rest g else None
      | None => None
      end
  end.

Definition accept : cont := fun _ n _ g => Some (n, g).

(** A match object: start, end and the span of group 1. *)
Record rmatch : Type := mkMatch {
  m_start : nat;
  m_end : nat;
  m_group1 : option (nat * nat)
}.

(** [re.finditer]: the matches found from left to right, each search
    resuming where the previous match ended.  [skip] counts the offsets
    still covered by the last match.  After an empty match the search
    resumes one character further; no pattern of the sources matches the
    empty string. *)
Fixpoint scan (ic : bool) (r : regex) (prev : option ascii) (pos : nat)
    (rest : string) (skip : nat) : list rmatch :=
  let here :=
    match skip with
    | O => run ic r prev pos rest None accept
    | S _ => None
    end in
  match rest with
  | EmptyString =>
      match here with
      | Some (e, g) => [mkMatch pos e g]
      | None => []
      end
  | String t rest' =>
      match here with
      | Some (e, g) =>
          mkMatch pos e g :: scan ic r (Some t) (S pos) rest' (e - pos - 1)
      | None => scan ic r (Some t) (S pos) rest' (Nat.pred skip)
      end
  end.

Definition finditer (ic : bool) (r : regex) (text : string) : list rmatch :=
  scan ic r None 0 text 0.

(** [re.search(...)] used as a truth value. *)
Definition search (ic : bool) (r : regex) (text : string) : bool :=
  match finditer ic r text with [] => false | _ => true end.

(** [match.group(0)] and [match.group(1)]. *)
Definition group0 (text : string) (m : rmatch) : string :=
  PyStr.slice text (m_start m) (m_end m).

Definition group1 (text : string) (m : rmatch) : string :=
  match m_group1 m with
  | Some (a, b) => PyStr.slice text a b
  | None => EmptyString
  end.

(** [re.findall] for a pattern without capturing group. *)
Definition findall (ic : bool) (r : regex) (text : string) : list string :=
  map (group0 text) (finditer ic r text).

(** [re.split] for a pattern without capturing group: the pieces of the
    text between consecutive matches. *)
Fixpoint pieces (text : string) (from : nat) (ms : list rmatch) : list string :=
  match ms with
  | [] => [PyStr.drop from text]
  | m :: ms' => PyStr.slice text from (m_start m) :: pieces text (m_end m) ms'
  end.

Definition split (ic : bool) (r : regex) (text : string) : list string :=
  pieces text 0 (finditer ic r text).

(** ** Pattern combinators *)

Fixpoint lit (s : string) : regex :=
  match s with
  | EmptyString => Eps
  | String c EmptyString => Chr (Lit c)
  | String c s' => Cat (Chr (Lit c)) (lit s')
  end.

Fixpoint seq (rs : list regex) : regex :=
  match rs with
  | [] => Eps
  | [r] => r
  | r :: rs' => Cat r (seq rs')
  end.

Fixpoint alts (rs : list regex) : regex :=
  match rs with
  | [] => Eps
  | [r] => r
  | r :: rs' => Alt r (alts rs')
  end.

Definition ws1 : regex := Rep Space 1 None.           (* \s+ *)
Definition ws0 : regex := Rep Space 0 None.           (* \s* *)
Definition digits : regex := Rep Digit 1 None.        (* \d+ *)
Definition opt (k : cls) : regex := Rep k 0 (Some 1). (* k?  *)
Definition dot_opt : regex := opt (Lit ".").          (* \.? *)

(** Literal words separated by [\s+]. *)
Fixpoint phrase (ws : list string) : regex :=
  match ws with
  | [] => Eps
  | [w] => lit w
  | w :: ws' => Cat (lit w) (Cat ws1 (phrase ws'))
  end.

(** Whether a pattern can match the empty string. *)
Fixpoint nullable (r : regex) : bool :=
  match r with
  | Eps => true
  | Chr _ => false
  | Cat a b => nullable a && nullable b
  | Alt a b => nullable a || nullable b
  | Rep _ lo _ => match lo with O => true | S _ => false end
  | Grp a => nullable a
  | WordB => true
  | Behind _ => true
  end.

End Re.

(* ================================================================== *)
(** * Python built-ins shared by the modules *)
(* ================================================================== *)

Module Py.

Section Sorting.
Context {A : Type}.
(** [lt a b]: the sort key of [a] is strictly below the key of [b]. *)
Variable lt : A -> A -> bool.

Fixpoint insert (x : A) (l : list A) : list A :=
  match l with
  | [] => [x]
  | y :: l' => if lt y x then y :: insert x l' else x :: l
  end.

(** [sorted(l, key=...)]: a stable sort, elements with equal keys keep
    their order.  With [reverse=True] Python keeps the order of equal
    elements too, which is [sorted] for the converse comparison. *)
Fixpoint sorted (l : list A) : list A :=
  match l with
  | [] => []
  | x :: l' => insert x (sorted l')
  end.
End Sorting.

(** Comparison of floats that are kept as rationals. *)
Definition Qltb (a b : Q) : bool := negb (Qle_bool b a).

(** [l[:n]] for a Python integer [n]: a negative [n] counts from the end. *)
Definition prefix {A : Type} (l : list A) (n : Z) : list A :=
  if (n <? 0)%Z then firstn (Z.to_nat (Z.of_nat (List.length l) + n)) l
  else firstn (Z.to_nat n) l.

End Py.

(* ================================================================== *)
(** * Python floats that take part in arithmetic *)
(* ================================================================== *)

(** A Python [float] is an IEEE 754 binary64 number.  [spec_float] and
    its operations are the reference semantics of binary64 arithmetic of
    the standard library: 53 bits of precision, rounding to nearest with
    ties to even. *)
Module PyFloat.

Definition float : Type := spec_float.
Definition prec : Z := 53.
Definition emax : Z := 1024.

(** The conversion of a Python [int], as [1.0 / n] performs it on [n]:
    the nearest double, infinite beyond the range of doubles. *)
Definition of_int (n : Z) : float := binary_normalize prec emax n 0 false.

Definition add : float -> float -> float := SFadd prec emax.
Definition div : float -> float -> float := SFdiv prec emax.
Definition ltb : float -> float -> bool := SFltb.
Definition eqb : float -> float -> bool := SFeqb.

(** The literals [0.0] and [1.0]. *)
Definition zero : float := S754_zero false.
Definition one : float := S754_finite false 4503599627370496 (-52).

Definition is_infinite (x : float) : bool :=
  match x with S754_infinity _ => true | _ => false end.

Definition is_zero (x : float) : bool :=
  match x with S754_zero _ => true | _ => false end.

End PyFloat.

(* ================================================================== *)
(** * src/ner/legal_ner.py *)
(* ================================================================== *)

Module NER.

Import Re.

Inductive EntityType : Type :=
| PERSON | CASE_NUMBER | LEGAL_SECTION | COURT | DATE | PENALTY
| LEGAL_TERM | STATUTE | ORGANIZATION | JUDGE | LAWYER.

Definition EntityType_eqb (a b : EntityType) : bool :=
  match a, b with
  | PERSON, PERSON | CASE_NUMBER, CASE_NUMBER | LEGAL_SECTION, LEGAL_SECTION
  | COURT, COURT | DATE, DATE | PENALTY, PENALTY | LEGAL_TERM, LEGAL_TERM
  | STATUTE, STATUTE | ORGANIZATION, ORGANIZATION | JUDGE, JUDGE
  | LAWYER, LAWYER => true
  | _, _ => false
  end.

(** The dataclass [Entity]; [metadata] is a dictionary with string keys
    and string values, kept in insertion order. *)
Record Entity : Type := mkEntity {
  text : string;
  entity_type : EntityType;
  start : Z;
  end_ : Z;
  confidence : Q;
  metadata : list (string * string)
}.

(** [d1 == d2] for two dictionaries: as many entries, and every entry of
    the first is an entry of the second; the order of insertion plays no
    part. *)
Definition metadata_eqb (a b : list (string * string)) : bool :=
  (List.length a =? List.length b)%nat
  && forallb
       (fun kv =>
          existsb (fun kv' => String.eqb (fst kv) (fst kv')
                              && String.eqb (snd kv) (snd kv'))
                  b)
       a.

(** The [==] that [@dataclass] generates: field by field. *)
Definition Entity_eqb (a b : Entity) : bool :=
  String.eqb (text a) (text b)
  && EntityType_eqb (entity_type a) (entity_type b)
  && (start a =? start b)%Z
  && (end_ a =? end_ b)%Z
  && Qeq_bool (confidence a) (confidence b)
  && metadata_eqb (metadata a) (metadata b).

(** ** The pattern tables *)

(** [(\d+[A-Z]?)] *)
Definition sec_num : regex := Grp (Cat digits (opt (Range "A" "Z"))).

(** [Cr\.?P\.?C\.?] *)
Definition crpc : regex :=
  seq [lit "Cr"; dot_opt; lit "P"; dot_opt; lit "C"; dot_opt].

(** [u/s\.?\s*(\d+[A-Z]?)\s+] *)
Definition u_s : regex := seq [lit "u/s"; dot_opt; ws0; sec_num; ws1].

Definition section_patterns : list (regex * string) :=
  [ (* IPC Sections *)
    (seq [lit "Section"; ws1; sec_num; ws1;
          phrase ["of"; "the"; "Indian"; "Penal"; "Code"]], "IPC");
    (seq [lit "Section"; ws1; sec_num; ws1; lit "IPC"], "IPC");
    (seq [phrase ["IPC"; "Section"]; ws1; sec_num], "IPC");
    (seq [u_s; lit "IPC"], "IPC");
    (seq [phrase ["under"; "Section"]; ws1; sec_num; ws1; lit "IPC"], "IPC");
    (* CrPC Sections *)
    (seq [lit "Section"; ws1; sec_num; ws1;
          phrase ["of"; "the"; "Code"; "of"; "Criminal"; "Procedure"]], "CrPC");
    (seq [lit "Section"; ws1; sec_num; ws1; lit "of"; ws1; crpc], "CrPC");
    (seq [crpc; ws1; lit "Section"; ws1; sec_num], "CrPC");
    (seq [u_s; crpc], "CrPC");
    (* Evidence Act *)
    (seq [lit "Section"; ws1; sec_num; ws1;
          phrase ["of"; "the"; "Evidence"; "Act"]], "Evidence_Act");
    (seq [phrase ["Evidence"; "Act"; "Section"]; ws1; sec_num], "Evidence_Act");
    (* Constitution *)
    (seq [lit "Article"; ws1; sec_num; ws1;
          phrase ["of"; "the"; "Constitution"]], "Constitution");
    (seq [phrase ["Constitution"; "Article"]; ws1; sec_num], "Constitution") ].

(** [No\.?\s*(\d+\/\d+)] *)
Definition no_num : regex :=
  seq [lit "No"; dot_opt; ws0; Grp (seq [digits; Chr (Lit "/"); digits])].

(** [\(?C\)?] *)
Definition paren_c : regex := seq [opt (Lit "("); lit "C"; opt (Lit ")")].

Definition case_number_patterns : list regex :=
  [ seq [lit "Crl"; dot_opt; ws0; lit "A"; dot_opt; ws0; no_num];
    seq [phrase ["Criminal"; "Appeal"]; ws1; no_num];
    seq [lit "W"; dot_opt; lit "P"; dot_opt; ws0; paren_c; ws0; no_num];
    seq [phrase ["Writ"; "Petition"]; ws1; no_num];
    seq [lit "SLP"; ws0; paren_c; ws0; no_num];
    seq [phrase ["Special"; "Leave"; "Petition"]; ws1; no_num];
    seq [phrase ["Civil"; "Appeal"]; ws1; no_num];
    seq [lit "Cr"; dot_opt; ws0; no_num] ].

Definition court_patterns : list regex :=
  [ phrase ["Supreme"; "Court"; "of"; "India"];
    seq [phrase ["High"; "Court"; "of"]; ws1;
         Grp (Cat (Chr (Range "A" "Z")) (Rep (Range "a" "z") 1 None))];
    phrase ["District"; "Court"];
    phrase ["Sessions"; "Court"];
    phrase ["Magistrate"; "Court"] ].

Definition statute_patterns : list regex :=
  [ phrase ["Indian"; "Penal"; "Code"];
    phrase ["Code"; "of"; "Criminal"; "Procedure"];
    phrase ["Evidence"; "Act"];
    phrase ["Constitution"; "of"; "India"];
    phrase ["Criminal"; "Procedure"; "Code"] ].

(** [\b...\b] *)
Definition whole (r : regex) : regex := seq [WordB; r; WordB].

Definition legal_term_patterns : list regex :=
  [ whole (lit "Acquittal");
    whole (lit "Conviction");
    whole (lit "Bail");
    whole (lit "Appeal");
    whole (lit "Revision");
    whole (lit "Petition");
    whole (lit "Writ");
    whole (phrase ["Habeas"; "Corpus"]);
    whole (lit "Mandamus") ].

Definition d12 : regex := Rep Digit 1 (Some 2).   (* \d{1,2} *)
Definition d4 : regex := Rep Digit 4 (Some 4).    (* \d{4} *)

Definition date_patterns : list regex :=
  [ seq [d12; Chr (OneOf "./-"); d12; Chr (OneOf "./-"); d4];
    seq [d12; ws1;
         alts (map lit ["January"; "February"; "March"; "April"; "May";
                        "June"; "July"; "August"; "September"; "October";
                        "November"; "December"]);
         ws1; d4] ].

(** Whether [match.groups()] is a non-empty tuple: the pattern has a
    capturing group. *)
Fixpoint has_group (r : regex) : bool :=
  match r with
  | Grp _ => true
  | Cat a b | Alt a b => has_group a || has_group b
  | _ => false
  end.

(** ** The scanners *)

Definition entity_of (ty : EntityType) (conf : Q)
    (label : string) (meta : list (string * string)) (m : rmatch) : Entity :=
  mkEntity label ty (Z.of_nat (m_start m)) (Z.of_nat (m_end m)) conf meta.

Definition _extract_sections (text : string) : list Entity :=
  flat_map
    (fun pa : regex * string =>
       let (pattern, act_name) := pa in
       map (fun m =>
              let section_num := group1 text m in
              entity_of LEGAL_SECTION (9 # 10)
                (act_name ++ " Section " ++ section_num)
                [("act", act_name); ("section_number", section_num)] m)
           (finditer true pattern text))
    section_patterns.

Definition _extract_case_numbers (text : string) : list Entity :=
  flat_map
    (fun pattern =>
       map (fun m =>
              let case_num :=
                if has_group pattern then group1 text m else group0 text m in
              entity_of CASE_NUMBER (95 # 100) case_num
                [("full_match", group0 text m)] m)
           (finditer true pattern text))
    case_number_patterns.

(** A scanner whose entity text is the whole match and whose metadata is
    empty. *)
Definition scan_plain (ic : bool) (patterns : list regex)
    (ty : EntityType) (conf : Q) (text : string) : list Entity :=
  flat_map
    (fun pattern =>
       map (fun m => entity_of ty conf (group0 text m) [] m)
           (finditer ic pattern text))
    patterns.

Definition _extract_courts : string -> list Entity :=
  scan_plain true court_patterns COURT (9 # 10).

Definition _extract_statutes : string -> list Entity :=
  scan_plain true statute_patterns STATUTE (85 # 100).

Definition _extract_legal_terms : string -> list Entity :=
  scan_plain true legal_term_patterns LEGAL_TERM (7 # 10).

Definition _extract_dates : string -> list Entity :=
  scan_plain false date_patterns DATE (8 # 10).

(** The list handed to [_remove_overlaps]. *)
Definition candidates (text : string) : list Entity :=
  _extract_sections text ++ _extract_case_numbers text
  ++ _extract_courts text ++ _extract_statutes text
  ++ _extract_legal_terms text ++ _extract_dates text.

(** ** Overlap resolution *)

(** The key [(e.start, -e.confidence)], compared as Python compares
    tuples. *)
Definition key_lt (a b : Entity) : bool :=
  (start a <? start b)%Z
  || ((start a =? start b)%Z
      && Py.Qltb (- confidence a)%Q (- confidence b)%Q).

Definition start_lt (a b : Entity) : bool := (start a <? start b)%Z.

(** [not (entity.end <= existing.start or entity.start >= existing.end)] *)
Definition overlaps (entity existing : Entity) : bool :=
  negb ((end_ entity <=? start existing)%Z || (start entity >=? end_ existing)%Z).

(** [list.remove(x)]: drops the first element equal to [x]. *)
Fixpoint remove (x : Entity) (l : list Entity) : list Entity :=
  match l with
  | [] => []
  | y :: l' => if Entity_eqb y x then l' else y :: remove x l'
  end.

(** One turn of the loop over [sorted_entities]: the inner loop stops at
    the first element of [filtered] that overlaps [entity]. *)
Definition keep_step (filtered : list Entity) (entity : Entity) : list Entity :=
  match List.find (overlaps entity) filtered with
  | Some existing =>
      if Py.Qltb (confidence existing) (confidence entity)
      then remove existing filtered ++ [entity]
      else filtered
  | None => filtered ++ [entity]
  end.

Definition _remove_overlaps (entities : list Entity) : list Entity :=
  match entities with
  | [] => []
  | _ =>
      let sorted_entities := Py.sorted key_lt entities in
      let filtered := fold_left keep_step sorted_entities [] in
      Py.sorted start_lt filtered
  end.

Definition extract_entities (text : string) : list Entity :=
  _remove_overlaps (candidates text).

End NER.

(* ================================================================== *)
(** * src/retrieval/dark_zone_detector.py *)
(* ================================================================== *)

Module DarkZones.

Import Re NER.

Record DarkZone : Type := mkDarkZone {
  section_entity : Entity;
  context_window : string;
  position : Z * Z;
  related_entities : list Entity;
  explanation_needed : bool;
  resolution_suggestions : list string
}.

(** The one field of the detector that the methods read besides the
    pattern tables; the constructor's default is 500. *)
Record DarkZoneDetector : Type := mkDetector {
  context_window_size : Z
}.

Definition default_detector : DarkZoneDetector := mkDetector 500.

(** [section.*provides] and [section.*states] *)
Definition section_then (w : string) : regex :=
  seq [lit "section"; Rep Dot 0 None; lit w].

Definition explanation_indicators : list regex :=
  [ phrase ["as"; "provided"; "in"];
    phrase ["according"; "to"];
    phrase ["under"; "the"; "provisions"; "of"];
    phrase ["as"; "per"];
    phrase ["in"; "accordance"; "with"];
    phrase ["which"; "states"];
    phrase ["which"; "provides"];
    phrase ["which"; "reads"];
    section_then "provides";
    section_then "states";
    phrase ["as"; "defined"; "in"] ].

Section Detector.
Variable self : DarkZoneDetector.

Definition _get_context_window (text : string) (entity : Entity) : string :=
  let start := Z.max 0 (NER.start entity - context_window_size self) in
  let end_ := Z.min (PyStr.len text) (NER.end_ entity + context_window_size self) in
  PyStr.slice_z text start end_.

(** The first loop of [_is_section_explained]: some indicator has a
    match whose start lies less than 200 characters from the offset that
    [find] reports for the entity text. *)
Definition indicator_near (context_lower section_text_lower : string) : bool :=
  existsb
    (fun pattern =>
       if search false pattern context_lower then
         existsb
           (fun m =>
              let distance :=
                Z.abs (Z.of_nat (m_start m)
                       - PyStr.find context_lower section_text_lower) in
              (distance <? 200)%Z)
           (finditer false pattern context_lower)
       else false)
    explanation_indicators.

(** The second test: a defining verb in the 200 characters after the
    entity text, when more than 100 characters follow it. *)
Definition definition_follows (context : string) (section_entity : Entity)
    (context_lower section_text_lower : string) : bool :=
  let section_pos := PyStr.find context_lower section_text_lower in
  if negb (section_pos =? -1)%Z then
    let after_section :=
      PyStr.from_z context (section_pos + PyStr.len (NER.text section_entity)) in
    if (PyStr.len (PyStr.strip after_section) >? 100)%Z then
      existsb
        (fun word => PyStr.contains (PyStr.upto_z (PyStr.lower after_section) 200) word)
        ["means"; "refers"; "includes"; "defines"]
    else false
  else false.

Definition _is_section_explained (context : string) (section_entity : Entity) : bool :=
  let context_lower := PyStr.lower context in
  let section_text_lower := PyStr.lower (NER.text section_entity) in
  if indicator_near context_lower section_text_lower then true
  else definition_follows context section_entity context_lower section_text_lower.

Definition _find_related_entities (context : string)
    (all_entities : list Entity) (target_entity : Entity) : list Entity :=
  let context_start := Z.max 0 (NER.start target_entity - context_window_size self) in
  filter
    (fun entity =>
       negb (Entity_eqb entity target_entity)
       && (context_start <=? NER.start entity)%Z
       && (NER.start entity <? NER.end_ target_entity + context_window_size self)%Z)
    all_entities.

(** [d.get(key, default)] *)
Fixpoint get (d : list (string * string)) (key default : string) : string :=
  match d with
  | [] => default
  | (k, v) :: d' => if String.eqb k key then v else get d' key default
  end.

(** The second suggestion is added when [related_entities] holds a
    LEGAL_SECTION entity; an empty [related_entities] holds none. *)
Definition _generate_resolution_suggestions (dark_zone : DarkZone) : list string :=
  let section := section_entity dark_zone in
  let act :=
    match NER.metadata section with
    | [] => "Unknown"
    | d => get d "act" "Unknown"
    end in
  let section_num :=
    match NER.metadata section with
    | [] => ""
    | d => get d "section_number" ""
    end in
  let related_sections :=
    filter (fun e => EntityType_eqb (entity_type e) LEGAL_SECTION)
           (related_entities dark_zone) in
  [("Retrieve full text of " ++ act ++ " Section " ++ section_num)%string]
  ++ match related_sections with
     | [] => []
     | _ => [("Retrieve related sections: "
              ++ PyStr.join ", " (map NER.text (firstn 3 related_sections)))%string]
     end
  ++ [("Search for judgments citing " ++ act ++ " Section " ++ section_num)%string].

(** The body of the loop over [section_entities]. *)
Definition zone_of (text : string) (entities : list Entity)
    (section_entity : Entity) : list DarkZone :=
  let context := _get_context_window text section_entity in
  let is_explained := _is_section_explained context section_entity in
  if negb is_explained then
    let related := _find_related_entities context entities section_entity in
    let dark_zone :=
      mkDarkZone section_entity context
                 (NER.start section_entity, NER.end_ section_entity)
                 related true [] in
    [mkDarkZone section_entity context
                (NER.start section_entity, NER.end_ section_entity)
                related true (_generate_resolution_suggestions dark_zone)]
  else [].

Definition detect_dark_zones (text : string) : list DarkZone :=
  let entities := extract_entities text in
  let section_entities :=
    filter (fun e => EntityType_eqb (entity_type e) LEGAL_SECTION) entities in
  flat_map (zone_of text entities) section_entities.

End Detector.

End DarkZones.

(* ================================================================== *)
(** * src/retrieval/query_enhancer.py *)
(* ================================================================== *)

Module Enhancer.

Import Re NER DarkZones.

(** The dictionary that [enhance_query] returns. *)
Record Enhanced : Type := mkEnhanced {
  original_query : string;
  enhanced_query : string;
  entities : list Entity;
  dark_zones : list DarkZone;
  entity_count : Z;
  dark_zone_count : Z
}.

Definition legal_keywords : list string :=
  ["section"; "act"; "code"; "judgment"; "court";
   "conviction"; "acquittal"; "appeal"; "statute"].

Definition legal_term_patterns : list regex :=
  [ whole (alts (map lit ["Acquittal"; "Conviction"; "Bail"; "Appeal";
                          "Revision"; "Petition"; "Writ"]));
    whole (alts [phrase ["Habeas"; "Corpus"]; lit "Mandamus";
                 lit "Certiorari"; lit "Prohibition"]);
    whole (alts (map lit ["Prosecution"; "Defense"; "Accused";
                          "Complainant"; "Respondent"]));
    whole (alts (map lit ["Evidence"; "Witness"; "Testimony"; "Examination"]));
    whole (alts (map lit ["Punishment"; "Sentence"; "Fine"; "Imprisonment"])) ].

Definition mem (w : string) (seen : list string) : bool :=
  existsb (String.eqb w) seen.

(** The loop of [_deduplicate_query]: [seen] is the set of lower-cased
    words met so far, the result is [unique_words] in order. *)
Fixpoint unique_words (seen : list string) (words : list string) : list string :=
  match words with
  | [] => []
  | word :: rest =>
      let word_lower := PyStr.lower word in
      if mem word_lower seen then unique_words seen rest
      else word :: unique_words (word_lower :: seen) rest
  end.

Definition _deduplicate_query (query : string) : string :=
  PyStr.join " " (unique_words [] (PyStr.split query)).

(** The score of a sentence in [_extract_key_sentences]. *)
Definition sentence_score (sentence : string) : Q :=
  let hits :=
    List.length
      (filter (fun keyword =>
                 PyStr.contains (PyStr.lower sentence) (PyStr.lower keyword))
              legal_keywords) in
  let length := List.length (PyStr.split sentence) in
  let bonus := if (10 <=? length)%nat && (length <=? 30)%nat then 1%Z else 0%Z in
  let entities_in_sentence := extract_entities sentence in
  (inject_Z (Z.of_nat hits + bonus)
   + inject_Z (Z.of_nat (List.length entities_in_sentence)) * (5 # 10))%Q.

Definition _extract_key_sentences (text : string) (num_sentences : Z) : list string :=
  let sentences :=
    filter PyStr.nonempty
           (map PyStr.strip (Re.split false (Rep (OneOf ".!?") 1 None) text)) in
  let scored_sentences := map (fun s => (s, sentence_score s)) sentences in
  let ranked :=
    Py.sorted (fun a b => Py.Qltb (snd b) (snd a)) scored_sentences in
  map fst (Py.prefix ranked num_sentences).

Section Enhance.
(** The order in which a Python [set] of strings yields its elements,
    given the strings in the order they were added.  The language
    leaves it open. *)
Variable set_order : list string -> list string.

Definition _extract_legal_terms (text : string) (max_terms : Z) : list string :=
  let added :=
    flat_map (fun pattern => map PyStr.lower (findall true pattern text))
             legal_term_patterns in
  Py.prefix (set_order added) max_terms.

Definition high_conf_entities (entities : list Entity) : list string :=
  map NER.text
      (filter
         (fun e =>
            Qle_bool (8 # 10) (confidence e)
            && (EntityType_eqb (entity_type e) LEGAL_SECTION
                || EntityType_eqb (entity_type e) CASE_NUMBER
                || EntityType_eqb (entity_type e) STATUTE))
         entities).

Definition dark_zone_parts (dz : DarkZone) : list string :=
  NER.text (section_entity dz)
  :: (if PyStr.nonempty (context_window dz)
      then [PyStr.strip (PyStr.upto_z (context_window dz) 150)]
      else []).

Definition query_parts (query_or_text : string)
    (entities : list Entity) (dark_zones : list DarkZone)
    (include_legal_terms : bool) : list string :=
  (if (PyStr.len query_or_text >? 500)%Z
   then _extract_key_sentences query_or_text 5
   else [query_or_text])
  ++ high_conf_entities entities
  ++ flat_map dark_zone_parts dark_zones
  ++ (if include_legal_terms then _extract_legal_terms query_or_text 10 else []).

Definition enhance_query (query_or_text : string)
    (include_entities include_dark_zones include_legal_terms : bool) : Enhanced :=
  let entities :=
    if include_entities then extract_entities query_or_text else [] in
  let dark_zones :=
    if include_dark_zones
    then detect_dark_zones default_detector query_or_text else [] in
  let enhanced_query :=
    PyStr.join " "
      (query_parts query_or_text entities dark_zones include_legal_terms) in
  let enhanced_query := _deduplicate_query enhanced_query in
  mkEnhanced query_or_text enhanced_query entities dark_zones
             (Z.of_nat (List.length entities))
             (Z.of_nat (List.length dark_zones)).

End Enhance.

End Enhancer.

(* ================================================================== *)
(** * src/retrieval/chunking.py *)
(* ================================================================== *)

Module Chunking.

Import Re.

(** The dataclass [Chunk].  [LegalChunker.chunk] returns dictionaries
    with the same six entries, so the model returns the records. *)
Record Chunk : Type := mkChunk {
  text : string;
  start_pos : Z;
  end_pos : Z;
  section_type : option string;
  page_number : option Z;
  metadata : list (string * string)
}.

(** The fields of [LegalChunker].  [tokenizer] is the [tiktoken] encoder
    when the library provides it, [None] otherwise; an encoder maps a
    text to its token ids. *)
Record LegalChunker : Type := mkChunker {
  chunk_size : Z;
  chunk_overlap : Z;
  min_chunk_size : Z;
  tokenizer : option (string -> list Z)
}.

(** The constructor's defaults. *)
Definition default_chunker (tok : option (string -> list Z)) : LegalChunker :=
  mkChunker 512 50 100 tok.

Definition section_patterns : list (string * regex) :=
  [ ("facts", alts [lit "FACTS"; phrase ["FACTUAL"; "BACKGROUND"];
                    lit "BACKGROUND"; phrase ["CASE"; "FACTS"]]);
    ("analysis", alts (map lit ["ANALYSIS"; "DISCUSSION"; "REASONING";
                                "HELD"; "OBSERVATION"]));
    ("conclusion", alts (map lit ["CONCLUSION"; "DECISION"; "ORDER"; "JUDGMENT"]));
    ("headnote", alts (map lit ["HEADNOTE"; "SYNOPSIS"; "SUMMARY"]));
    ("issue", alts (map lit ["ISSUE"; "ISSUES"; "QUESTION"])) ].

(** An entry of the list that [_detect_sections] builds. *)
Record DocSection : Type := mkDocSection {
  sec_type : string;
  sec_start : Z;
  sec_end : Z;
  sec_text : string
}.

(** The clean-up loop: the first section is kept; a later one is kept
    when it starts more than 500 characters after the last kept one. *)
Definition clean_step (cleaned : list DocSection) (section : DocSection)
    : list DocSection :=
  match List.last (map Some cleaned) None with
  | None => cleaned ++ [section]
  | Some prev =>
      if (sec_start section >? sec_start prev + 500)%Z
      then cleaned ++ [section] else cleaned
  end.

Definition _detect_sections (text : string) : list DocSection :=
  let text_upper := PyStr.upper text in
  let sections :=
    flat_map
      (fun tp : string * regex =>
         let (section_type, pattern) := tp in
         map (fun m =>
                mkDocSection section_type (Z.of_nat (m_start m))
                             (Z.of_nat (m_end m)) (PyStr.drop (m_end m) text))
             (finditer true pattern text_upper))
      section_patterns in
  let sections :=
    Py.sorted (fun a b => (sec_start a <? sec_start b)%Z) sections in
  fold_left clean_step sections [].

(** [(?<=[.!?])\s+] *)
Definition sentence_break : regex := Cat (Behind (OneOf ".!?")) ws1.

Definition _split_sentences (text : string) : list string :=
  map PyStr.strip
      (filter (fun s => PyStr.nonempty (PyStr.strip s))
              (Re.split false sentence_break text)).

(** The state of the loop of [_chunk_text]. *)
Record LoopState : Type := mkLoop {
  chunks : list Chunk;
  current_chunk : list string;
  current_tokens : Z;
  current_start : Z
}.

Section Chunker.
Variable self : LegalChunker.

(** With the fallback, [int(len(text.split()) * 1.3)]: the product is
    truncated, which for a word count [n] is the quotient of [13 * n]
    by 10. *)
Definition _count_tokens (text : string) : Z :=
  match tokenizer self with
  | Some encode => Z.of_nat (List.length (encode text))
  | None => (13 * Z.of_nat (List.length (PyStr.split text)) / 10)%Z
  end.

(** The loop of [_get_overlap_text] over the reversed sentences. *)
Fixpoint overlap_loop (reversed : list string) (overlap_sentences : list string)
    (overlap_tokens : Z) : list string :=
  match reversed with
  | [] => overlap_sentences
  | sentence :: rest =>
      let sent_tokens := _count_tokens sentence in
      if (overlap_tokens + sent_tokens <=? chunk_overlap self)%Z
      then overlap_loop rest (sentence :: overlap_sentences)
                        (overlap_tokens + sent_tokens)
      else overlap_sentences
  end.

Definition _get_overlap_text (chunk_sentences : list string) : string :=
  if (List.length chunk_sentences <? 2)%nat then ""
  else PyStr.join " " (overlap_loop (rev chunk_sentences) [] 0).

Definition make_chunk (section_type : option string) (parts : list string)
    (start : Z) : Chunk :=
  let chunk_text := PyStr.join " " parts in
  mkChunk chunk_text start (start + PyStr.len chunk_text) section_type None [].

(** The test that closes the current chunk before [sentence] is added. *)
Definition closes (st : LoopState) (sentence : string) : bool :=
  (current_tokens st + _count_tokens sentence >? chunk_size self)%Z
  && match current_chunk st with [] => false | _ => true end.

(** The state after the current chunk is saved and the next one is
    seeded with the overlap. *)
Definition close_chunk (section_type : option string) (st : LoopState) : LoopState :=
  let chunk := make_chunk section_type (current_chunk st) (current_start st) in
  let overlap_text := _get_overlap_text (current_chunk st) in
  let overlap_tokens := _count_tokens overlap_text in
  mkLoop (chunks st ++ [chunk])
         (if PyStr.nonempty overlap_text then [overlap_text] else [])
         overlap_tokens
         (if PyStr.nonempty overlap_text
          then end_pos chunk - PyStr.len overlap_text
          else end_pos chunk).

Definition chunk_step (section_type : option string) (st : LoopState)
    (sentence : string) : LoopState :=
  let st' := if closes st sentence then close_chunk section_type st else st in
  mkLoop (chunks st')
         (current_chunk st' ++ [sentence])
         (current_tokens st' + _count_tokens sentence)
         (current_start st').

(** The remaining chunk, added when it reaches [min_chunk_size]. *)
Definition trailing (section_type : option string) (st : LoopState) : list Chunk :=
  match current_chunk st with
  | [] => []
  | parts =>
      if (_count_tokens (PyStr.join " " parts) >=? min_chunk_size self)%Z
      then [make_chunk section_type parts (current_start st)]
      else []
  end.

(** The state when the loop over the sentences ends. *)
Definition loop_end (text : string) (section_type : option string)
  (start_offset : Z) : LoopState :=
fold_left (chunk_step section_type) (_split_sentences text)
          (mkLoop [] [] 0 start_offset).

Definition _chunk_text (text : string) (section_type : option string)
  (start_offset : Z) : list Chunk :=
let st := loop_end text section_type start_offset in
chunks st ++ trailing section_type st.

Definition chunk (text : string) : list Chunk :=
  match _detect_sections text with
  | [] => _chunk_text text None 0
  | sections =>
      flat_map
        (fun section =>
           _chunk_text (sec_text section) (Some (sec_type section))
                       (sec_start section))
        sections
  end.

End Chunker.

End Chunking.

(* ================================================================== *)
(** * src/retrieval/hybrid_retriever.py *)
(* ================================================================== *)

Module Hybrid.

(** Exceptions that the modelled methods raise or let through. *)
Inductive exn : Type :=
| ValueError (msg : string)
| ZeroDivisionError
| OverflowError
| IndexError
| CollaboratorError (msg : string).

Inductive result (A : Type) : Type :=
| Ok (a : A)
| Raise (e : exn).
Arguments Ok {A} a.
Arguments Raise {A} e.

Definition bind {A B : Type} (r : result A) (f : A -> result B) : result B :=
  match r with
  | Ok a => f a
  | Raise e => Raise e
  end.

Notation "x <- r ;; k" := (bind r (fun x => k))
  (at level 61, r at next level, right associativity).

Fixpoint for_each {A B : Type} (f : A -> result B) (l : list A) : result (list B) :=
  match l with
  | [] => Ok []
  | a :: l' => b <- f a ;; bs <- for_each f l' ;; Ok (b :: bs)
  end.

(** A retrieval candidate [(chunk_id, score)] as a retriever hands it
    over.  The fusion step reads the order of the candidates and never
    their scores, which stay exact rationals (every finite double is
    one). *)
Definition candidate : Type := (Z * Q)%type.

(** A fused result [(chunk_id, rrf_score)]; the score is a double. *)
Definition fused : Type := (Z * PyFloat.float)%type.

(** The fields of [BM25Retriever]; [bm25] is the tokenized corpus the
    index was built from. *)
Record BM25Retriever : Type := mkBM25 {
  k1 : Q;
  b : Q;
  bm25 : option (list (list string));
  corpus : list string;
  chunk_ids : list Z;
  _is_initialized : bool
}.

Definition new_bm25 (k1 b : Q) : BM25Retriever := mkBM25 k1 b None [] [] false.

Definition _tokenize (text : string) : list string :=
  PyStr.split (PyStr.lower text).

Definition not_initialized : exn :=
  ValueError "BM25 index not initialized. Call build_index() first.".

(** A dictionary from chunk ids to values, in insertion order;
    [d[key] = value] overwrites in place. *)
Fixpoint dict_set {V : Type} (d : list (Z * V)) (key : Z) (value : V) : list (Z * V) :=
  match d with
  | [] => [(key, value)]
  | (k, v) :: d' =>
      if (k =? key)%Z then (k, value) :: d' else (k, v) :: dict_set d' key value
  end.

Fixpoint dict_get {V : Type} (d : list (Z * V)) (key : Z) : option V :=
  match d with
  | [] => None
  | (k, v) :: d' => if (k =? key)%Z then Some v else dict_get d' key
  end.

Definition keys {V : Type} (d : list (Z * V)) : list Z := map fst d.

(** [for rank, (chunk_id, _) in enumerate(results, start=1): ranks[chunk_id] = rank] *)
Fixpoint rank_loop (results : list candidate) (rank : Z) (ranks : list (Z * Z))
    : list (Z * Z) :=
  match results with
  | [] => ranks
  | (chunk_id, _) :: rest => rank_loop rest (rank + 1) (dict_set ranks chunk_id rank)
  end.

Definition ranks_of (results : list candidate) : list (Z * Z) :=
  rank_loop results 1 [].

(** [1.0 / (rank + rrf_k)]: the integer sum is converted to a double,
    which raises [OverflowError] beyond the range of doubles; the
    division raises [ZeroDivisionError] for 0 and rounds otherwise. *)
Definition reciprocal (rank rrf_k : Z) : result PyFloat.float :=
  let divisor := PyFloat.of_int (rank + rrf_k) in
  if PyFloat.is_infinite divisor then Raise OverflowError
  else if PyFloat.is_zero divisor then Raise ZeroDivisionError
  else Ok (PyFloat.div PyFloat.one divisor).

(** An optional contribution added to the running score:
    [score += 1.0 / (rank + self.rrf_k)], a double addition. *)
Definition add_rank (ranks : list (Z * Z)) (rrf_k chunk_id : Z)
    (score : PyFloat.float) : result PyFloat.float :=
  match dict_get ranks chunk_id with
  | Some rank => r <- reciprocal rank rrf_k ;; Ok (PyFloat.add score r)
  | None => Ok score
  end.

Section Retrieval.
(** [BM25Okapi(tokenized_corpus, k1, b).get_scores(tokenized_query)],
    of the library [rank_bm25]: one score for each document. *)
Variable get_scores : Q -> Q -> list (list string) -> list string -> list Q.
(** [numpy.argsort]: the indices that sort the scores in ascending
    order. *)
Variable argsort : list Q -> list nat.
(** [VectorRetriever.retrieve], which embeds the query and asks the
    vector store. *)
Variable vector_retrieve : string -> Z -> option Z -> result (list candidate).
(** The order in which the set [set(a.keys()) | set(b.keys())] yields
    its elements, from the keys of the two dictionaries in insertion
    order.  The language leaves it open; each key is yielded once. *)
Variable union_order : list Z -> list Z -> list Z.

Definition build_index (self : BM25Retriever) (documents : list string)
    (ids : list Z) : result BM25Retriever :=
  if negb (List.length documents =? List.length ids)%nat
  then Raise (ValueError "Documents and chunk_ids must have same length")
  else Ok (mkBM25 (k1 self) (b self) (Some (map _tokenize documents))
                  documents ids true).

Definition bm25_retrieve (self : BM25Retriever) (query : string) (top_k : Z)
    : result (list candidate) :=
  if negb (_is_initialized self) then Raise not_initialized
  else
    let tokenized_query := _tokenize query in
    let index := match bm25 self with Some c => c | None => [] end in
    let scores := get_scores (k1 self) (b self) index tokenized_query in
    let top_indices := Py.prefix (rev (argsort scores)) top_k in
    found <- for_each
               (fun idx =>
                  match nth_error scores idx with
                  | None => Raise IndexError
                  | Some s =>
                      if Py.Qltb 0 s then
                        match nth_error (chunk_ids self) idx with
                        | Some id => Ok [(id, s)]
                        | None => Raise IndexError
                        end
                      else Ok []
                  end)
               top_indices ;;
    Ok (concat found).

Definition rrf_score (bm25_ranks vector_ranks : list (Z * Z)) (rrf_k chunk_id : Z)
    : result fused :=
  s1 <- add_rank bm25_ranks rrf_k chunk_id PyFloat.zero ;;
  s2 <- add_rank vector_ranks rrf_k chunk_id s1 ;;
  Ok (chunk_id, s2).

Definition _reciprocal_rank_fusion (rrf_k : Z)
    (bm25_results vector_results : list candidate) (top_k : Z)
    : result (list fused) :=
  let bm25_ranks := ranks_of bm25_results in
  let vector_ranks := ranks_of vector_results in
  let all_chunk_ids := union_order (keys bm25_ranks) (keys vector_ranks) in
  rrf_scores <- for_each (rrf_score bm25_ranks vector_ranks rrf_k) all_chunk_ids ;;
  let sorted_results :=
    Py.sorted (fun x y : fused => PyFloat.ltb (snd y) (snd x)) rrf_scores in
  Ok (Py.prefix sorted_results top_k).

(** [HybridRetriever]: the fusion constant and the lexical retriever. *)
Record HybridRetriever : Type := mkHybrid {
  rrf_k : Z;
  bm25_retriever : BM25Retriever
}.

Definition retrieve (self : HybridRetriever) (query : string) (top_k : Z)
    (judgment_id : option Z) : result (list fused) :=
  bm25_results <-
    (if _is_initialized (bm25_retriever self)
     then bm25_retrieve (bm25_retriever self) query (top_k * 5)
     else Ok []) ;;
  vector_results <- vector_retrieve query (top_k * 5) judgment_id ;;
  _reciprocal_rank_fusion (rrf_k self) bm25_results vector_results top_k.

End Retrieval.

End Hybrid.

(* ================================================================== *)
(** * Further methods of the three classes *)
(* ================================================================== *)

(** [LegalNER.extract_sections_from_text], of src/ner/legal_ner.py. *)
Module NER_more.

(** A dictionary of [extract_sections_from_text]; [dict.get] answers
    [None] for a key that is missing. *)
Record SectionRef : Type := mkSectionRef {
  act : option string;
  section_number : option string;
  text : string
}.

(** [d.get(key)] *)
Fixpoint get (d : list (string * string)) (key : string) : option string :=
  match d with
  | [] => None
  | (k, v) :: d' => if String.eqb k key then Some v else get d' key
  end.

Definition extract_sections_from_text (text : string) : list SectionRef :=
  map (fun entity =>
         mkSectionRef (get (NER.metadata entity) "act")
                      (get (NER.metadata entity) "section_number")
                      (NER.text entity))
      (filter (fun entity =>
                 NER.EntityType_eqb (NER.entity_type entity) NER.LEGAL_SECTION)
              (NER.extract_entities text)).

End NER_more.

(** [DarkZoneDetector.get_dark_zone_query] and [_extract_key_phrases],
    of src/retrieval/dark_zone_detector.py. *)
Module DarkZones_more.

Definition legal_keywords : list string :=
  ["section"; "act"; "code"; "provision"; "statute";
   "judgment"; "court"; "accused"; "conviction"; "appeal"].

(** [phrase not in key_phrases] *)
Definition listed (phrase : string) (key_phrases : list string) : bool :=
  existsb (String.eqb phrase) key_phrases.

(** The loop of [_extract_key_phrases]; it stops when [key_phrases]
    reaches [max_phrases]. *)
Fixpoint phrase_loop (max_phrases : Z) (sentences key_phrases : list string)
    : list string :=
  match sentences with
  | [] => key_phrases
  | sentence :: rest =>
      let sentence_lower := PyStr.lower sentence in
      if existsb (fun keyword => PyStr.contains sentence_lower keyword)
                 legal_keywords
      then
        let phrase := PyStr.upto_z (PyStr.strip sentence) 100 in
        if PyStr.nonempty phrase && negb (listed phrase key_phrases) then
          let key_phrases' := key_phrases ++ [phrase] in
          if (Z.of_nat (List.length key_phrases') >=? max_phrases)%Z
          then key_phrases'
          else phrase_loop max_phrases rest key_phrases'
        else phrase_loop max_phrases rest key_phrases
      else phrase_loop max_phrases rest key_phrases
  end.

Definition _extract_key_phrases (text : string) (max_phrases : Z) : list string :=
  let sentences := Re.split false (Re.Rep (Re.OneOf ".!?") 1 None) text in
  phrase_loop max_phrases sentences [].

(** What one dark zone adds to the query; [key_phrases[:3]] of the
    default five. *)
Definition zone_parts (dz : DarkZones.DarkZone) : list string :=
  NER.text (DarkZones.section_entity dz)
  :: (if PyStr.nonempty (DarkZones.context_window dz)
      then Py.prefix (_extract_key_phrases (DarkZones.context_window dz) 5) 3
      else []).

Definition get_dark_zone_query (dark_zones : list DarkZones.DarkZone) : string :=
  PyStr.join " " (flat_map zone_parts dark_zones).

End DarkZones_more.

(** [QueryEnhancer.build_entity_query] and [expand_with_synonyms], of
    src/retrieval/query_enhancer.py. *)
Module Enhancer_more.

(** [build_entity_query]: the texts of the entities of the three types,
    in order. *)
Definition build_entity_query (entities : list NER.Entity) : string :=
  PyStr.join " "
    (flat_map
       (fun entity =>
          match NER.entity_type entity with
          | NER.LEGAL_SECTION => [NER.text entity]
          | NER.STATUTE => [NER.text entity]
          | NER.CASE_NUMBER => [NER.text entity]
          | _ => []
          end)
       entities).

(** The table of [expand_with_synonyms], in its order. *)
Definition synonyms : list (string * list string) :=
  [ ("murder", ["homicide"; "killing"]);
    ("theft", ["larceny"; "robbery"]);
    ("fraud", ["deceit"; "cheating"]);
    ("assault", ["battery"; "attack"]);
    ("bail", ["bail bond"; "release"]);
    ("conviction", ["guilty verdict"; "sentence"]);
    ("acquittal", ["not guilty"; "discharge"]) ].

(** The inner loop over the table: [values[:2]] for each key equal to
    the lower-cased word. *)
Definition synonyms_of (word_lower : string) : list string :=
  flat_map
    (fun kv : string * list string =>
       if String.eqb (fst kv) word_lower then Py.prefix (snd kv) 2 else [])
    synonyms.

Definition expand_with_synonyms (query : string) : string :=
  PyStr.join " "
    (flat_map (fun word => word :: synonyms_of (PyStr.lower word))
              (PyStr.split query)).

End Enhancer_more.

(* ================================================================== *)
(** * Facts about Python strings *)
(* ================================================================== *)

(** A token: a non-empty string without white space. *)
Fixpoint no_space (s : string) : bool :=
  match s with
  | EmptyString => true
  | String c s' => negb (PyStr.isspace c) && no_space s'
  end.

Definition token (w : string) : Prop := w <> EmptyString /\ no_space w = true.

Lemma split_cons_nonspace c s :
  PyStr.isspace c = false -> PyStr.split (String c s) <> [].
Proof.
  intros Hc. simpl. rewrite Hc.
  destruct s as [|c' s']; [discriminate|].
  destruct (PyStr.isspace c'); [discriminate|].
  destruct (PyStr.split (String c' s')); discriminate.
Qed.

Lemma split_app_space a b :
  PyStr.split (a ++ String " " b) = PyStr.split a ++ PyStr.split b.
Proof.
  induction a as [|c a IH].
  - reflexivity.
  - change ((String c a ++ String " " b)%string)
      with (String c (a ++ String " " b)%string).
    destruct (PyStr.isspace c) eqn:Hc.
    + simpl. rewrite Hc. exact IH.
    + destruct a as [|c' a'].
      * simpl. rewrite Hc. reflexivity.
      * change ((String c' a' ++ String " " b)%string)
          with (String c' (a' ++ String " " b)%string) in *.
        destruct (PyStr.isspace c') eqn:Hc'.
        -- cbn [PyStr.split]. rewrite Hc, Hc'.
           cbn [PyStr.split] in IH. rewrite Hc' in IH.
           rewrite IH. reflexivity.
        -- assert (Hne := split_cons_nonspace c' a' Hc').
           remember (PyStr.split (String c' a')) as wa eqn:Ea.
           remember (PyStr.split (String c' (a' ++ String " " b)%string)) as wab eqn:Eab.
           assert (E1 : PyStr.split (String c (String c' a'))
                        = match wa with w :: ws => String c w :: ws
                                   | [] => [String c EmptyString] end).
           { subst wa. cbn [PyStr.split]. rewrite Hc, Hc'. reflexivity. }
           assert (E2 : PyStr.split (String c (String c' (a' ++ String " " b)%string))
                        = match wab with w :: ws => String c w :: ws
                                    | [] => [String c EmptyString] end).
           { subst wab. cbn [PyStr.split]. rewrite Hc, Hc'. reflexivity. }
           rewrite E1, E2, IH.
           destruct wa as [|w ws]; [congruence|]. reflexivity.
Qed.

Lemma split_join parts :
  PyStr.split (PyStr.join " " parts) = flat_map PyStr.split parts.
Proof.
  unfold PyStr.join.
  induction parts as [|p parts IH]; [reflexivity|].
  destruct parts as [|q parts].
  - simpl. rewrite app_nil_r. reflexivity.
  - change (String.concat " " (p :: q :: parts))
      with (p ++ String " " (String.concat " " (q :: parts)))%string.
    rewrite split_app_space, IH. reflexivity.
Qed.

Lemma split_token w : token w -> PyStr.split w = [w].
Proof.
  intros [Hne Hns]. induction w as [|c w IH]; [congruence|].
  simpl in Hns. apply andb_true_iff in Hns as [Hc Hw].
  apply negb_true_iff in Hc.
  destruct w as [|c' w'].
  - simpl. rewrite Hc. reflexivity.
  - assert (Hc' : PyStr.isspace c' = false).
    { simpl in Hw. apply andb_true_iff in Hw as [H _].
      now apply negb_true_iff in H. }
    specialize (IH ltac:(discriminate) Hw).
    cbn [PyStr.split]. rewrite Hc, Hc'.
    cbn [PyStr.split] in IH. rewrite Hc' in IH. rewrite IH. reflexivity.
Qed.

Lemma split_tokens s : Forall token (PyStr.split s).
Proof.
  induction s as [|c s IH]; [constructor|].
  cbn [PyStr.split].
  destruct (PyStr.isspace c) eqn:Hc; [exact IH|].
  assert (Hone : token (String c EmptyString)).
  { split; [discriminate|]. simpl. rewrite Hc. reflexivity. }
  destruct s as [|c' s']; [repeat constructor; apply Hone|].
  destruct (PyStr.isspace c') eqn:Hc'.
  - constructor; [exact Hone | exact IH].
  - destruct (PyStr.split (String c' s')) as [|w ws].
    + repeat constructor; apply Hone.
    + inversion IH as [|? ? [Hw1 Hw2] Hws]; subst.
      constructor; [|exact Hws].
      split; [discriminate|]. simpl. rewrite Hc, Hw2. reflexivity.
Qed.

Lemma split_join_tokens ws :
  Forall token ws -> PyStr.split (PyStr.join " " ws) = ws.
Proof.
  intros H. rewrite split_join.
  induction H as [|w ws Hw _ IH]; [reflexivity|].
  simpl. rewrite (split_token w Hw), IH. reflexivity.
Qed.

(* ================================================================== *)
(** * Facts about query enhancement *)
(* ================================================================== *)

Lemma mem_In w seen : Enhancer.mem w seen = true <-> In w seen.
Proof.
  unfold Enhancer.mem. rewrite existsb_exists. split.
  - intros [x [Hx E]]. apply String.eqb_eq in E. now subst.
  - intros H. exists w. split; [exact H | apply String.eqb_refl].
Qed.

Lemma mem_false w seen : Enhancer.mem w seen = false <-> ~ In w seen.
Proof.
  rewrite <- mem_In. destruct (Enhancer.mem w seen); split; congruence.
Qed.

Lemma unique_words_incl seen ws w :
  In w (Enhancer.unique_words seen ws) -> In w ws.
Proof.
  revert seen. induction ws as [|x ws IH]; intros seen H; [exact H|].
  simpl in H. destruct (Enhancer.mem (PyStr.lower x) seen).
  - right. eapply IH, H.
  - destruct H as [->|H]; [now left | right; eapply IH, H].
Qed.

(** No word is lost: its lower-case form was seen before or is the
    lower-case form of a word that is kept. *)
Lemma unique_words_covers ws : forall seen w,
  In w ws ->
  In (PyStr.lower w) seen
  \/ In (PyStr.lower w) (map PyStr.lower (Enhancer.unique_words seen ws)).
Proof.
  induction ws as [|x ws IH]; intros seen w Hw; [destruct Hw|].
  simpl. destruct (Enhancer.mem (PyStr.lower x) seen) eqn:Hm.
  - destruct Hw as [->|Hw]; [left; now apply mem_In | now apply IH].
  - destruct Hw as [->|Hw]; [right; now left|].
    destruct (IH (PyStr.lower x :: seen) w Hw) as [[E|H]|H].
    + right. left. exact E.
    + now left.
    + right. right. exact H.
Qed.

Lemma unique_words_fresh ws : forall seen x,
  In x (map PyStr.lower (Enhancer.unique_words seen ws)) -> ~ In x seen.
Proof.
  induction ws as [|y ws IH]; intros seen x H; [destruct H|].
  simpl in H. destruct (Enhancer.mem (PyStr.lower y) seen) eqn:Hm.
  - eapply IH, H.
  - destruct H as [<-|H]; [now apply mem_false|].
    intros Hin. apply (IH _ _ H). now right.
Qed.

Lemma unique_words_NoDup ws : forall seen,
  NoDup (map PyStr.lower (Enhancer.unique_words seen ws)).
Proof.
  induction ws as [|y ws IH]; intros seen; [constructor|].
  simpl. destruct (Enhancer.mem (PyStr.lower y) seen); [apply IH|].
  simpl. constructor; [|apply IH].
  intros H. apply (unique_words_fresh _ _ _ H). now left.
Qed.

Lemma unique_words_fixed ws : forall seen,
  NoDup (map PyStr.lower ws) ->
  (forall w, In w ws -> ~ In (PyStr.lower w) seen) ->
  Enhancer.unique_words seen ws = ws.
Proof.
  induction ws as [|y ws IH]; intros seen Hnd Hfresh; [reflexivity|].
  simpl. inversion Hnd as [|? ? Hy Hnd']; subst.
  assert (Hm : Enhancer.mem (PyStr.lower y) seen = false).
  { apply mem_false, Hfresh. now left. }
  rewrite Hm. f_equal. apply IH; [exact Hnd'|].
  intros w Hw [E|Hin].
  - apply Hy. rewrite E. now apply in_map.
  - apply (Hfresh w); [now right | exact Hin].
Qed.

Lemma unique_words_tokens seen ws :
  Forall token ws -> Forall token (Enhancer.unique_words seen ws).
Proof.
  intros H. apply Forall_forall. intros w Hw.
  apply unique_words_incl in Hw. revert w Hw. now apply Forall_forall.
Qed.

(** The tokens of a deduplicated query are the words kept by the loop. *)
Lemma split_deduplicate q :
  PyStr.split (Enhancer._deduplicate_query q)
  = Enhancer.unique_words [] (PyStr.split q).
Proof.
  unfold Enhancer._deduplicate_query.
  apply split_join_tokens, unique_words_tokens, split_tokens.
Qed.

Lemma deduplicate_idempotent q :
  Enhancer._deduplicate_query (Enhancer._deduplicate_query q)
  = Enhancer._deduplicate_query q.
Proof.
  unfold Enhancer._deduplicate_query at 1.
  rewrite split_deduplicate.
  rewrite unique_words_fixed; [reflexivity | apply unique_words_NoDup |].
  intros w _ [].
Qed.

Lemma high_conf_In entities e :
  In e entities ->
  Qle_bool (8 # 10) (NER.confidence e) = true ->
  NER.entity_type e = NER.LEGAL_SECTION
  \/ NER.entity_type e = NER.CASE_NUMBER
  \/ NER.entity_type e = NER.STATUTE ->
  In (NER.text e) (Enhancer.high_conf_entities entities).
Proof.
  intros Hin Hc Hty. unfold Enhancer.high_conf_entities.
  apply in_map, filter_In. split; [exact Hin|].
  rewrite Hc. simpl.
  destruct Hty as [-> | [-> | ->]]; reflexivity.
Qed.

(** ** C10 *)

(** C10.  [_deduplicate_query] is idempotent, and the enhanced query that
    [enhance_query] returns never holds two whitespace tokens that are
    equal once lower-cased; this for every iteration order of the set of
    legal terms and every choice of the three flags. *)
Theorem C10_deduplicate_idempotent_no_repeated_token :
  (forall q,
     Enhancer._deduplicate_query (Enhancer._deduplicate_query q)
     = Enhancer._deduplicate_query q)
  /\ (forall set_order text inc_entities inc_dark_zones inc_terms,
        NoDup (map PyStr.lower
                   (PyStr.split
                      (Enhancer.enhanced_query
                         (Enhancer.enhance_query set_order text inc_entities
                                                 inc_dark_zones inc_terms))))).
Proof.
  split.
  - exact deduplicate_idempotent.
  - intros. cbn [Enhancer.enhance_query Enhancer.enhanced_query].
    rewrite split_deduplicate. apply unique_words_NoDup.
Qed.

(** ** C8 *)

(** C8.  With entities included (the default), every whitespace token of
    the text of every extracted entity of confidence at least 0.8 and of
    type LEGAL_SECTION, CASE_NUMBER or STATUTE occurs, compared after
    lower-casing, among the whitespace tokens of the enhanced query. *)
Theorem C8_high_confidence_entity_tokens_kept :
  forall set_order text inc_dark_zones inc_terms e tok,
    In e (NER.extract_entities text) ->
    Qle_bool (8 # 10) (NER.confidence e) = true ->
    NER.entity_type e = NER.LEGAL_SECTION
    \/ NER.entity_type e = NER.CASE_NUMBER
    \/ NER.entity_type e = NER.STATUTE ->
    In tok (PyStr.split (NER.text e)) ->
    In (PyStr.lower tok)
       (map PyStr.lower
            (PyStr.split
               (Enhancer.enhanced_query
                  (Enhancer.enhance_query set_order text true
                                          inc_dark_zones inc_terms)))).
Proof.
  intros set_order text dzf tf e tok He Hc Hty Htok.
  cbn [Enhancer.enhance_query Enhancer.enhanced_query].
  rewrite split_deduplicate, split_join.
  destruct (unique_words_covers
              (flat_map PyStr.split
                 (Enhancer.query_parts set_order text
                    (NER.extract_entities text)
                    (if dzf
                     then DarkZones.detect_dark_zones
                            DarkZones.default_detector text
                     else []) tf))
              [] tok) as [[]|H]; [|exact H].
  apply in_flat_map. exists (NER.text e). split; [|exact Htok].
  unfold Enhancer.query_parts.
  apply in_or_app. right. apply in_or_app. left.
  now apply high_conf_In.
Qed.

(* ================================================================== *)
(** * Facts about the matcher *)
(* ================================================================== *)

(** A successful run hands some later offset to its continuation, and a
    strictly later one when the pattern cannot match the empty string. *)
Lemma rep_progress ic k rest : forall lo hi prev pos g kont o,
  Re.rep ic k lo hi prev pos rest g kont = Some o ->
  exists p n s,
    kont p n s g = Some o /\ pos <= n /\ (lo <> 0 -> pos < n).
Proof.
  induction rest as [|t rest IH]; intros lo hi prev pos g kont o H.
  - simpl in H. destruct lo; [|discriminate].
    exists prev, pos, EmptyString. repeat split; [exact H | lia | congruence].
  - cbn [Re.rep] in H.
    assert (Hstop :
      match lo with O => kont prev pos (String t rest) g | S _ => None end = Some o ->
      exists p n s, kont p n s g = Some o /\ pos <= n /\ (lo <> 0 -> pos < n)).
    { destruct lo; [|discriminate]. intros E.
      exists prev, pos, (String t rest). repeat split; [exact E | lia | congruence]. }
    destruct (Re.more hi && Re.cls_match ic k t); [|now apply Hstop].
    destruct (Re.rep ic k (Nat.pred lo) (option_map Nat.pred hi)
                     (Some t) (S pos) rest g kont) as [o'|] eqn:E;
      [|now apply Hstop].
    injection H as ->.
    destruct (IH _ _ _ _ _ _ _ E) as (p & n & s & Hk & Hle & _).
    exists p, n, s. repeat split; [exact Hk | lia | lia].
Qed.

Lemma run_progress ic r : forall prev pos rest g kont o,
  Re.run ic r prev pos rest g kont = Some o ->
  exists p n s g',
    kont p n s g' = Some o /\ pos <= n /\ (Re.nullable r = false -> pos < n).
Proof.
  induction r as [ | k | a IHa b IHb | a IHa b IHb | k lo hi | a IHa | | k ];
    intros prev pos rest g kont o H; cbn [Re.run Re.nullable] in *.
  - exists prev, pos, rest, g. repeat split; [exact H | lia | discriminate].
  - destruct rest as [|t rest]; [discriminate|].
    destruct (Re.cls_match ic k t); [|discriminate].
    exists (Some t), (S pos), rest, g. repeat split; [exact H | lia | lia].
  - destruct (IHa _ _ _ _ _ _ H) as (p1 & n1 & s1 & g1 & H1 & Hle1 & Hlt1).
    destruct (IHb _ _ _ _ _ _ H1) as (p2 & n2 & s2 & g2 & H2 & Hle2 & Hlt2).
    exists p2, n2, s2, g2. repeat split; [exact H2 | lia |].
    intros Hn. apply andb_false_iff in Hn as [Hn|Hn];
      [specialize (Hlt1 Hn) | specialize (Hlt2 Hn)]; lia.
  - destruct (Re.run ic a prev pos rest g kont) as [o'|] eqn:E.
    + injection H as ->.
      destruct (IHa _ _ _ _ _ _ E) as (p & n & s & g' & Hk & Hle & Hlt).
      exists p, n, s, g'. repeat split; [exact Hk | lia |].
      intros Hn. apply orb_false_iff in Hn as [Hn _]. auto.
    + destruct (IHb _ _ _ _ _ _ H) as (p & n & s & g' & Hk & Hle & Hlt).
      exists p, n, s, g'. repeat split; [exact Hk | lia |].
      intros Hn. apply orb_false_iff in Hn as [_ Hn]. auto.
  - destruct (rep_progress _ _ _ _ _ _ _ _ _ _ H) as (p & n & s & Hk & Hle & Hlt).
    exists p, n, s, g. repeat split; [exact Hk | lia |].
    intros Hn. apply Hlt. destruct lo; [discriminate | congruence].
  - destruct (IHa _ _ _ _ _ _ H) as (p & n & s & g' & Hk & Hle & Hlt).
    exists p, n, s, (Some (pos, n)). repeat split; [exact Hk | lia | exact Hlt].
  - destruct (xorb _ _); [|discriminate].
    exists prev, pos, rest, g. repeat split; [exact H | lia | discriminate].
  - destruct prev as [t|]; [|discriminate].
    destruct (Re.cls_match ic k t); [|discriminate].
    exists (Some t), pos, rest, g. repeat split; [exact H | lia | discriminate].
Qed.

Lemma scan_nonempty ic r rest : forall prev pos skip m,
  Re.nullable r = false ->
  In m (Re.scan ic r prev pos rest skip) ->
  Re.m_start m < Re.m_end m.
Proof.
  assert (Hhere : forall prev pos rest skip e g,
    Re.nullable r = false ->
    match skip with
    | O => Re.run ic r prev pos rest None Re.accept
    | S _ => None
    end = Some (e, g) -> pos < e).
  { intros prev pos rest' skip e g Hn H. destruct skip; [|discriminate].
    destruct (run_progress _ _ _ _ _ _ _ _ H) as (p & n & s & g' & Hk & _ & Hlt).
    unfold Re.accept in Hk. injection Hk as -> _. auto. }
  induction rest as [|t rest IH]; intros prev pos skip m Hn Hin;
    cbn [Re.scan] in Hin.
  - destruct (match skip with O => _ | S _ => None end) as [[e g]|] eqn:E;
      [|destruct Hin].
    destruct Hin as [<-|[]]. simpl. eapply Hhere; eassumption.
  - destruct (match skip with O => _ | S _ => None end) as [[e g]|] eqn:E.
    + destruct Hin as [<-|Hin].
      * simpl. eapply Hhere; eassumption.
      * eapply IH; eassumption.
    + eapply IH; eassumption.
Qed.

Lemma finditer_nonempty ic r text m :
  Re.nullable r = false ->
  In m (Re.finditer ic r text) ->
  Re.m_start m < Re.m_end m.
Proof. unfold Re.finditer. apply scan_nonempty. Qed.

(* ================================================================== *)
(** * Facts about the stable sort *)
(* ================================================================== *)

Section SortFacts.
Context {A : Type}.
Variable lt : A -> A -> bool.

Lemma insert_perm x l : Permutation (Py.insert lt x l) (x :: l).
Proof.
  induction l as [|y l IH]; simpl; [reflexivity|].
  destruct (lt y x); [|reflexivity].
  rewrite IH. apply perm_swap.
Qed.

Lemma sorted_perm l : Permutation (Py.sorted lt l) l.
Proof.
  induction l as [|x l IH]; simpl; [reflexivity|].
  rewrite insert_perm. now constructor.
Qed.

Lemma sorted_In l x : In x (Py.sorted lt l) <-> In x l.
Proof.
  split; apply Permutation_in; [|symmetry]; apply sorted_perm.
Qed.

(** The output is ordered by any transitive relation [le] that [lt]
    decides in this sense. *)
Variable le : A -> A -> Prop.
Hypothesis le_trans : forall a b c, le a b -> le b c -> le a c.
Hypothesis lt_le : forall a b, lt a b = true -> le a b.
Hypothesis not_lt_le : forall a b, lt a b = false -> le b a.

Lemma insert_sorted x l :
  StronglySorted le l -> StronglySorted le (Py.insert lt x l).
Proof.
  induction 1 as [|y l Hl IH Hy]; simpl; [repeat constructor|].
  destruct (lt y x) eqn:E.
  - constructor; [exact IH|].
    apply Forall_forall. intros z Hz.
    apply (Permutation_in _ (insert_perm x l)) in Hz.
    destruct Hz as [<-|Hz]; [now apply lt_le|].
    revert z Hz. now apply Forall_forall.
  - constructor; [now constructor|].
    constructor; [now apply not_lt_le|].
    apply Forall_forall. intros z Hz.
    apply le_trans with y; [now apply not_lt_le|].
    revert z Hz. now apply Forall_forall.
Qed.

Lemma sorted_sorted l : StronglySorted le (Py.sorted lt l).
Proof.
  induction l as [|x l IH]; simpl; [constructor | now apply insert_sorted].
Qed.

End SortFacts.

(** [before x y l]: some occurrence of [x] in [l] precedes some
    occurrence of [y]. *)
Inductive before {A : Type} (x y : A) : list A -> Prop :=
| before_here l : In y l -> before x y (x :: l)
| before_next z l : before x y l -> before x y (z :: l).

Section Stability.
Context {A : Type}.
Variable lt : A -> A -> bool.

Lemma before_In (x y : A) l : before x y l -> In x l /\ In y l.
Proof.
  induction 1 as [l H | z l _ [IHx IHy]]; split; simpl; auto.
Qed.

Lemma before_insert a x y s :
  before x y (Py.insert lt a s) ->
  before x y s
  \/ (x = a /\ In y s)
  \/ (y = a /\ In x s /\ lt x a = true).
Proof.
  induction s as [|h t IH]; simpl; intros H.
  - inversion H as [l Hy|z l Hb]; subst; [destruct Hy | inversion Hb].
  - destruct (lt h a) eqn:E.
    + inversion H as [l Hy|z l Hb]; subst.
      * apply (Permutation_in _ (insert_perm lt a t)) in Hy.
        destruct Hy as [<-|Hy].
        -- right. right. split; [reflexivity|]. split; [now left | exact E].
        -- left. now constructor.
      * destruct (IH Hb) as [Hb'|[[-> Hy]|(-> & Hx & Hlt)]].
        -- left. now apply before_next.
        -- right. left. split; [reflexivity | now right].
        -- right. right. split; [reflexivity|]. split; [now right | exact Hlt].
    + inversion H as [l Hy|z l Hb]; subst.
      * right. left. split; [reflexivity | exact Hy].
      * left. exact Hb.
Qed.

(** Stability: two elements that the comparison does not order the other
    way round leave the sort in the order in which they entered it. *)
Lemma sorted_stable l x y :
  before x y (Py.sorted lt l) -> lt x y = false -> before x y l.
Proof.
  induction l as [|a l IH]; simpl; intros H Hxy.
  - inversion H.
  - destruct (before_insert _ _ _ _ H) as [Hb|[[-> Hy]|(-> & Hx & Hlt)]].
    + apply before_next. now apply IH.
    + apply before_here. now apply (sorted_In lt).
    + congruence.
Qed.

End Stability.

Lemma firstn_In {A : Type} (x : A) n l : In x (firstn n l) -> In x l.
Proof.
  intros H. rewrite <- (firstn_skipn n l). apply in_or_app. now left.
Qed.

Lemma prefix_In {A : Type} (x : A) n l : In x (Py.prefix l n) -> In x l.
Proof. unfold Py.prefix. destruct (n <? 0)%Z; apply firstn_In. Qed.

Lemma before_firstn {A : Type} (x y : A) n l :
  before x y (firstn n l) -> before x y l.
Proof.
  revert n. induction l as [|a l IH]; intros [|n] H; simpl in H;
    try solve [inversion H].
  inversion H as [l' Hy|z l' Hb]; subst.
  - apply before_here. eapply firstn_In, Hy.
  - apply before_next. eapply IH, Hb.
Qed.

Lemma before_prefix {A : Type} (x y : A) n l :
  before x y (Py.prefix l n) -> before x y l.
Proof. unfold Py.prefix. destruct (n <? 0)%Z; apply before_firstn. Qed.

Lemma before_map {A B : Type} (f : A -> B) x y l :
  before x y l -> before (f x) (f y) (map f l).
Proof.
  induction 1 as [l H | z l _ IH]; simpl.
  - apply before_here. now apply in_map.
  - now apply before_next.
Qed.

Lemma before_cons_iff {A : Type} (x y a : A) l :
  before x y (a :: l) <-> (x = a /\ In y l) \/ before x y l.
Proof.
  split.
  - intros H. inversion H; subst; auto.
  - intros [[-> H]|H]; [now apply before_here | now apply before_next].
Qed.

Lemma before_nil {A : Type} (x y : A) : ~ before x y [].
Proof. intros H. inversion H. Qed.

Lemma before_app_iff {A : Type} (x y : A) l1 l2 :
  before x y (l1 ++ l2)
  <-> before x y l1 \/ before x y l2 \/ (In x l1 /\ In y l2).
Proof.
  induction l1 as [|a l1 IH]; simpl.
  - split; [auto|]. intros [H|[H|[[] _]]]; [now apply before_nil in H | exact H].
  - rewrite !before_cons_iff, IH, in_app_iff.
    split.
    + intros [[-> [H|H]]|[H|[H|[H1 H2]]]]; auto 7.
    + intros [[[-> H]|H]|[H|[[->|H1] H2]]]; auto 7.
Qed.

Lemma before_perm {A : Type} l l' :
  Permutation l l' ->
  forall x y : A, before x y l -> before x y l' \/ before y x l'.
Proof.
  induction 1 as [|a l l' Hp IH|a b l|l l' l'' _ IH1 _ IH2]; intros x y H.
  - now apply before_nil in H.
  - apply before_cons_iff in H as [[-> Hy]|H].
    + left. apply before_here. eapply Permutation_in; eassumption.
    + destruct (IH _ _ H); [left|right]; now apply before_next.
  - rewrite !before_cons_iff in H. rewrite !before_cons_iff. simpl in *.
    destruct H as [[-> [->|H]]|[[-> H]|H]]; auto 7.
  - destruct (IH1 _ _ H) as [H1|H1]; destruct (IH2 _ _ H1); auto.
Qed.

Lemma nth_before {A : Type} (l : list A) : forall i j a b,
  i < j -> nth_error l i = Some a -> nth_error l j = Some b -> before a b l.
Proof.
  induction l as [|h t IH]; intros i j a b Hij Hi Hj.
  - destruct i; discriminate.
  - destruct j as [|j]; [lia|]. simpl in Hj.
    destruct i as [|i].
    + simpl in Hi. injection Hi as ->.
      apply before_here. eapply nth_error_In, Hj.
    + simpl in Hi. apply before_next. apply (IH i j); [lia | assumption..].
Qed.

(* ================================================================== *)
(** * Facts about entity extraction *)
(* ================================================================== *)

(** The span of an entity holds at least one character. *)
Definition proper (e : NER.Entity) : Prop := (NER.start e < NER.end_ e)%Z.

Definition overlapping (a b : NER.Entity) : Prop :=
  (NER.start a < NER.end_ b /\ NER.start b < NER.end_ a)%Z.

Definition pairwise_disjoint (l : list NER.Entity) : Prop :=
  forall a b, before a b l -> ~ overlapping a b.

(** [dominates d c]: [d] is another candidate that overlaps [c], is at
    least as confident, and is strictly more confident unless it starts
    no later than [c]. *)
Definition dominates (d c : NER.Entity) : Prop :=
  d <> c
  /\ NER.overlaps c d = true
  /\ (NER.confidence c <= NER.confidence d)%Q
  /\ ((NER.confidence c < NER.confidence d)%Q
      \/ (NER.start d <= NER.start c)%Z).

Lemma overlaps_spec a b : NER.overlaps a b = true <-> overlapping a b.
Proof.
  unfold NER.overlaps, overlapping.
  rewrite negb_true_iff, orb_false_iff, Z.geb_leb, !Z.leb_gt. tauto.
Qed.

Lemma overlaps_false a b : NER.overlaps a b = false <-> ~ overlapping a b.
Proof.
  rewrite <- overlaps_spec. destruct (NER.overlaps a b); split; congruence.
Qed.

Lemma overlapping_sym a b : overlapping a b -> overlapping b a.
Proof. unfold overlapping. tauto. Qed.

Lemma Qltb_spec a b : Py.Qltb a b = true <-> (a < b)%Q.
Proof.
  unfold Py.Qltb. rewrite negb_true_iff.
  split.
  - intros H. apply Qnot_le_lt. intros Hle.
    apply Qle_bool_iff in Hle. congruence.
  - intros H. destruct (Qle_bool b a) eqn:E; [|reflexivity].
    apply Qle_bool_iff in E. exfalso. eapply Qlt_not_le; eassumption.
Qed.

Lemma Qltb_false a b : Py.Qltb a b = false <-> (b <= a)%Q.
Proof.
  unfold Py.Qltb. rewrite negb_false_iff. apply Qle_bool_iff.
Qed.

Lemma metadata_eqb_refl d : NER.metadata_eqb d d = true.
Proof.
  unfold NER.metadata_eqb. rewrite Nat.eqb_refl. simpl.
  apply forallb_forall. intros kv Hkv.
  apply existsb_exists. exists kv. split; [exact Hkv|].
  now rewrite !String.eqb_refl.
Qed.

Lemma EntityType_eqb_eq a b : NER.EntityType_eqb a b = true <-> a = b.
Proof. destruct a, b; simpl; split; congruence. Qed.

Lemma Entity_eqb_refl e : NER.Entity_eqb e e = true.
Proof.
  unfold NER.Entity_eqb.
  rewrite String.eqb_refl, !Z.eqb_refl, metadata_eqb_refl.
  rewrite (proj2 (EntityType_eqb_eq _ _) eq_refl).
  now rewrite (proj2 (Qeq_bool_iff _ _) (Qeq_refl _)).
Qed.

Lemma Entity_eqb_span a b :
  NER.Entity_eqb a b = true ->
  NER.start a = NER.start b /\ NER.end_ a = NER.end_ b.
Proof.
  unfold NER.Entity_eqb. rewrite !andb_true_iff.
  intros [[[[[_ _] Hs] He] _] _].
  apply Z.eqb_eq in Hs, He. auto.
Qed.

Lemma Entity_eq_dec (a b : NER.Entity) : {a = b} + {a <> b}.
Proof.
  repeat decide equality; apply Ascii.ascii_dec.
Qed.

Lemma find_split {A : Type} (f : A -> bool) l x :
  List.find f l = Some x ->
  exists l1 l2,
    l = l1 ++ x :: l2 /\ f x = true /\ Forall (fun y => f y = false) l1.
Proof.
  induction l as [|a l IH]; simpl; [discriminate|].
  destruct (f a) eqn:E.
  - intros [= ->]. exists [], l. auto.
  - intros H. destruct (IH H) as (l1 & l2 & -> & Hx & Hl1).
    exists (a :: l1), l2. auto.
Qed.

Lemma remove_split x l1 l2 :
  Forall (fun y => NER.Entity_eqb y x = false) l1 ->
  NER.remove x (l1 ++ x :: l2) = l1 ++ l2.
Proof.
  induction 1 as [|y l1 Hy _ IH]; simpl.
  - now rewrite Entity_eqb_refl.
  - now rewrite Hy, IH.
Qed.

(** [list.remove] takes out the very element that the inner loop
    stopped at. *)
Lemma remove_found e filtered existing :
  List.find (NER.overlaps e) filtered = Some existing ->
  exists l1 l2,
    filtered = l1 ++ existing :: l2
    /\ NER.remove existing filtered = l1 ++ l2
    /\ NER.overlaps e existing = true.
Proof.
  intros H. destruct (find_split _ _ _ H) as (l1 & l2 & -> & Hx & Hl1).
  exists l1, l2. repeat split; [|exact Hx].
  apply remove_split. apply Forall_forall. intros y Hy.
  destruct (NER.Entity_eqb y existing) eqn:E; [|reflexivity].
  apply Entity_eqb_span in E as [Es Ee].
  rewrite Forall_forall in Hl1. specialize (Hl1 y Hy).
  unfold NER.overlaps in *. rewrite Es, Ee in Hl1. congruence.
Qed.

(** The invariant of the loop of [_remove_overlaps]: [seen] holds the
    entities already visited, [filtered] the accepted ones. *)
Record kept_inv (seen filtered : list NER.Entity) : Prop := {
  inv_incl : incl filtered seen;
  inv_disjoint : pairwise_disjoint filtered;
  inv_account :
    forall c, In c seen -> In c filtered \/ exists d, In d seen /\ dominates d c
}.

Lemma keep_step_inv seen filtered e :
  kept_inv seen filtered ->
  Forall proper (e :: seen) ->
  (forall p, In p seen -> (NER.start p <= NER.start e)%Z) ->
  kept_inv (seen ++ [e]) (NER.keep_step filtered e).
Proof.
  intros [Hincl Hdis Hacc] Hproper Hle.
  inversion Hproper as [|? ? He Hseen]; subst.
  rewrite Forall_forall in Hseen.
  unfold NER.keep_step.
  destruct (List.find (NER.overlaps e) filtered) as [x|] eqn:Hfind.
  - destruct (remove_found _ _ _ Hfind) as (l1 & l2 & Hf & Hrm & Hov).
    assert (Hx : In x filtered) by (rewrite Hf; apply in_elt).
    destruct (Py.Qltb (NER.confidence x) (NER.confidence e)) eqn:Hc.
    + (* the accepted entity is evicted *)
      apply Qltb_spec in Hc. rewrite Hrm. split.
      * intros y Hy. apply in_app_or in Hy as [Hy|[<-|[]]].
        -- apply in_or_app. left. apply Hincl. rewrite Hf.
           apply in_app_or in Hy as [Hy|Hy]; apply in_or_app; simpl; auto.
        -- apply in_or_app. right. now left.
      * intros a b' Hb. apply before_app_iff in Hb as [Hb|[Hb|[Ha [<-|[]]]]].
        -- apply Hdis. rewrite Hf.
           apply before_app_iff in Hb as [Hb|[Hb|[H1 H2]]];
             apply before_app_iff; rewrite before_cons_iff; simpl; auto 6.
        -- apply before_cons_iff in Hb as [[_ []]|Hb]. now apply before_nil in Hb.
        -- (* [a] was accepted next to [x], so it ends before [e] starts *)
           assert (Hax : ~ overlapping a x /\ In a filtered).
           { rewrite Hf. apply in_app_or in Ha as [Ha|Ha].
             - split; [|apply in_or_app; auto].
               apply Hdis. rewrite Hf. apply before_app_iff.
               right. right. split; [exact Ha | now left].
             - split; [|apply in_or_app; simpl; auto].
               intros Hax. apply overlapping_sym in Hax. revert Hax.
               apply Hdis. rewrite Hf. apply before_app_iff.
               right. left. now apply before_here. }
           destruct Hax as [Hax Hain].
           apply overlaps_spec in Hov.
           assert (Pa := Hseen a (Hincl a Hain)).
           assert (Px := Hseen x (Hincl x Hx)).
           assert (La := Hle a (Hincl a Hain)).
           assert (Lx := Hle x (Hincl x Hx)).
           unfold overlapping, proper in *. lia.
      * intros c Hc'. apply in_app_or in Hc' as [Hc'|[<-|[]]].
        -- destruct (Hacc c Hc') as [Hin|(d & Hd & Hdom)].
           ++ rewrite Hf in Hin. apply in_app_or in Hin as [Hin|[<-|Hin]].
              ** left. apply in_or_app. left. apply in_or_app. now left.
              ** right. exists e. split; [apply in_or_app; simpl; auto|].
                 repeat split.
                 --- intros ->. revert Hc. apply Qlt_irrefl.
                 --- apply overlaps_spec, overlapping_sym, overlaps_spec, Hov.
                 --- now apply Qlt_le_weak.
                 --- now left.
              ** left. apply in_or_app. left. apply in_or_app. now right.
           ++ right. exists d. split; [apply in_or_app; now left | exact Hdom].
        -- left. apply in_or_app. right. now left.
    + (* the newcomer is dropped *)
      apply Qltb_false in Hc. split.
      * intros y Hy. apply in_or_app. left. now apply Hincl.
      * exact Hdis.
      * intros c Hc'. apply in_app_or in Hc' as [Hc'|[<-|[]]].
        -- destruct (Hacc c Hc') as [Hin|(d & Hd & Hdom)]; [now left|].
           right. exists d. split; [apply in_or_app; now left | exact Hdom].
        -- destruct (Entity_eq_dec x e) as [->|Hne]; [now left|].
           right. exists x. split; [apply in_or_app; left; now apply Hincl|].
           repeat split; [exact Hne | exact Hov | exact Hc |].
           right. apply Hle. now apply Hincl.
  - (* nothing overlaps: the newcomer is accepted *)
    assert (Hnone := find_none _ _ Hfind). split.
    + intros y Hy. apply in_app_or in Hy as [Hy|Hy]; apply in_or_app;
        [left; now apply Hincl | now right].
    + intros a b' Hb. apply before_app_iff in Hb as [Hb|[Hb|[Ha [<-|[]]]]].
      * now apply Hdis.
      * apply before_cons_iff in Hb as [[_ []]|Hb]. now apply before_nil in Hb.
      * intros Hov. apply overlapping_sym, overlaps_spec in Hov.
        rewrite (Hnone a Ha) in Hov. discriminate.
    + intros c Hc'. apply in_app_or in Hc' as [Hc'|[<-|[]]].
      * destruct (Hacc c Hc') as [Hin|(d & Hd & Hdom)].
        -- left. apply in_or_app. now left.
        -- right. exists d. split; [apply in_or_app; now left | exact Hdom].
      * left. apply in_or_app. right. now left.
Qed.

Lemma StronglySorted_app_r {A : Type} (R : A -> A -> Prop) l1 l2 :
  StronglySorted R (l1 ++ l2) -> StronglySorted R l2.
Proof.
  induction l1 as [|a l1 IH]; simpl; [auto|].
  intros H. apply StronglySorted_inv in H as [H _]. auto.
Qed.

Lemma keep_loop_inv l : forall seen filtered,
  kept_inv seen filtered ->
  Forall proper (seen ++ l) ->
  StronglySorted (fun a b => (NER.start a <= NER.start b)%Z) (seen ++ l) ->
  kept_inv (seen ++ l) (fold_left NER.keep_step l filtered).
Proof.
  induction l as [|e l IH]; intros seen filtered Hinv Hp Hs.
  - simpl. now rewrite app_nil_r.
  - simpl.
    replace (seen ++ e :: l) with ((seen ++ [e]) ++ l) in *
      by (rewrite <- app_assoc; reflexivity).
    apply IH; [|exact Hp | exact Hs].
    apply keep_step_inv; [exact Hinv | |].
    + rewrite Forall_app in Hp. destruct Hp as [Hp _].
      rewrite Forall_app in Hp. destruct Hp as [Hp1 Hp2].
      inversion Hp2; subst. now constructor.
    + intros p Hin.
      rewrite <- app_assoc in Hs. simpl in Hs.
      apply in_split in Hin as (s1 & s2 & ->).
      rewrite <- app_assoc in Hs. simpl in Hs.
      apply StronglySorted_app_r in Hs.
      apply StronglySorted_inv in Hs as [_ Hall].
      rewrite Forall_forall in Hall. apply Hall.
      apply in_or_app. right. now left.
Qed.

Lemma entity_of_proper ty conf label meta m :
  Re.m_start m < Re.m_end m -> proper (NER.entity_of ty conf label meta m).
Proof. unfold proper. simpl. lia. Qed.

Lemma scan_plain_proper ic patterns ty conf text e :
  forallb (fun p => negb (Re.nullable p)) patterns = true ->
  In e (NER.scan_plain ic patterns ty conf text) -> proper e.
Proof.
  intros Hall Hin. unfold NER.scan_plain in Hin.
  apply in_flat_map in Hin as (p & Hp & Hin).
  apply in_map_iff in Hin as (m & <- & Hm).
  apply entity_of_proper. apply (finditer_nonempty ic p text); [|exact Hm].
  rewrite forallb_forall in Hall. specialize (Hall p Hp).
  now apply negb_true_iff in Hall.
Qed.

Lemma sections_proper text e : In e (NER._extract_sections text) -> proper e.
Proof.
  intros Hin. unfold NER._extract_sections in Hin.
  apply in_flat_map in Hin as ([p act] & Hp & Hin).
  apply in_map_iff in Hin as (m & <- & Hm).
  apply entity_of_proper. apply (finditer_nonempty true p text); [|exact Hm].
  assert (Hall : forallb (fun pa : Re.regex * string => negb (Re.nullable (fst pa)))
                         NER.section_patterns = true) by reflexivity.
  rewrite forallb_forall in Hall. specialize (Hall _ Hp).
  now apply negb_true_iff in Hall.
Qed.

Lemma case_numbers_proper text e :
  In e (NER._extract_case_numbers text) -> proper e.
Proof.
  intros Hin. unfold NER._extract_case_numbers in Hin.
  apply in_flat_map in Hin as (p & Hp & Hin).
  apply in_map_iff in Hin as (m & <- & Hm).
  apply entity_of_proper. apply (finditer_nonempty true p text); [|exact Hm].
  assert (Hall : forallb (fun p => negb (Re.nullable p))
                         NER.case_number_patterns = true) by reflexivity.
  rewrite forallb_forall in Hall. specialize (Hall _ Hp).
  now apply negb_true_iff in Hall.
Qed.

(** Every match of every scanner covers at least one character. *)
Lemma candidates_proper text : Forall proper (NER.candidates text).
Proof.
  apply Forall_forall. intros e Hin. unfold NER.candidates in Hin.
  apply in_app_or in Hin as [Hin|Hin]; [|apply in_app_or in Hin as [Hin|Hin];
    [|apply in_app_or in Hin as [Hin|Hin]; [|apply in_app_or in Hin as [Hin|Hin];
    [|apply in_app_or in Hin as [Hin|Hin]]]]].
  - now apply sections_proper in Hin.
  - now apply case_numbers_proper in Hin.
  - now apply scan_plain_proper in Hin.
  - now apply scan_plain_proper in Hin.
  - now apply scan_plain_proper in Hin.
  - now apply scan_plain_proper in Hin.
Qed.

Lemma remove_overlaps_unfold l :
  NER._remove_overlaps l
  = Py.sorted NER.start_lt
      (fold_left NER.keep_step (Py.sorted NER.key_lt l) []).
Proof. destruct l; reflexivity. Qed.

Lemma key_lt_le a b :
  NER.key_lt a b = true -> (NER.start a <= NER.start b)%Z.
Proof.
  unfold NER.key_lt. rewrite orb_true_iff, andb_true_iff.
  intros [H|[H _]]; [apply Z.ltb_lt in H | apply Z.eqb_eq in H]; lia.
Qed.

Lemma key_not_lt_le a b :
  NER.key_lt a b = false -> (NER.start b <= NER.start a)%Z.
Proof.
  unfold NER.key_lt. rewrite orb_false_iff.
  intros [H _]. apply Z.ltb_ge in H. exact H.
Qed.

(** What [_remove_overlaps] guarantees for candidates with proper spans. *)
Lemma remove_overlaps_sound l :
  Forall proper l ->
  pairwise_disjoint (NER._remove_overlaps l)
  /\ incl (NER._remove_overlaps l) l
  /\ (forall c, In c l -> ~ In c (NER._remove_overlaps l) ->
      exists d, In d l /\ dominates d c).
Proof.
  intros Hp. rewrite remove_overlaps_unfold.
  set (srt := Py.sorted NER.key_lt l).
  assert (Hperm : Permutation srt l) by apply sorted_perm.
  assert (Hinv : kept_inv ([] ++ srt) (fold_left NER.keep_step srt [])).
  { apply keep_loop_inv.
    - split; [intros ? [] | intros ? ? H; now apply before_nil in H | intros ? []].
    - simpl. eapply Permutation_Forall; [symmetry; exact Hperm | exact Hp].
    - simpl. apply sorted_sorted.
      + intros a b c. lia.
      + exact key_lt_le.
      + exact key_not_lt_le. }
  simpl in Hinv. destruct Hinv as [Hincl Hdis Hacc].
  set (flt := fold_left NER.keep_step srt []) in *.
  assert (Hout : Permutation (Py.sorted NER.start_lt flt) flt) by apply sorted_perm.
  repeat split.
  - intros a b Hb Hov.
    destruct (before_perm _ _ Hout _ _ Hb) as [H|H].
    + now apply (Hdis a b).
    + apply (Hdis b a H). now apply overlapping_sym.
  - intros e He. eapply Permutation_in; [exact Hperm|].
    apply Hincl. eapply Permutation_in; [exact Hout | exact He].
  - intros c Hc Hnot.
    assert (Hc' : In c srt) by (eapply Permutation_in; [symmetry|]; eassumption).
    destruct (Hacc c Hc') as [Hin|(d & Hd & Hdom)].
    + exfalso. apply Hnot. eapply Permutation_in; [symmetry; exact Hout | exact Hin].
    + exists d. split; [|exact Hdom].
      eapply Permutation_in; eassumption.
Qed.

(** ** C1 *)

(** C1, as the code has it.  For every text: no two entities of the list
    returned by [extract_entities] overlap; every returned entity is a
    candidate found by a scanner; and a candidate that is absent from the
    result overlaps another candidate [d] that is at least as confident,
    and strictly more confident unless [d] starts no later (the earlier
    one in the sorted order wins a tie).  The code does not keep the more
    confident of every overlapping pair of candidates. *)
Theorem C1_no_overlap_and_dropped_are_dominated :
  forall text,
    (forall i j a b,
       i <> j ->
       nth_error (NER.extract_entities text) i = Some a ->
       nth_error (NER.extract_entities text) j = Some b ->
       NER.overlaps a b = false)
    /\ (forall e, In e (NER.extract_entities text) -> In e (NER.candidates text))
    /\ (forall c,
          In c (NER.candidates text) ->
          ~ In c (NER.extract_entities text) ->
          exists d, In d (NER.candidates text) /\ dominates d c).
Proof.
  intros text. unfold NER.extract_entities.
  destruct (remove_overlaps_sound _ (candidates_proper text)) as (Hdis & Hincl & Hacc).
  repeat split; [|exact Hincl | exact Hacc].
  intros i j a b Hij Hi Hj. apply overlaps_false.
  destruct (Nat.lt_total i j) as [Hlt|[Heq|Hlt]]; [|contradiction|].
  - apply Hdis. eapply nth_before; eassumption.
  - intros H. apply overlapping_sym in H. revert H.
    apply Hdis. eapply nth_before; eassumption.
Qed.

(** A text on which a court name (confidence 0.9) and a legal term
    (confidence 0.7) overlap while a section reference before them
    overlaps the court name only. *)
Definition tie_text : string := "IPC Section 5High Court of Appeal".

Definition tie_court : NER.Entity :=
  NER.mkEntity "High Court of Appeal" NER.COURT 13 33 (9 # 10) [].

Definition tie_term : NER.Entity :=
  NER.mkEntity "Appeal" NER.LEGAL_TERM 27 33 (7 # 10) [].

(** C1, counterexample to the claim as stated.  On [tie_text] the
    scanners produce the court name and the legal term, which overlap; the
    court name is strictly more confident, yet the result keeps the legal
    term and not the court name (the court name lost a tie against the
    section reference found before it). *)
Lemma C1_counterexample_more_confident_not_kept :
  In tie_court (NER.candidates tie_text)
  /\ In tie_term (NER.candidates tie_text)
  /\ NER.overlaps tie_court tie_term = true
  /\ (NER.confidence tie_term < NER.confidence tie_court)%Q
  /\ ~ In tie_court (NER.extract_entities tie_text)
  /\ In tie_term (NER.extract_entities tie_text).
Proof.
  split; [vm_compute; auto|].
  split; [vm_compute; auto|].
  split; [vm_compute; reflexivity|].
  split; [vm_compute; reflexivity|].
  split; [vm_compute; intros [H|[H|[]]]; discriminate|].
  vm_compute; auto.
Qed.

(** The first part of C1 at a concrete pair of positions of a text. *)
Lemma C1_witness :
  NER.overlaps
    (NER.mkEntity "IPC Section 5H" NER.LEGAL_SECTION 0 14 (9 # 10)
                  [("act", "IPC"); ("section_number", "5H")])
    tie_term = false.
Proof.
  apply (proj1 (C1_no_overlap_and_dropped_are_dominated tie_text) 0 1);
    [lia | vm_compute; reflexivity | vm_compute; reflexivity].
Defined.

(** C8 at a concrete query. *)
Lemma C8_witness :
  In "ipc"
     (map PyStr.lower
          (PyStr.split
             (Enhancer.enhanced_query
                (Enhancer.enhance_query (fun l => l) "Section 302 IPC"
                                        true true true)))).
Proof.
  apply (C8_high_confidence_entity_tokens_kept
           (fun l => l) "Section 302 IPC" true true
           (NER.mkEntity "IPC Section 302" NER.LEGAL_SECTION 0 15 (9 # 10)
                         [("act", "IPC"); ("section_number", "302")])
           "IPC").
  - vm_compute. left. reflexivity.
  - vm_compute. reflexivity.
  - left. reflexivity.
  - vm_compute. left. reflexivity.
Defined.

(* ================================================================== *)
(** * Facts about dark-zone detection *)
(* ================================================================== *)

Lemma zone_of_entity self text entities e dz :
  In dz (DarkZones.zone_of self text entities e) ->
  DarkZones.section_entity dz = e.
Proof.
  unfold DarkZones.zone_of.
  destruct (negb _); [|intros []].
  intros [<-|[]]. reflexivity.
Qed.

(** ** C9 *)

(** C9.  Every dark zone returned by [detect_dark_zones] has for
    [section_entity] an entity of type LEGAL_SECTION that
    [extract_entities] returns on the same text. *)
Theorem C9_dark_zone_entity_is_extracted :
  forall self text dz,
    In dz (DarkZones.detect_dark_zones self text) ->
    In (DarkZones.section_entity dz) (NER.extract_entities text)
    /\ NER.entity_type (DarkZones.section_entity dz) = NER.LEGAL_SECTION.
Proof.
  intros self text dz H. unfold DarkZones.detect_dark_zones in H.
  apply in_flat_map in H as (e & He & Hdz).
  apply zone_of_entity in Hdz. rewrite Hdz.
  apply filter_In in He as [Hin Hty].
  split; [exact Hin | now apply EntityType_eqb_eq].
Qed.

(** A sentence that cites a section and explains nothing. *)
Definition bare_text : string :=
  "He was convicted under Section 302 of the Indian Penal Code.".

Definition bare_entity : NER.Entity :=
  NER.mkEntity "IPC Section 302" NER.LEGAL_SECTION 23 59 (9 # 10)
               [("act", "IPC"); ("section_number", "302")].

Definition bare_zone : DarkZones.DarkZone :=
  DarkZones.mkDarkZone bare_entity bare_text (23, 59)%Z [] true
    ["Retrieve full text of IPC Section 302";
     "Search for judgments citing IPC Section 302"].

(** C9 at the dark zone of [bare_text]. *)
Lemma C9_witness :
  In bare_entity (NER.extract_entities bare_text)
  /\ NER.entity_type bare_entity = NER.LEGAL_SECTION.
Proof.
  apply (C9_dark_zone_entity_is_extracted
           DarkZones.default_detector bare_text bare_zone).
  vm_compute. left. reflexivity.
Defined.

(** ** C6 *)

Definition filler : string := "The accused was arrested on the spot. ".

(** 228 characters of narrative, then a section reference that is
    immediately followed by "which states". *)
Definition explained_text : string :=
  filler ++ filler ++ filler ++ filler ++ filler ++ filler
  ++ "Section 302 of the Indian Penal Code which states that murder is punishable with death.".

(** C6, the code at a failing input.  In [explained_text] the mention at
    offsets 228..264 is followed at once by " which states", yet
    [detect_dark_zones] emits a dark zone for it.  The entity text is the
    canonical "IPC Section 302", which does not occur in the context, so
    [find] answers -1 and the distance of each indicator is measured from
    offset -1 instead of from the mention. *)
Theorem C6_explained_section_is_flagged :
  map (fun dz => (NER.text (DarkZones.section_entity dz), DarkZones.position dz))
      (DarkZones.detect_dark_zones DarkZones.default_detector explained_text)
  = [("IPC Section 302", (228, 264)%Z)]
  /\ PyStr.slice explained_text 228 264 = "Section 302 of the Indian Penal Code"
  /\ PyStr.slice explained_text 264 277 = " which states"
  /\ PyStr.find (PyStr.lower explained_text) "ipc section 302" = (-1)%Z.
Proof.
  split; [vm_compute; reflexivity|].
  split; [vm_compute; reflexivity|].
  split; vm_compute; reflexivity.
Qed.

(* ================================================================== *)
(** * Facts about doubles *)
(* ================================================================== *)

Section DoubleFacts.
Local Open Scope Z_scope.

(** A double that is not NaN and carries no minus sign. *)
Definition plus_signed (x : PyFloat.float) : Prop :=
  match x with
  | S754_nan => False
  | S754_zero s | S754_infinity s | S754_finite s _ _ => s = false
  end.

Definition not_nan (x : PyFloat.float) : Prop :=
  match x with S754_nan => False | _ => True end.

Lemma plus_signed_not_nan x : plus_signed x -> not_nan x.
Proof. destruct x; simpl; auto. Qed.

Lemma shr_1_nonneg mrs : 0 <= shr_m mrs -> 0 <= shr_m (shr_1 mrs).
Proof.
  destruct mrs as [m r s]. simpl.
  destruct m as [|p|p]; simpl; try lia; destruct p; simpl; lia.
Qed.

Lemma iter_pos_inv {A : Type} (f : A -> A) (P : A -> Prop) :
  (forall x, P x -> P (f x)) -> forall p x, P x -> P (iter_pos f p x).
Proof.
  intros Hf. induction p as [p IH|p IH|]; intros x Hx; simpl; auto.
Qed.

Lemma shr_nonneg mrs e n : 0 <= shr_m mrs -> 0 <= shr_m (fst (shr mrs e n)).
Proof.
  intros H. unfold shr. destruct n; simpl; try exact H.
  apply (iter_pos_inv shr_1 (fun r => 0 <= shr_m r)); [apply shr_1_nonneg | exact H].
Qed.

Lemma shr_fexp_nonneg pr em m e l :
  0 <= m -> 0 <= shr_m (fst (shr_fexp pr em m e l)).
Proof.
  intros H. unfold shr_fexp. apply shr_nonneg.
  destruct l as [|[]]; simpl; exact H.
Qed.

Lemma round_nearest_even_nonneg m l : 0 <= m -> 0 <= round_nearest_even m l.
Proof.
  intros H. unfold round_nearest_even.
  destruct l as [|[]]; try lia. destruct (Z.even m); lia.
Qed.

(** Rounding keeps the sign it is given and never yields NaN. *)
Lemma binary_round_aux_sign pr em sx mx ex lx :
  0 <= mx ->
  match binary_round_aux pr em sx mx ex lx with
  | S754_nan => False
  | S754_zero s | S754_infinity s | S754_finite s _ _ => s = sx
  end.
Proof.
  intros H. unfold binary_round_aux.
  pose proof (shr_fexp_nonneg pr em mx ex lx H) as H1.
  destruct (shr_fexp pr em mx ex lx) as [mrs' e']. simpl in H1.
  pose proof (shr_fexp_nonneg pr em
                (round_nearest_even (shr_m mrs') (loc_of_shr_record mrs'))
                e' loc_Exact (round_nearest_even_nonneg _ _ H1)) as H2.
  destruct (shr_fexp pr em _ e' loc_Exact) as [mrs'' e'']. simpl in H2.
  destruct (shr_m mrs'') as [|m|m]; [reflexivity | | lia].
  destruct (e'' <=? em - pr); reflexivity.
Qed.

Lemma binary_round_sign pr em sx mx ex :
  match binary_round pr em sx mx ex with
  | S754_nan => False
  | S754_zero s | S754_infinity s | S754_finite s _ _ => s = sx
  end.
Proof.
  unfold binary_round. destruct (shl_align _ _ _) as [mz ez].
  apply binary_round_aux_sign. lia.
Qed.

Lemma of_int_plus_signed n : 0 <= n -> plus_signed (PyFloat.of_int n).
Proof.
  intros H. unfold PyFloat.of_int, binary_normalize.
  destruct n as [|p|p]; [reflexivity | | lia].
  apply (binary_round_sign PyFloat.prec PyFloat.emax false p 0).
Qed.

Lemma of_int_not_nan n : not_nan (PyFloat.of_int n).
Proof.
  unfold PyFloat.of_int, binary_normalize. destruct n as [|p|p]; [exact I | |].
  - pose proof (binary_round_sign PyFloat.prec PyFloat.emax false p 0) as H.
    destruct (binary_round _ _ _ _ _); simpl; auto.
  - pose proof (binary_round_sign PyFloat.prec PyFloat.emax true p 0) as H.
    destruct (binary_round _ _ _ _ _); simpl; auto.
Qed.

Lemma div_core_nonneg pr em m1 e1 m2 e2 :
  0 <= fst (fst (SFdiv_core_binary pr em (Zpos m1) e1 (Zpos m2) e2)).
Proof.
  unfold SFdiv_core_binary. cbv zeta.
  set (s := _ - _ - _).
  set (m' := match s with Z0 => Zpos m1 | Zpos _ => Z.shiftl (Zpos m1) s | Zneg _ => 0 end).
  assert (Hm : 0 <= m').
  { subst m'. destruct s; try lia. apply Z.shiftl_nonneg. lia. }
  pose proof (Z.div_pos m' (Zpos m2) Hm ltac:(lia)) as Hq.
  unfold Z.div in Hq.
  destruct (Z.div_eucl m' (Zpos m2)) as [q r]. simpl. exact Hq.
Qed.

(** [1.0 / d] for a positive double [d]. *)
Lemma div_one_plus_signed d :
  plus_signed d -> PyFloat.is_zero d = false ->
  plus_signed (PyFloat.div PyFloat.one d).
Proof.
  intros Hd Hz. destruct d as [s|s|  |s m e]; simpl in Hd, Hz; try discriminate;
    try contradiction; subst s.
  - reflexivity.
  - unfold PyFloat.div, PyFloat.one, SFdiv.
    pose proof (div_core_nonneg PyFloat.prec PyFloat.emax 4503599627370496 (-52) m e) as Hq.
    destruct (SFdiv_core_binary _ _ _ _ _ _) as [[mz ez] lz]. simpl in Hq.
    pose proof (binary_round_aux_sign PyFloat.prec PyFloat.emax (xorb false false) mz ez lz Hq) as H.
    unfold plus_signed. destruct (binary_round_aux _ _ _ _ _ _); auto.
Qed.

Lemma add_plus_signed x y :
  plus_signed x -> plus_signed y -> plus_signed (PyFloat.add x y).
Proof.
  intros Hx Hy.
  destruct x as [sx|sx| |sx mx ex], y as [sy|sy| |sy my ey]; simpl in *;
    try contradiction; subst; try reflexivity.
  unfold PyFloat.add, SFadd. cbv zeta. unfold cond_Zopp.
  match goal with
  | |- plus_signed (binary_normalize _ _ (Zpos ?a + Zpos ?b) ?e _) =>
      change (Zpos a + Zpos b) with (Zpos (a + b)); unfold binary_normalize;
      pose proof (binary_round_sign PyFloat.prec PyFloat.emax false (a + b) e) as H
  end.
  unfold plus_signed. destruct (binary_round _ _ _ _ _); auto.
Qed.

(** [0.0 + y] is [y]. *)
Lemma add_zero_l y : plus_signed y -> PyFloat.add PyFloat.zero y = y.
Proof.
  destruct y as [s|s| |s m e]; simpl; try contradiction; intros ->; reflexivity.
Qed.

(** ** The order of doubles *)

Lemma compare_antisym x y :
  SFcompare y x = option_map CompOpp (SFcompare x y).
Proof.
  destruct x as [sx|sx| |sx mx ex], y as [sy|sy| |sy my ey]; simpl;
    try reflexivity;
    try (destruct sx; reflexivity); try (destruct sy; reflexivity);
    try (destruct sx, sy; reflexivity).
  f_equal. destruct sx, sy; try reflexivity;
    rewrite (Z.compare_antisym ex ey);
    destruct (ex ?= ey); simpl; try reflexivity;
    change (Pos.compare_cont Eq my mx) with (Pos.compare my mx);
    change (Pos.compare_cont Eq mx my) with (Pos.compare mx my);
    rewrite (Pos.compare_antisym mx my);
    destruct (Pos.compare mx my); reflexivity.
Qed.

Lemma eqb_not_ltb x y : PyFloat.eqb x y = true -> PyFloat.ltb y x = false.
Proof.
  unfold PyFloat.eqb, PyFloat.ltb, SFeqb, SFltb. rewrite (compare_antisym x y).
  destruct (SFcompare x y) as [[]|]; simpl; congruence.
Qed.

Lemma ltb_asym x y : PyFloat.ltb x y = true -> PyFloat.ltb y x = false.
Proof.
  unfold PyFloat.ltb, SFltb. rewrite (compare_antisym x y).
  destruct (SFcompare x y) as [[]|]; simpl; congruence.
Qed.

Ltac compare_cases :=
  repeat match goal with
         | H : context [Pos.compare_cont Eq ?a ?b] |- _ =>
             change (Pos.compare_cont Eq a b) with (Pos.compare a b) in H
         | |- context [Pos.compare_cont Eq ?a ?b] =>
             change (Pos.compare_cont Eq a b) with (Pos.compare a b)
         end;
  repeat match goal with
         | H : context [Z.compare ?a ?b] |- _ =>
             destruct (Z.compare_spec a b); simpl in H; try discriminate
         | H : context [Pos.compare ?a ?b] |- _ =>
             destruct (Pos.compare_spec a b); simpl in H; try discriminate
         end;
  repeat match goal with
         | |- context [Z.compare ?a ?b] =>
             destruct (Z.compare_spec a b); simpl; try reflexivity
         | |- context [Pos.compare ?a ?b] =>
             destruct (Pos.compare_spec a b); simpl; try reflexivity
         end;
  try reflexivity; try discriminate; try (exfalso; subst; lia).

(** Among doubles that are not NaN, "not less than" is transitive. *)
Lemma not_ltb_trans x y z :
  not_nan x -> not_nan y -> not_nan z ->
  PyFloat.ltb x y = false -> PyFloat.ltb y z = false -> PyFloat.ltb x z = false.
Proof.
  unfold PyFloat.ltb, SFltb, SFcompare.
  destruct x as [sx|sx| |sx mx ex], y as [sy|sy| |sy my ey],
           z as [sz|sz| |sz mz ez]; simpl; try contradiction;
    intros _ _ _ H1 H2;
    repeat match goal with s : bool |- _ => destruct s end;
    simpl in *; try reflexivity; try discriminate; compare_cases.
Qed.

(** "Less than" is transitive. *)
Lemma ltb_trans x y z :
  PyFloat.ltb x y = true -> PyFloat.ltb y z = true -> PyFloat.ltb x z = true.
Proof.
  unfold PyFloat.ltb, SFltb, SFcompare.
  destruct x as [sx|sx| |sx mx ex], y as [sy|sy| |sy my ey],
           z as [sz|sz| |sz mz ez]; simpl; try discriminate;
    intros H1 H2;
    repeat match goal with s : bool |- _ => destruct s end;
    simpl in *; try reflexivity; try discriminate; compare_cases.
Qed.

(** ** Integers below 2^53 convert without rounding *)

Lemma digits2_size p : digits2_pos p = Pos.size p.
Proof. induction p; simpl; congruence. Qed.

Lemma digits2_small p : Zpos p < 2 ^ 53 -> Zpos (digits2_pos p) <= 53.
Proof.
  intros H. rewrite digits2_size.
  pose proof (Pos.size_le p) as Hle.
  destruct (Z_le_gt_dec (Zpos (Pos.size p)) 53) as [Hs|Hs]; [exact Hs|].
  exfalso.
  assert (Hz : Zpos (2 ^ Pos.size p) <= Zpos p~0) by exact Hle.
  rewrite Pos2Z.inj_pow in Hz.
  assert (H54 : 2 ^ 54 <= 2 ^ Zpos (Pos.size p)).
  { apply Z.pow_le_mono_r; lia. }
  change (2 ^ 54) with (2 * 2 ^ 53) in H54. lia.
Qed.

Lemma digits2_iter p d :
  digits2_pos (Pos.iter xO p d) = (digits2_pos p + d)%positive.
Proof.
  induction d as [|d IH] using Pos.peano_ind.
  - simpl. lia.
  - rewrite Pos.iter_succ. simpl. rewrite IH. lia.
Qed.

Lemma binary_round_aux_exact sx mz ez :
  Zpos (digits2_pos mz) = 53 -> -52 <= ez <= 0 ->
  binary_round_aux PyFloat.prec PyFloat.emax sx (Zpos mz) ez loc_Exact
  = S754_finite sx mz ez.
Proof.
  intros Hd He.
  assert (Hshr : shr_fexp PyFloat.prec PyFloat.emax (Zpos mz) ez loc_Exact
                 = (Build_shr_record (Zpos mz) false false, ez)).
  { unfold shr_fexp, Zdigits2. rewrite Hd.
    unfold fexp, emin, PyFloat.prec, PyFloat.emax.
    replace (Z.max (53 + ez - 53) (3 - 1024 - 53) - ez) with 0 by lia.
    reflexivity. }
  unfold binary_round_aux. rewrite Hshr. simpl. rewrite Hshr. simpl.
  change (PyFloat.emax - PyFloat.prec) with 971.
  now rewrite (proj2 (Z.leb_le ez 971)) by lia.
Qed.

Lemma binary_round_small sx p :
  Zpos p < 2 ^ 53 ->
  exists m e, binary_round PyFloat.prec PyFloat.emax sx p 0 = S754_finite sx m e.
Proof.
  intros H. pose proof (digits2_small p H) as Hd.
  unfold binary_round, shl_align, fexp, emin, PyFloat.prec, PyFloat.emax.
  replace (Z.max (Zpos (digits2_pos p) + 0 - 53) (3 - 1024 - 53) - 0)
    with (Zpos (digits2_pos p) - 53) by lia.
  destruct (Zpos (digits2_pos p) - 53) as [|d|d] eqn:E; [| lia |].
  - eexists _, _. apply (binary_round_aux_exact sx p 0); lia.
  - eexists _, _.
    apply (binary_round_aux_exact sx (Pos.iter xO p d)
             (Z.max (Zpos (digits2_pos p) + 0 - 53) (3 - 1024 - 53))).
    + rewrite digits2_iter. lia.
    + lia.
Qed.

(** An integer below 2^53 in absolute value becomes a finite double; only
    0 becomes 0.0. *)
Lemma of_int_small n :
  Z.abs n < 2 ^ 53 ->
  PyFloat.is_infinite (PyFloat.of_int n) = false
  /\ (n <> 0 -> PyFloat.is_zero (PyFloat.of_int n) = false).
Proof.
  intros H. unfold PyFloat.of_int, binary_normalize.
  destruct n as [|p|p].
  - split; [reflexivity | congruence].
  - destruct (binary_round_small false p) as (m & e & ->); [lia|].
    split; reflexivity.
  - destruct (binary_round_small true p) as (m & e & ->); [lia|].
    split; reflexivity.
Qed.

End DoubleFacts.

(* ================================================================== *)
(** * Facts about hybrid retrieval *)
(* ================================================================== *)

(** ** C7 *)

(** C7, as the code has it.  The lexical retriever on its own raises the
    "index not initialized" error for every query issued before
    [build_index].  Hybrid retrieval tests the flag first: with the index
    not built it does not call the lexical retriever and fuses the vector
    candidates with an empty lexical list. *)
Theorem C7_lexical_index_not_built :
  forall get_scores argsort vector_retrieve union_order,
    (forall self query top_k,
       Hybrid._is_initialized self = false ->
       Hybrid.bm25_retrieve get_scores argsort self query top_k
       = Hybrid.Raise Hybrid.not_initialized)
    /\ (forall self query top_k judgment_id,
          Hybrid._is_initialized (Hybrid.bm25_retriever self) = false ->
          Hybrid.retrieve get_scores argsort vector_retrieve union_order
                          self query top_k judgment_id
          = Hybrid.bind
              (vector_retrieve query (top_k * 5)%Z judgment_id)
              (fun vector_results =>
                 Hybrid._reciprocal_rank_fusion
                   union_order (Hybrid.rrf_k self) [] vector_results top_k)).
Proof.
  intros get_scores argsort vector_retrieve union_order. split.
  - intros self query top_k H. unfold Hybrid.bm25_retrieve. now rewrite H.
  - intros self query top_k jid H. unfold Hybrid.retrieve. now rewrite H.
Qed.

(** A hybrid retriever as its constructor leaves it: the lexical index
    is not built. *)
Definition fresh_hybrid : Hybrid.HybridRetriever :=
  Hybrid.mkHybrid 60 (Hybrid.new_bm25 (15 # 10) (75 # 100)).

(** A vector store that answers every query with chunk 7. *)
Definition one_hit : string -> Z -> option Z -> Hybrid.result (list Hybrid.candidate) :=
  fun _ _ _ => Hybrid.Ok [(7%Z, (9 # 10)%Q)].

(** The set order that yields keys in the order of their first
    insertion.  On the sets [{8} | {1}] of the example below CPython
    yields 8 and then 1 as well. *)
Definition first_seen (a b : list Z) : list Z := nodup Z.eq_dec (a ++ b).

(** The double [1.0 / 61], 0.01639344262295082. *)
Definition one_61st : PyFloat.float := S754_finite false 4725088133634619 (-58).

(** C7, counterexample to the claim as stated.  With the lexical index
    not built, hybrid retrieval raises nothing: it returns the fusion of
    the vector candidates with an empty lexical list. *)
Lemma C7_counterexample_hybrid_returns_normally :
  Hybrid._is_initialized (Hybrid.bm25_retriever fresh_hybrid) = false
  /\ Hybrid.retrieve (fun _ _ _ _ => []) (fun _ => []) one_hit first_seen
                     fresh_hybrid "murder" 3 None
     = Hybrid.Ok [(7%Z, one_61st)].
Proof.
  split; vm_compute; reflexivity.
Qed.

(** C7 at the fresh retriever. *)
Lemma C7_witness :
  Hybrid.bm25_retrieve (fun _ _ _ _ => []) (fun _ => [])
                       (Hybrid.bm25_retriever fresh_hybrid) "murder" 3
  = Hybrid.Raise Hybrid.not_initialized.
Proof.
  apply (proj1 (C7_lexical_index_not_built
                  (fun _ _ _ _ => []) (fun _ => []) one_hit first_seen)).
  reflexivity.
Defined.

(** ** C3 *)

Lemma for_each_fst {A B : Type} (f : A -> Hybrid.result (A * B)) l out :
  (forall a b, f a = Hybrid.Ok b -> fst b = a) ->
  Hybrid.for_each f l = Hybrid.Ok out -> map fst out = l.
Proof.
  intros Hf. revert out. induction l as [|a l IH]; simpl; intros out H.
  - injection H as <-. reflexivity.
  - destruct (f a) as [b|e] eqn:Ea; [|discriminate]. simpl in H.
    destruct (Hybrid.for_each f l) as [bs|e] eqn:El; [|discriminate].
    simpl in H. injection H as <-. simpl.
    now rewrite (Hf _ _ Ea), (IH bs eq_refl).
Qed.

Lemma rrf_score_fst bm25_ranks vector_ranks rrf_k id c :
  Hybrid.rrf_score bm25_ranks vector_ranks rrf_k id = Hybrid.Ok c -> fst c = id.
Proof.
  unfold Hybrid.rrf_score.
  destruct (Hybrid.add_rank bm25_ranks rrf_k id PyFloat.zero) as [s1|];
    [|discriminate].
  simpl. destruct (Hybrid.add_rank vector_ranks rrf_k id s1) as [s2|];
    [|discriminate].
  simpl. now intros [= <-].
Qed.

(** C3, as the code has it.  The fusion step sorts by score alone, with
    a stable sort: two chunks whose scores are equal doubles leave it in
    the order in which the set of chunk ids yielded them.  The chunk ids
    are not compared. *)
Theorem C3_equal_scores_keep_set_order :
  forall union_order rrf_k bm25_results vector_results top_k out x y,
    Hybrid._reciprocal_rank_fusion union_order rrf_k
      bm25_results vector_results top_k = Hybrid.Ok out ->
    before x y out ->
    PyFloat.eqb (snd x) (snd y) = true ->
    before (fst x) (fst y)
           (union_order (Hybrid.keys (Hybrid.ranks_of bm25_results))
                        (Hybrid.keys (Hybrid.ranks_of vector_results))).
Proof.
  intros union_order rrf_k bm vec top_k out x y H Hb Heq.
  unfold Hybrid._reciprocal_rank_fusion in H.
  destruct (Hybrid.for_each _ _) as [scores|e] eqn:Es; [|discriminate].
  simpl in H. injection H as <-.
  apply for_each_fst in Es; [|intros a c; apply rrf_score_fst].
  rewrite <- Es. apply before_map.
  apply before_prefix in Hb.
  eapply sorted_stable; [exact Hb|].
  now apply eqb_not_ltb.
Qed.

(** C3, counterexample to the claim as stated.  Chunk 8 is the only
    lexical candidate and chunk 1 the only vector candidate; both score
    the double [1.0 / 61], and the result lists the greater id first. *)
Lemma C3_counterexample_greater_id_first :
  Hybrid._reciprocal_rank_fusion first_seen 60
    [(8%Z, (5 # 10)%Q)] [(1%Z, (9 # 10)%Q)] 10
  = Hybrid.Ok [(8%Z, one_61st); (1%Z, one_61st)]
  /\ (1 < 8)%Z.
Proof.
  split; [vm_compute; reflexivity | lia].
Qed.

(** C3 at the two candidates of the counterexample. *)
Lemma C3_witness :
  before 8%Z 1%Z
         (first_seen (Hybrid.keys (Hybrid.ranks_of [(8%Z, (5 # 10)%Q)]))
                     (Hybrid.keys (Hybrid.ranks_of [(1%Z, (9 # 10)%Q)]))).
Proof.
  apply (C3_equal_scores_keep_set_order first_seen 60
           [(8%Z, (5 # 10)%Q)] [(1%Z, (9 # 10)%Q)] 10
           [(8%Z, one_61st); (1%Z, one_61st)] (8%Z, one_61st) (1%Z, one_61st)).
  - vm_compute. reflexivity.
  - apply before_here. left. reflexivity.
  - vm_compute. reflexivity.
Defined.

(** ** C2 *)

(** The rank of a chunk in a candidate list, in the words of the
    specification: its position in the list, counted from 1. *)
Fixpoint index_from (id : Z) (ids : list Z) (r : Z) : option Z :=
  match ids with
  | [] => None
  | c :: rest => if (c =? id)%Z then Some r else index_from id rest (r + 1)
  end.

Definition position (id : Z) (results : list Hybrid.candidate) : option Z :=
  index_from id (map fst results) 1.

(** The double [1.0 / (r + k)]. *)
Definition recip (k r : Z) : PyFloat.float :=
  PyFloat.div PyFloat.one (PyFloat.of_int (r + k)).

(** What one retriever adds to the fused score of a chunk: the double
    [1.0 / (rank + k)] when its list holds the chunk, nothing
    otherwise. *)
Definition add_contribution (k : Z) (results : list Hybrid.candidate) (id : Z)
    (score : PyFloat.float) : PyFloat.float :=
  match position id results with
  | Some r => PyFloat.add score (recip k r)
  | None => score
  end.

(** The fused score in the words of the specification, in double
    arithmetic: from 0.0, the lexical contribution and then the vector
    contribution are added. *)
Definition rrf_spec (k : Z) (bm25_results vector_results : list Hybrid.candidate)
    (id : Z) : PyFloat.float :=
  add_contribution k vector_results id
    (add_contribution k bm25_results id PyFloat.zero).

(** The score of a chunk that both lists hold at rank [r]. *)
Definition twice (k r : Z) : PyFloat.float :=
  PyFloat.add (recip k r) (recip k r).

(** The scores [score 1], ..., [score n] of consecutive ranks differ as
    doubles, each being less than the one before. *)
Definition strictly_decreasing (score : Z -> PyFloat.float) (n : nat) : bool :=
  forallb (fun r => PyFloat.ltb (score (Z.of_nat r + 1)%Z) (score (Z.of_nat r)))
          (seq 1 (n - 1)).

(** A Python set yields each of its elements once. *)
Definition set_like (union_order : list Z -> list Z -> list Z) : Prop :=
  forall a b,
    NoDup (union_order a b)
    /\ forall x, In x (union_order a b) <-> In x a \/ In x b.

Lemma dict_get_set {V : Type} (d : list (Z * V)) key value key' :
  Hybrid.dict_get (Hybrid.dict_set d key value) key'
  = if (key =? key')%Z then Some value else Hybrid.dict_get d key'.
Proof.
  induction d as [|[k v] d IH]; simpl.
  - reflexivity.
  - destruct (k =? key)%Z eqn:E; simpl.
    + apply Z.eqb_eq in E. subst k. destruct (key =? key')%Z; reflexivity.
    + destruct (k =? key')%Z eqn:E'; [|exact IH].
      apply Z.eqb_eq in E'. subst k. now rewrite Z.eqb_sym, E.
Qed.

Lemma keys_dict_set {V : Type} (d : list (Z * V)) key value x :
  In x (Hybrid.keys (Hybrid.dict_set d key value))
  <-> x = key \/ In x (Hybrid.keys d).
Proof.
  unfold Hybrid.keys. induction d as [|[k v] d IH]; simpl.
  - split; intros [H|H]; auto.
  - destruct (k =? key)%Z eqn:E; simpl.
    + apply Z.eqb_eq in E. subst k. split; intros H; [tauto|].
      destruct H as [->|H]; auto.
    + rewrite IH. tauto.
Qed.

Lemma index_from_bound id ids : forall r p,
  index_from id ids r = Some p -> (r <= p)%Z.
Proof.
  induction ids as [|c ids IH]; simpl; intros r p H; [discriminate|].
  destruct (c =? id)%Z.
  - injection H as <-. lia.
  - apply IH in H. lia.
Qed.

Lemma index_from_None id ids r :
  index_from id ids r = None <-> ~ In id ids.
Proof.
  revert r. induction ids as [|c ids IH]; simpl; intros r.
  - tauto.
  - destruct (c =? id)%Z eqn:E.
    + apply Z.eqb_eq in E. split; [discriminate | intros H; exfalso; auto].
    + apply Z.eqb_neq in E. rewrite IH. tauto.
Qed.

Lemma index_from_In id ids r :
  In id ids -> exists p, index_from id ids r = Some p.
Proof.
  intros H. destruct (index_from id ids r) as [p|] eqn:E; [eauto|].
  now apply index_from_None in E.
Qed.

Lemma index_from_inj ids : forall r x y p,
  index_from x ids r = Some p -> index_from y ids r = Some p -> x = y.
Proof.
  induction ids as [|c ids IH]; simpl; intros r x y p Hx Hy; [discriminate|].
  destruct (c =? x)%Z eqn:Ex, (c =? y)%Z eqn:Ey.
  - apply Z.eqb_eq in Ex, Ey. congruence.
  - injection Hx as <-. apply index_from_bound in Hy. lia.
  - injection Hy as <-. apply index_from_bound in Hx. lia.
  - eapply IH; eassumption.
Qed.

(** The dictionary built by the enumeration maps a chunk id to its
    position when the ids of the list are distinct. *)
Lemma rank_loop_get results : forall r d id,
  NoDup (map fst results) ->
  Hybrid.dict_get (Hybrid.rank_loop results r d) id
  = match index_from id (map fst results) r with
    | Some p => Some p
    | None => Hybrid.dict_get d id
    end.
Proof.
  induction results as [|[c s] rest IH]; simpl; intros r d id Hnd;
    [reflexivity|].
  inversion Hnd as [|? ? Hc Hnd']; subst.
  rewrite IH by exact Hnd'. rewrite dict_get_set.
  destruct (c =? id)%Z eqn:E.
  - apply Z.eqb_eq in E. subst c.
    now rewrite (proj2 (index_from_None id (map fst rest) (r + 1)) Hc).
  - reflexivity.
Qed.

Lemma ranks_of_get results id :
  NoDup (map fst results) ->
  Hybrid.dict_get (Hybrid.ranks_of results) id = position id results.
Proof.
  intros H. unfold Hybrid.ranks_of, position. rewrite rank_loop_get by exact H.
  now destruct (index_from id (map fst results) 1).
Qed.

Lemma rank_loop_keys results : forall r (d : list (Z * Z)) x,
  In x (Hybrid.keys (Hybrid.rank_loop results r d))
  <-> In x (Hybrid.keys d) \/ In x (map fst results).
Proof.
  induction results as [|[c s] rest IH]; simpl; intros r d x.
  - tauto.
  - rewrite IH, keys_dict_set. split; intros H.
    + destruct H as [[->|H]|H]; auto.
    + destruct H as [H|[->|H]]; auto.
Qed.

Lemma ranks_of_keys results x :
  In x (Hybrid.keys (Hybrid.ranks_of results)) <-> In x (map fst results).
Proof.
  unfold Hybrid.ranks_of. rewrite rank_loop_keys. simpl. tauto.
Qed.

Lemma index_from_upper id ids : forall r p,
  index_from id ids r = Some p -> (p < r + Z.of_nat (List.length ids))%Z.
Proof.
  induction ids as [|c ids IH]; simpl; intros r p H; [discriminate|].
  destruct (c =? id)%Z.
  - injection H as <-. lia.
  - apply IH in H. lia.
Qed.

Lemma position_range id results r :
  position id results = Some r ->
  (1 <= r <= Z.of_nat (List.length results))%Z.
Proof.
  unfold position. intros H.
  pose proof (index_from_bound _ _ _ _ H).
  pose proof (index_from_upper _ _ _ _ H) as Hu.
  rewrite length_map in Hu. unfold Hybrid.candidate in *. lia.
Qed.

(** Within the range where every integer is a double, the division is
    carried out and its result is a positive double or 0.0. *)
Lemma reciprocal_ok r k :
  (0 < r + k < 2 ^ 53)%Z ->
  Hybrid.reciprocal r k = Hybrid.Ok (recip k r) /\ plus_signed (recip k r).
Proof.
  intros H. unfold Hybrid.reciprocal, recip. cbv zeta.
  destruct (of_int_small (r + k)%Z) as [Hinf Hz]; [lia|].
  rewrite Hinf, Hz by lia. split; [reflexivity|].
  apply div_one_plus_signed; [apply of_int_plus_signed; lia | apply Hz; lia].
Qed.

Lemma add_rank_ok results k id score :
  (0 <= k)%Z ->
  (k + Z.of_nat (List.length results) < 2 ^ 53)%Z ->
  NoDup (map fst results) ->
  plus_signed score ->
  Hybrid.add_rank (Hybrid.ranks_of results) k id score
  = Hybrid.Ok (add_contribution k results id score)
  /\ plus_signed (add_contribution k results id score).
Proof.
  intros Hk Hlen Hnd Hs. unfold Hybrid.add_rank, add_contribution.
  rewrite ranks_of_get by exact Hnd.
  destruct (position id results) as [r|] eqn:E; [|auto].
  apply position_range in E. unfold Hybrid.candidate in *.
  destruct (reciprocal_ok r k) as [-> Hr]; [lia|].
  split; [reflexivity | now apply add_plus_signed].
Qed.

Lemma rrf_score_ok bm vec k id :
  (0 <= k)%Z ->
  (k + Z.of_nat (List.length bm) < 2 ^ 53)%Z ->
  (k + Z.of_nat (List.length vec) < 2 ^ 53)%Z ->
  NoDup (map fst bm) -> NoDup (map fst vec) ->
  Hybrid.rrf_score (Hybrid.ranks_of bm) (Hybrid.ranks_of vec) k id
  = Hybrid.Ok (id, rrf_spec k bm vec id)
  /\ plus_signed (rrf_spec k bm vec id).
Proof.
  intros Hk Hlb Hlv Hb Hv. unfold Hybrid.rrf_score, rrf_spec.
  destruct (add_rank_ok bm k id PyFloat.zero Hk Hlb Hb eq_refl) as [-> H1].
  cbn [Hybrid.bind].
  destruct (add_rank_ok vec k id _ Hk Hlv Hv H1) as [-> H2].
  cbn [Hybrid.bind]. auto.
Qed.

Lemma for_each_scores bm vec k ids :
  (0 <= k)%Z ->
  (k + Z.of_nat (List.length bm) < 2 ^ 53)%Z ->
  (k + Z.of_nat (List.length vec) < 2 ^ 53)%Z ->
  NoDup (map fst bm) -> NoDup (map fst vec) ->
  Hybrid.for_each
    (Hybrid.rrf_score (Hybrid.ranks_of bm) (Hybrid.ranks_of vec) k) ids
  = Hybrid.Ok (map (fun id => (id, rrf_spec k bm vec id)) ids).
Proof.
  intros Hk Hlb Hlv Hb Hv. induction ids as [|id ids IH]; [reflexivity|].
  simpl. rewrite (proj1 (rrf_score_ok bm vec k id Hk Hlb Hlv Hb Hv)).
  cbn [Hybrid.bind]. rewrite IH. reflexivity.
Qed.

Lemma strongly_sorted_before {A : Type} (R : A -> A -> Prop) l x y :
  StronglySorted R l -> before x y l -> R x y.
Proof.
  intros Hs Hb. induction Hb as [l Hy|z l Hb IH].
  - apply StronglySorted_inv in Hs as [_ Hall].
    rewrite Forall_forall in Hall. auto.
  - apply StronglySorted_inv in Hs as [Hs _]. auto.
Qed.

Lemma before_map_inv {A B : Type} (f : A -> B) a b l :
  before a b (map f l) ->
  exists x y, before x y l /\ f x = a /\ f y = b.
Proof.
  induction l as [|h t IH]; simpl; intros H.
  - now apply before_nil in H.
  - apply before_cons_iff in H as [[-> Hb]|H].
    + apply in_map_iff in Hb as (y & <- & Hy).
      exists h, y. split; [now apply before_here | auto].
    + destruct (IH H) as (x & y & Hb & Hx & Hy).
      exists x, y. split; [now apply before_next | auto].
Qed.

Lemma NoDup_before_neq {A : Type} (l : list A) x y :
  NoDup l -> before x y l -> x <> y.
Proof.
  intros Hnd Hb. induction Hb as [l Hy|z l Hb IH].
  - inversion Hnd; subst. congruence.
  - inversion Hnd; subst. auto.
Qed.

(** A rearrangement of a duplicate-free list that respects the positions
    of its elements is the list itself. *)
Lemma ordered_by_index_eq l : forall m r,
  NoDup l ->
  Permutation m l ->
  (forall x y, before x y m ->
     exists p q,
       index_from x l r = Some p /\ index_from y l r = Some q /\ (p < q)%Z) ->
  m = l.
Proof.
  induction l as [|a l IH]; intros m r Hnd Hperm Hord.
  - apply Permutation_sym in Hperm. now apply Permutation_nil in Hperm.
  - assert (Hndm : NoDup m).
    { eapply Permutation_NoDup; [symmetry; exact Hperm | exact Hnd]. }
    assert (Ha : In a m).
    { eapply Permutation_in; [symmetry; exact Hperm | now left]. }
    destruct m as [|h m]; [destruct Ha|].
    assert (Hh : h = a).
    { destruct Ha as [E|Ha]; [exact E|]. exfalso.
      destruct (Hord h a (before_here _ _ _ Ha)) as (p & q & Hp & Hq & Hlt).
      simpl in Hp, Hq. rewrite Z.eqb_refl in Hq. injection Hq as <-.
      destruct (a =? h)%Z; [injection Hp as <-; lia|].
      apply index_from_bound in Hp. lia. }
    subst h. f_equal.
    inversion Hnd as [|? ? Hal Hnd']; subst.
    inversion Hndm as [|? ? Ham Hndm']; subst.
    apply (IH m (r + 1)%Z Hnd'); [eapply Permutation_cons_inv, Hperm|].
    intros x y Hb.
    destruct (Hord x y (before_next _ _ _ _ Hb)) as (p & q & Hp & Hq & Hlt).
    destruct (before_In _ _ _ Hb) as [Hx Hy].
    simpl in Hp, Hq.
    destruct (a =? x)%Z eqn:Ex; [apply Z.eqb_eq in Ex; congruence|].
    destruct (a =? y)%Z eqn:Ey; [apply Z.eqb_eq in Ey; congruence|].
    eauto.
Qed.

(** The sort orders every list of elements on which "may precede" is
    transitive. *)
Section SortOn.
Context {A : Type}.
Variable lt : A -> A -> bool.
Variable P : A -> Prop.
Variable le : A -> A -> Prop.
Hypothesis le_trans :
  forall a b c, P a -> P b -> P c -> le a b -> le b c -> le a c.
Hypothesis lt_le : forall a b, lt a b = true -> le a b.
Hypothesis not_lt_le : forall a b, lt a b = false -> le b a.

Lemma insert_sorted_on x l :
  P x -> Forall P l ->
  StronglySorted le l -> StronglySorted le (Py.insert lt x l).
Proof.
  intros Hx Hl Hs. induction Hs as [|y l Hs IH Hy]; simpl;
    [repeat constructor|].
  inversion Hl as [|? ? Py Pl]; subst.
  destruct (lt y x) eqn:E.
  - constructor; [now apply IH|].
    apply Forall_forall. intros z Hz.
    apply (Permutation_in _ (insert_perm lt x l)) in Hz.
    destruct Hz as [<-|Hz]; [now apply lt_le|].
    revert z Hz. now apply Forall_forall.
  - constructor; [now constructor|].
    constructor; [now apply not_lt_le|].
    apply Forall_forall. intros z Hz.
    apply le_trans with y; auto.
    + rewrite Forall_forall in Pl. auto.
    + rewrite Forall_forall in Hy. auto.
Qed.

Lemma sorted_sorted_on l : Forall P l -> StronglySorted le (Py.sorted lt l).
Proof.
  induction l as [|x l IH]; simpl; intros H; [constructor|].
  inversion H as [|? ? Hx Hl]; subst. apply insert_sorted_on.
  - exact Hx.
  - apply Forall_forall. intros z Hz. apply (proj1 (sorted_In lt l z)) in Hz.
    rewrite Forall_forall in Hl. auto.
  - apply IH. exact Hl.
Qed.

End SortOn.

(** What the slice [l[:n]] keeps. *)
Lemma prefix_spec {A : Type} (l : list A) n :
  exists dropped,
    l = Py.prefix l n ++ dropped
    /\ ((0 <= n)%Z ->
        List.length (Py.prefix l n) = Nat.min (Z.to_nat n) (List.length l))
    /\ ((n < 0)%Z ->
        List.length (Py.prefix l n) = List.length l - Z.to_nat (- n)).
Proof.
  unfold Py.prefix. destruct (n <? 0)%Z eqn:E.
  - apply Z.ltb_lt in E.
    exists (skipn (Z.to_nat (Z.of_nat (List.length l) + n)) l).
    split; [symmetry; apply firstn_skipn|]. split; [lia|].
    intros _. rewrite length_firstn. lia.
  - apply Z.ltb_ge in E. exists (skipn (Z.to_nat n) l).
    split; [symmetry; apply firstn_skipn|]. split; [|lia].
    intros _. apply length_firstn.
Qed.

(** Scores that decrease from each rank to the next decrease from each
    rank to every later one. *)
Lemma strictly_decreasing_pairs score n p q :
  strictly_decreasing score n = true ->
  (1 <= p)%Z -> (p < q)%Z -> (q <= Z.of_nat n)%Z ->
  PyFloat.ltb (score q) (score p) = true.
Proof.
  unfold strictly_decreasing. rewrite forallb_forall. intros Hall Hp Hpq Hq.
  assert (Hstep : forall r, (1 <= r)%Z -> (r < Z.of_nat n)%Z ->
                            PyFloat.ltb (score (r + 1)%Z) (score r) = true).
  { intros r H1 H2. specialize (Hall (Z.to_nat r)).
    rewrite Z2Nat.id in Hall by lia. apply Hall. apply in_seq. lia. }
  assert (Hgen : forall d, (p + Z.of_nat d + 1 <= Z.of_nat n)%Z ->
                 PyFloat.ltb (score (p + Z.of_nat d + 1)%Z) (score p) = true).
  { induction d as [|d IH]; intros Hd.
    - rewrite Z.add_0_r. apply Hstep; lia.
    - apply ltb_trans with (score (p + Z.of_nat d + 1)%Z).
      + replace (p + Z.of_nat (S d) + 1)%Z with ((p + Z.of_nat d + 1) + 1)%Z by lia.
        apply Hstep; lia.
      + apply IH. lia. }
  specialize (Hgen (Z.to_nat (q - p - 1))).
  replace (p + Z.of_nat (Z.to_nat (q - p - 1)) + 1)%Z with q in Hgen by lia.
  apply Hgen. lia.
Qed.

(** A list of fused results that is sorted by scores which decrease
    strictly along the ranks of a candidate list, and holds the ids of
    that list once each, holds them in the order of that list. *)
Lemma sorted_by_decreasing_scores score (results : list Hybrid.candidate)
    (fused : list Hybrid.fused) :
  NoDup (map fst results) ->
  NoDup (map fst fused) ->
  (forall id, In id (map fst fused) <-> In id (map fst results)) ->
  (forall id s r, In (id, s) fused -> position id results = Some r ->
                  s = score r) ->
  StronglySorted (fun x y => PyFloat.ltb (snd x) (snd y) = false) fused ->
  strictly_decreasing score (List.length results) = true ->
  map fst fused = map fst results.
Proof.
  intros Hr Hf Hmem Hsc Hsorted Hdec.
  apply (ordered_by_index_eq (map fst results) (map fst fused) 1 Hr).
  - apply NoDup_Permutation; [exact Hf | exact Hr | exact Hmem].
  - intros x y Hxy.
    assert (Hne := NoDup_before_neq _ _ _ Hf Hxy).
    apply before_map_inv in Hxy as ([x' sx] & [y' sy] & Hxy & Ex & Ey).
    simpl in Ex, Ey. subst x' y'.
    destruct (before_In _ _ _ Hxy) as [Hx Hy].
    assert (Hle := strongly_sorted_before _ _ _ _ Hsorted Hxy).
    simpl in Hle.
    destruct (index_from_In x (map fst results) 1) as (p & Hp).
    { apply Hmem. now apply (in_map fst) in Hx. }
    destruct (index_from_In y (map fst results) 1) as (q & Hq).
    { apply Hmem. now apply (in_map fst) in Hy. }
    exists p, q. repeat split; [exact Hp | exact Hq|].
    rewrite (Hsc x sx p Hx Hp), (Hsc y sy q Hy Hq) in Hle.
    pose proof (position_range _ _ _ Hp) as Rp.
    pose proof (position_range _ _ _ Hq) as Rq.
    unfold Hybrid.candidate in *.
    destruct (Z.lt_trichotomy p q) as [Hlt|[->|Hgt]]; [exact Hlt| |].
    + exfalso. apply Hne. eapply index_from_inj; eassumption.
    + exfalso.
      rewrite (strictly_decreasing_pairs score _ q p Hdec) in Hle;
        [discriminate | lia | lia | lia].
Qed.

(** The fusion on lists within the range of the theorems below: the
    result is the slice of the sorted scores. *)
Lemma fusion_ok union_order k bm vec top_k :
  set_like union_order ->
  (0 <= k)%Z ->
  (k + Z.of_nat (List.length bm) < 2 ^ 53)%Z ->
  (k + Z.of_nat (List.length vec) < 2 ^ 53)%Z ->
  NoDup (map fst bm) -> NoDup (map fst vec) ->
  exists fused,
    Hybrid._reciprocal_rank_fusion union_order k bm vec top_k
    = Hybrid.Ok (Py.prefix fused top_k)
    /\ NoDup (map fst fused)
    /\ (forall id,
          In id (map fst fused) <-> In id (map fst bm) \/ In id (map fst vec))
    /\ (forall id s, In (id, s) fused -> s = rrf_spec k bm vec id)
    /\ StronglySorted (fun x y => PyFloat.ltb (snd x) (snd y) = false) fused.
Proof.
  intros Hset Hk Hlb Hlv Hb Hv.
  unfold Hybrid._reciprocal_rank_fusion.
  set (ids := union_order (Hybrid.keys (Hybrid.ranks_of bm))
                          (Hybrid.keys (Hybrid.ranks_of vec))).
  rewrite (for_each_scores bm vec k ids Hk Hlb Hlv Hb Hv).
  cbn [Hybrid.bind].
  set (scores := map (fun id => (id, rrf_spec k bm vec id)) ids).
  set (lt := fun x y : Hybrid.fused => PyFloat.ltb (snd y) (snd x)).
  set (fused := Py.sorted lt scores).
  assert (Hfst : map fst scores = ids).
  { unfold scores. rewrite map_map. simpl. apply map_id. }
  assert (Hperm : Permutation fused scores) by apply sorted_perm.
  assert (Hpids : Permutation (map fst fused) ids).
  { rewrite <- Hfst. now apply Permutation_map. }
  destruct (Hset (Hybrid.keys (Hybrid.ranks_of bm))
                 (Hybrid.keys (Hybrid.ranks_of vec))) as [Hnd Hin].
  fold ids in Hnd, Hin.
  assert (Hsc : forall id s, In (id, s) scores -> s = rrf_spec k bm vec id).
  { intros id s H. unfold scores in H.
    apply in_map_iff in H as (id' & [= -> <-] & _). reflexivity. }
  exists fused. split; [reflexivity|]. split.
  { eapply Permutation_NoDup; [symmetry; exact Hpids | exact Hnd]. }
  split.
  { intros id. rewrite <- (ranks_of_keys bm), <- (ranks_of_keys vec), <- Hin.
    split; apply Permutation_in; [|symmetry]; exact Hpids. }
  split.
  { intros id s H. apply Hsc. eapply Permutation_in; eassumption. }
  apply (sorted_sorted_on lt (fun c => not_nan (snd c))).
  - intros a b c Ha Hb' Hc. apply not_ltb_trans; assumption.
  - intros a b H. now apply ltb_asym.
  - intros a b H. exact H.
  - apply Forall_forall. intros [id s] H. simpl.
    rewrite (Hsc id s H). apply plus_signed_not_nan.
    apply (rrf_score_ok bm vec k id Hk Hlb Hlv Hb Hv).
Qed.


(** The set order that yields keys in the order of their first
    insertion. *)
Lemma first_seen_set_like : set_like first_seen.
Proof.
  intros a b. unfold first_seen. split.
  - apply NoDup_nodup.
  - intros x. rewrite nodup_In. apply in_app_iff.
Qed.



(* ================================================================== *)
(** * Facts about chunking *)
(* ================================================================== *)

(** The running total of the loop: the token counts of the parts of the
    current chunk, each part counted on its own. *)
Definition total (self : Chunking.LegalChunker) (parts : list string) : Z :=
  fold_right (fun p acc => (Chunking._count_tokens self p + acc)%Z) 0%Z parts.

(** A moment at which the loop closes a chunk: the parts of the current
    chunk and its start at that moment, and the sentence that made it
    close, which is the first sentence of the chunk after it. *)
Record Closing : Type := mkClosing {
  closed_parts : list string;
  closed_start : Z;
  next_sentence : string
}.

(** The closings of a run of the loop over [sentences] from the state
    [st], in their order: the loop's own test on the loop's own states. *)
Fixpoint closings (self : Chunking.LegalChunker) (ty : option string)
    (sentences : list string) (st : Chunking.LoopState) : list Closing :=
  match sentences with
  | [] => []
  | sentence :: rest =>
      (if Chunking.closes self st sentence
       then [mkClosing (Chunking.current_chunk st) (Chunking.current_start st)
                       sentence]
       else [])
      ++ closings self ty rest (Chunking.chunk_step self ty st sentence)
  end.

(** The chunk of a closing. *)
Definition closed_chunk (ty : option string) (cl : Closing) : Chunking.Chunk :=
  Chunking.make_chunk ty (closed_parts cl) (closed_start cl).

(** What the loop leaves in the current chunk after it closes a chunk
    with the given parts: the overlap text, unless it is empty. *)
Definition seed_after (self : Chunking.LegalChunker) (parts : list string)
    : list string :=
  if PyStr.nonempty (Chunking._get_overlap_text self parts)
  then [Chunking._get_overlap_text self parts] else [].

(** What the loop guarantees for the chunks it closes, the first of them
    begun with the parts [seed].  The parts of a closed chunk are [seed]
    followed by one or more consecutive sentences of the text; the
    sentence after them is the one that closed the chunk, and the token
    counts of the parts, each part counted on its own, together with the
    count of that sentence exceed [chunk_size]; without it they are
    within [chunk_size] unless the chunk holds a single sentence.  The
    next chunk is begun with the overlap text of this one. *)
Fixpoint follows_loop (self : Chunking.LegalChunker) (sentences : list string)
    (seed : list string) (closed : list Closing) : Prop :=
  match closed with
  | [] => True
  | cl :: rest =>
      (exists before_ seg after_,
         sentences = before_ ++ seg ++ next_sentence cl :: after_
         /\ closed_parts cl = seed ++ seg
         /\ seg <> []
         /\ ((total self (closed_parts cl) <= Chunking.chunk_size self)%Z
             \/ List.length seg = 1))
      /\ (total self (closed_parts cl)
          + Chunking._count_tokens self (next_sentence cl)
          > Chunking.chunk_size self)%Z
      /\ follows_loop self sentences (seed_after self (closed_parts cl)) rest
  end.

Lemma count_tokens_nonneg self s : (0 <= Chunking._count_tokens self s)%Z.
Proof.
  unfold Chunking._count_tokens. destruct (Chunking.tokenizer self).
  - lia.
  - apply Z.div_pos; lia.
Qed.

Lemma total_nonneg self parts : (0 <= total self parts)%Z.
Proof.
  induction parts as [|p parts IH]; simpl; [lia|].
  pose proof (count_tokens_nonneg self p). lia.
Qed.

Lemma total_app self a b :
  total self (a ++ b) = (total self a + total self b)%Z.
Proof. induction a as [|p a IH]; simpl; lia. Qed.

Lemma chunks_step self ty st s :
  Chunking.chunks (Chunking.chunk_step self ty st s)
  = Chunking.chunks st
    ++ map (closed_chunk ty)
           (if Chunking.closes self st s
            then [mkClosing (Chunking.current_chunk st)
                            (Chunking.current_start st) s]
            else []).
Proof.
  unfold Chunking.chunk_step. destruct (Chunking.closes self st s); simpl.
  - reflexivity.
  - now rewrite app_nil_r.
Qed.

(** The chunks that the loop has closed when it ends are the chunks of
    its closings. *)
Lemma chunks_closings self ty l : forall st,
  Chunking.chunks (fold_left (Chunking.chunk_step self ty) l st)
  = Chunking.chunks st ++ map (closed_chunk ty) (closings self ty l st).
Proof.
  induction l as [|s l IH]; intros st; simpl; [now rewrite app_nil_r|].
  now rewrite IH, chunks_step, map_app, app_assoc.
Qed.

Lemma seed_after_total self parts :
  Chunking._count_tokens self "" = 0%Z ->
  total self (seed_after self parts)
  = Chunking._count_tokens self (Chunking._get_overlap_text self parts).
Proof.
  intros Hempty. unfold seed_after.
  destruct (Chunking._get_overlap_text self parts) eqn:E; simpl.
  - now rewrite Hempty.
  - lia.
Qed.

Lemma closings_follow self ty sentences l :
  Chunking._count_tokens self "" = 0%Z ->
  forall st before_ seed seg,
    sentences = before_ ++ seg ++ l ->
    Chunking.current_chunk st = seed ++ seg ->
    (seg = [] -> seed = []) ->
    Chunking.current_tokens st = total self (Chunking.current_chunk st) ->
    ((total self (Chunking.current_chunk st) <= Chunking.chunk_size self)%Z
     \/ List.length seg <= 1) ->
    follows_loop self sentences seed (closings self ty l st).
Proof.
  intros Hempty.
  induction l as [|s l IH]; intros st before_ seed seg Hsent Hcur Hseg Htok Hfit;
    [exact I|].
  cbn [closings].
  destruct (Chunking.closes self st s) eqn:Hc.
  - unfold Chunking.closes in Hc. apply andb_true_iff in Hc as [Hgt Hne].
    apply Z.gtb_lt in Hgt.
    assert (Hseg' : seg <> []).
    { intros ->. rewrite (Hseg eq_refl) in Hcur. simpl in Hcur.
      rewrite Hcur in Hne. discriminate. }
    cbn [app follows_loop closed_parts next_sentence]. split; [|split].
    + exists before_, seg, l. split; [exact Hsent|]. split; [exact Hcur|].
      split; [exact Hseg'|].
      destruct Hfit as [Hfit|Hfit]; [now left | right].
      destruct seg as [|a [|b seg]]; simpl in *; [congruence | reflexivity | lia].
    + rewrite <- Htok. lia.
    + unfold Chunking.chunk_step.
      assert (Hc : Chunking.closes self st s = true).
      { unfold Chunking.closes. apply andb_true_iff. split; [|exact Hne].
        apply Z.gtb_lt. exact Hgt. }
      rewrite Hc.
      apply (IH _ (before_ ++ seg) (seed_after self (Chunking.current_chunk st))
                [s]).
      * rewrite Hsent, <- app_assoc. reflexivity.
      * cbn [Chunking.current_chunk Chunking.close_chunk]. reflexivity.
      * discriminate.
      * cbn [Chunking.current_chunk Chunking.current_tokens Chunking.close_chunk].
        fold (seed_after self (Chunking.current_chunk st)).
        rewrite total_app, seed_after_total by exact Hempty. simpl. lia.
      * right. simpl. lia.
  - cbn [app]. unfold Chunking.chunk_step. rewrite Hc.
    apply (IH _ before_ seed (seg ++ [s])).
    + rewrite Hsent, <- !app_assoc. reflexivity.
    + cbn [Chunking.current_chunk]. rewrite Hcur, <- app_assoc. reflexivity.
    + intros E. now apply app_eq_nil in E as [_ E].
    + cbn [Chunking.current_chunk Chunking.current_tokens].
      rewrite total_app, Htok. simpl. lia.
    + cbn [Chunking.current_chunk].
      unfold Chunking.closes in Hc. apply andb_false_iff in Hc as [Hle|He].
      * left. rewrite total_app. simpl.
        rewrite Z.gtb_ltb in Hle. apply Z.ltb_ge in Hle. lia.
      * right.
        destruct (Chunking.current_chunk st) eqn:E; [|discriminate].
        symmetry in Hcur. apply app_eq_nil in Hcur as [_ ->]. simpl. lia.
Qed.

Lemma trailing_min self ty st c :
  In c (Chunking.trailing self ty st) ->
  (Chunking.min_chunk_size self <= Chunking._count_tokens self (Chunking.text c))%Z.
Proof.
  unfold Chunking.trailing.
  destruct (Chunking.current_chunk st) as [|p parts]; [intros []|].
  destruct (_ >=? _)%Z eqn:E; [|intros []].
  intros [<-|[]]. simpl. rewrite Z.geb_leb in E. now apply Z.leb_le in E.
Qed.

Lemma chunk_from_sections self text c :
  In c (Chunking.chunk self text) ->
  exists t ty off, In c (Chunking._chunk_text self t ty off).
Proof.
  unfold Chunking.chunk.
  destruct (Chunking._detect_sections text) as [|s0 secs].
  - intros H. eauto.
  - intros H. apply in_flat_map in H as (sec & _ & H). eauto.
Qed.

(** ** C4 *)

(** C4, as the code has it.  [chunk] is made of the results of
    [_chunk_text] on the text or on its sections.  For a tokenizer that
    counts nothing in the empty string, [_chunk_text] returns the chunks
    that the loop closes, in their order, followed by the trailing chunk.
    A chunk that the loop closes is made of the overlap text of the chunk
    closed before it (when there is one and the overlap is not empty)
    followed by one or more consecutive sentences; the token counts of
    these parts, each counted on its own, sum to at most [chunk_size]
    unless the chunk holds a single sentence, and with the count of the
    sentence that follows they exceed [chunk_size].  [min_chunk_size] is
    checked for the trailing chunk only, which is present only with at
    least [min_chunk_size] tokens.  The token count of a closed chunk
    itself is bounded neither below by [min_chunk_size] nor above by
    [chunk_size]. *)
Theorem C4_closed_chunks_follow_running_total :
  forall self,
    Chunking._count_tokens self "" = 0%Z ->
    (forall text c,
       In c (Chunking.chunk self text) ->
       exists t ty off, In c (Chunking._chunk_text self t ty off))
    /\ (forall text ty off,
          Chunking._chunk_text self text ty off
          = map (closed_chunk ty)
                (closings self ty (Chunking._split_sentences text)
                          (Chunking.mkLoop [] [] 0 off))
            ++ Chunking.trailing self ty (Chunking.loop_end self text ty off)
          /\ follows_loop self (Chunking._split_sentences text) []
               (closings self ty (Chunking._split_sentences text)
                         (Chunking.mkLoop [] [] 0 off))
          /\ (forall c,
                In c (Chunking.trailing self ty
                        (Chunking.loop_end self text ty off)) ->
                (Chunking.min_chunk_size self
                 <= Chunking._count_tokens self (Chunking.text c))%Z)).
Proof.
  intros self Hempty. split; [intros text c; apply chunk_from_sections|].
  intros text ty off. split; [|split].
  - unfold Chunking._chunk_text, Chunking.loop_end. cbv zeta.
    now rewrite chunks_closings.
  - apply (closings_follow self ty _ _ Hempty _ [] [] []); simpl; auto.
  - intros c. apply trailing_min.
Qed.

(** [n] copies of the word [w], separated by blanks. *)
Fixpoint words_of (w : string) (n : nat) : string :=
  match n with
  | O => ""
  | S O => w
  | S n' => w ++ " " ++ words_of w n'
  end.

(** A sentence of 400 words: 520 tokens for the fallback count. *)
Definition long_sentence (w : string) : string := words_of w 400 ++ ".".

(** A one-word sentence followed by two sentences of 400 words. *)
Definition bounds_text : string :=
  "Hi. " ++ long_sentence "a" ++ " " ++ long_sentence "b".

(** C4, counterexample to the claim as stated.  With the default limits
    (100 and 512) and the fallback token count, [bounds_text] gives three
    chunks of one unlabelled section with 1, 520 and 520 tokens: the first
    is below [min_chunk_size] and the second above [chunk_size], and
    neither is the last. *)
Lemma C4_counterexample_inner_chunks_out_of_bounds :
  map (fun c =>
         (Chunking._count_tokens (Chunking.default_chunker None) (Chunking.text c),
          Chunking.section_type c))
      (Chunking.chunk (Chunking.default_chunker None) bounds_text)
  = [(1%Z, None); (520%Z, None); (520%Z, None)].
Proof. vm_compute. reflexivity. Qed.

(** C4 on [bounds_text]: the loop closes "Hi." before the first long
    sentence and that sentence before the second. *)
Lemma C4_witness :
  follows_loop (Chunking.default_chunker None)
    (Chunking._split_sentences bounds_text) []
    (closings (Chunking.default_chunker None) None
              (Chunking._split_sentences bounds_text)
              (Chunking.mkLoop [] [] 0 0)).
Proof.
  apply (proj1 (proj2 (proj2 (C4_closed_chunks_follow_running_total
                                (Chunking.default_chunker None) eq_refl)
                             bounds_text None 0%Z))).
Defined.

(** ** C5 *)

(** While the running total stays within [chunk_size] the loop closes
    nothing and gathers every sentence in the current chunk. *)
Lemma loop_no_close self ty l : forall st,
  Chunking.chunks st = [] ->
  Chunking.current_tokens st = total self (Chunking.current_chunk st) ->
  (total self (Chunking.current_chunk st ++ l) <= Chunking.chunk_size self)%Z ->
  fold_left (Chunking.chunk_step self ty) l st
  = Chunking.mkLoop [] (Chunking.current_chunk st ++ l)
                    (total self (Chunking.current_chunk st ++ l))
                    (Chunking.current_start st).
Proof.
  induction l as [|s l IH]; intros st Hch Htok Hfit.
  - simpl. rewrite app_nil_r, <- Htok, <- Hch. now destruct st.
  - simpl.
    assert (Hc : Chunking.closes self st s = false).
    { unfold Chunking.closes. apply andb_false_iff. left.
      rewrite Z.gtb_ltb. apply Z.ltb_ge.
      rewrite total_app in Hfit. simpl in Hfit.
      pose proof (total_nonneg self l). lia. }
    unfold Chunking.chunk_step at 2. rewrite Hc.
    rewrite IH; cbn [Chunking.chunks Chunking.current_chunk
                     Chunking.current_tokens Chunking.current_start].
    + now rewrite <- app_assoc.
    + exact Hch.
    + rewrite total_app, Htok. simpl. lia.
    + now rewrite <- app_assoc.
Qed.

(** C5, as the code has it.  [_chunk_text] drops the trailing chunk
    whenever its token count is below [min_chunk_size] and keeps it
    otherwise; there is no exception for a trailing chunk that is the only
    chunk.  In particular a text without section marker whose sentences
    fit in one chunk of fewer than [min_chunk_size] tokens yields no chunk
    at all. *)
Theorem C5_trailing_chunk_dropped_below_minimum :
  forall self,
    (forall text ty off,
       ((Chunking._count_tokens self
           (PyStr.join " "
              (Chunking.current_chunk (Chunking.loop_end self text ty off)))
         < Chunking.min_chunk_size self)%Z ->
        Chunking._chunk_text self text ty off
        = Chunking.chunks (Chunking.loop_end self text ty off))
       /\ (Chunking.current_chunk (Chunking.loop_end self text ty off) <> [] ->
           (Chunking.min_chunk_size self
            <= Chunking._count_tokens self
                 (PyStr.join " "
                    (Chunking.current_chunk (Chunking.loop_end self text ty off))))%Z ->
           Chunking._chunk_text self text ty off
           = Chunking.chunks (Chunking.loop_end self text ty off)
             ++ [Chunking.make_chunk ty
                   (Chunking.current_chunk (Chunking.loop_end self text ty off))
                   (Chunking.current_start (Chunking.loop_end self text ty off))]))
    /\ (forall text,
          Chunking._detect_sections text = [] ->
          (total self (Chunking._split_sentences text)
           <= Chunking.chunk_size self)%Z ->
          (Chunking._count_tokens self
             (PyStr.join " " (Chunking._split_sentences text))
           < Chunking.min_chunk_size self)%Z ->
          Chunking.chunk self text = []).
Proof.
  intros self. split.
  - intros text ty off. unfold Chunking._chunk_text, Chunking.trailing.
    set (st := Chunking.loop_end self text ty off).
    destruct (Chunking.current_chunk st) as [|p parts] eqn:E.
    + split; [intros _; apply app_nil_r | congruence].
    + split.
      * intros Hlt. rewrite Z.geb_leb.
        rewrite (proj2 (Z.leb_gt _ _) Hlt). apply app_nil_r.
      * intros _ Hge. rewrite Z.geb_leb.
        now rewrite (proj2 (Z.leb_le _ _) Hge).
  - intros text Hsec Hfit Hlt.
    unfold Chunking.chunk. rewrite Hsec.
    unfold Chunking._chunk_text, Chunking.loop_end.
    rewrite loop_no_close; [|reflexivity | reflexivity | exact Hfit].
    cbn [Chunking.chunks Chunking.current_chunk app].
    unfold Chunking.trailing. cbn [Chunking.current_chunk].
    destruct (Chunking._split_sentences text) as [|p parts]; [reflexivity|].
    rewrite Z.geb_leb. now rewrite (proj2 (Z.leb_gt _ _) Hlt).
Qed.

(** C5, counterexample to the claim as stated.  "Hello world." is one
    sentence of 2 tokens; the chunk made of it would be the only chunk,
    and it is dropped: the result is empty. *)
Lemma C5_counterexample_only_chunk_dropped :
  Chunking._split_sentences "Hello world." = ["Hello world."]
  /\ Chunking._count_tokens (Chunking.default_chunker None) "Hello world." = 2%Z
  /\ Chunking.chunk (Chunking.default_chunker None) "Hello world." = [].
Proof.
  split; [vm_compute; reflexivity|].
  split; vm_compute; reflexivity.
Qed.

(** C5 at the same text. *)
Lemma C5_witness :
  Chunking.chunk (Chunking.default_chunker None) "Hello world." = [].
Proof.
  apply (proj2 (C5_trailing_chunk_dropped_below_minimum
                  (Chunking.default_chunker None))).
  - vm_compute. reflexivity.
  - vm_compute. discriminate.
  - vm_compute. reflexivity.
Defined.

(* ================================================================== *)
(** * Further facts about the matcher *)
(* ================================================================== *)

(** The span of group 1 after a run: untouched, or inside the part of
    the text between the offsets [lo] and [hi]. *)
Definition group_within (g g' : option (nat * nat)) (lo hi : nat) : Prop :=
  g' = g \/ exists a b, g' = Some (a, b) /\ lo <= a /\ a <= b /\ b <= hi.

(** The offset and the remaining text move together. *)
Lemma rep_span ic k rest : forall lo hi prev pos g kont o,
  Re.rep ic k lo hi prev pos rest g kont = Some o ->
  exists p n s,
    kont p n s g = Some o
    /\ pos <= n /\ n + String.length s = pos + String.length rest.
Proof.
  induction rest as [|t rest IH]; intros lo hi prev pos g kont o H.
  - simpl in H. destruct lo; [|discriminate].
    exists prev, pos, EmptyString. auto.
  - cbn [Re.rep] in H.
    assert (Hstop :
      match lo with O => kont prev pos (String t rest) g | S _ => None end = Some o ->
      exists p n s, kont p n s g = Some o
                    /\ pos <= n
                    /\ n + String.length s = pos + String.length (String t rest)).
    { destruct lo; [|discriminate]. intros E.
      exists prev, pos, (String t rest). auto. }
    destruct (Re.more hi && Re.cls_match ic k t); [|now apply Hstop].
    destruct (Re.rep ic k (Nat.pred lo) (option_map Nat.pred hi)
                     (Some t) (S pos) rest g kont) as [o'|] eqn:E;
      [|now apply Hstop].
    injection H as ->.
    destruct (IH _ _ _ _ _ _ _ E) as (p & n & s & Hk & Hle & Hlen).
    exists p, n, s. simpl. repeat split; [exact Hk | lia | lia].
Qed.

Lemma group_within_trans g g1 g2 lo mid hi :
  lo <= mid -> mid <= hi ->
  group_within g g1 lo mid -> group_within g1 g2 mid hi ->
  group_within g g2 lo hi.
Proof.
  intros H1 H2 [->|(a & b & -> & Ha)] [->|(a' & b' & -> & Ha')].
  - now left.
  - right. exists a', b'. split; [reflexivity | lia].
  - right. exists a, b. split; [reflexivity | lia].
  - right. exists a', b'. split; [reflexivity | lia].
Qed.

Lemma run_span ic r : forall prev pos rest g kont o,
  Re.run ic r prev pos rest g kont = Some o ->
  exists p n s g',
    kont p n s g' = Some o
    /\ pos <= n
    /\ n + String.length s = pos + String.length rest
    /\ group_within g g' pos n.
Proof.
  induction r as [ | k | a IHa b IHb | a IHa b IHb | k lo hi | a IHa | | k ];
    intros prev pos rest g kont o H; cbn [Re.run] in *.
  - exists prev, pos, rest, g. repeat split; [exact H | lia | now left].
  - destruct rest as [|t rest]; [discriminate|].
    destruct (Re.cls_match ic k t); [|discriminate].
    exists (Some t), (S pos), rest, g. simpl.
    repeat split; [exact H | lia | lia | now left].
  - destruct (IHa _ _ _ _ _ _ H) as (p1 & n1 & s1 & g1 & H1 & Hle1 & Hlen1 & Hg1).
    destruct (IHb _ _ _ _ _ _ H1) as (p2 & n2 & s2 & g2 & H2 & Hle2 & Hlen2 & Hg2).
    exists p2, n2, s2, g2. repeat split; [exact H2 | lia | lia |].
    eapply group_within_trans; eassumption.
  - destruct (Re.run ic a prev pos rest g kont) as [o'|] eqn:E.
    + injection H as ->. eapply IHa, E.
    + eapply IHb, H.
  - destruct (rep_span _ _ _ _ _ _ _ _ _ _ H) as (p & n & s & Hk & Hle & Hlen).
    exists p, n, s, g. repeat split; [exact Hk | lia | lia | now left].
  - destruct (IHa _ _ _ _ _ _ H) as (p & n & s & g' & Hk & Hle & Hlen & _).
    exists p, n, s, (Some (pos, n)). repeat split; [exact Hk | lia | lia |].
    right. exists pos, n. split; [reflexivity | lia].
  - destruct (xorb _ _); [|discriminate].
    exists prev, pos, rest, g. repeat split; [exact H | lia | now left].
  - destruct prev as [t|]; [|discriminate].
    destruct (Re.cls_match ic k t); [|discriminate].
    exists (Some t), pos, rest, g. repeat split; [exact H | lia | now left].
Qed.

(** A match lies inside the text that was scanned, and so does its
    group. *)
Definition match_within (m : Re.rmatch) (lo hi : nat) : Prop :=
  lo <= Re.m_start m /\ Re.m_start m <= Re.m_end m /\ Re.m_end m <= hi
  /\ match Re.m_group1 m with
     | Some (a, b) => Re.m_start m <= a /\ a <= b /\ b <= Re.m_end m
     | None => True
     end.

Lemma scan_within ic r rest : forall prev pos skip m,
  In m (Re.scan ic r prev pos rest skip) ->
  match_within m pos (pos + String.length rest).
Proof.
  assert (Hhere : forall prev pos rest skip e g,
    match skip with
    | O => Re.run ic r prev pos rest None Re.accept
    | S _ => None
    end = Some (e, g) ->
    match_within (Re.mkMatch pos e g) pos (pos + String.length rest)).
  { intros prev pos rest' skip e g H. destruct skip; [|discriminate].
    destruct (run_span _ _ _ _ _ _ _ _ H)
      as (p & n & s & g' & Hk & Hle & Hlen & Hg).
    unfold Re.accept in Hk. injection Hk as -> ->.
    unfold match_within. simpl. repeat split; [lia | lia | lia |].
    destruct Hg as [->|(a & b & -> & Hab)]; [exact I | exact Hab]. }
  induction rest as [|t rest IH]; intros prev pos skip m Hin;
    cbn [Re.scan] in Hin.
  - destruct (match skip with O => _ | S _ => None end) as [[e g]|] eqn:E;
      [|destruct Hin].
    destruct Hin as [<-|[]]. eapply Hhere, E.
  - assert (Hnext : forall sk,
              In m (Re.scan ic r (Some t) (S pos) rest sk) ->
              match_within m pos (pos + String.length (String t rest))).
    { intros sk H. apply IH in H. unfold match_within in *. simpl. 
      destruct H as (H1 & H2 & H3 & H4). repeat split; [lia | lia | lia | exact H4]. }
    destruct (match skip with O => _ | S _ => None end) as [[e g]|] eqn:E.
    + destruct Hin as [<-|Hin]; [eapply Hhere, E | eapply Hnext, Hin].
    + eapply Hnext, Hin.
Qed.

Lemma finditer_within ic r text m :
  In m (Re.finditer ic r text) -> match_within m 0 (String.length text).
Proof. unfold Re.finditer. apply scan_within. Qed.

(* ================================================================== *)
(** * Further facts about entity extraction *)
(* ================================================================== *)

Lemma clip_of_nat s n :
  n <= String.length s -> PyStr.clip s (Z.of_nat n) = n.
Proof.
  intros H. unfold PyStr.clip, PyStr.len.
  destruct (Z.of_nat n <? 0)%Z eqn:E; [apply Z.ltb_lt in E; lia|].
  rewrite Z.min_l by lia. apply Nat2Z.id.
Qed.

Lemma slice_z_of_nat s a b :
  a <= String.length s -> b <= String.length s ->
  PyStr.slice_z s (Z.of_nat a) (Z.of_nat b) = PyStr.slice s a b.
Proof.
  intros Ha Hb. unfold PyStr.slice_z. now rewrite !clip_of_nat.
Qed.

(** How a candidate comes out of the scanners: from a section pattern,
    from a case-number pattern, or from one of the four scanners that keep
    the matched text. *)
Inductive scanned (text : string) (e : NER.Entity) : Prop :=
| scanned_section p act m :
    In (p, act) NER.section_patterns ->
    In m (Re.finditer true p text) ->
    e = NER.entity_of NER.LEGAL_SECTION (9 # 10)%Q
          (act ++ " Section " ++ Re.group1 text m)
          [("act", act); ("section_number", Re.group1 text m)] m ->
    scanned text e
| scanned_case p m :
    In p NER.case_number_patterns ->
    In m (Re.finditer true p text) ->
    e = NER.entity_of NER.CASE_NUMBER (95 # 100)%Q (Re.group1 text m)
          [("full_match", Re.group0 text m)] m ->
    scanned text e
| scanned_plain ic ty conf p m :
    In (ty, conf) [(NER.COURT, (9 # 10)%Q); (NER.STATUTE, (85 # 100)%Q);
                   (NER.LEGAL_TERM, (7 # 10)%Q); (NER.DATE, (8 # 10)%Q)] ->
    In m (Re.finditer ic p text) ->
    e = NER.entity_of ty conf (Re.group0 text m) [] m ->
    scanned text e.

Lemma scan_plain_scanned ic patterns ty conf text e :
  In (ty, conf) [(NER.COURT, (9 # 10)%Q); (NER.STATUTE, (85 # 100)%Q);
                 (NER.LEGAL_TERM, (7 # 10)%Q); (NER.DATE, (8 # 10)%Q)] ->
  In e (NER.scan_plain ic patterns ty conf text) -> scanned text e.
Proof.
  intros Hty Hin. unfold NER.scan_plain in Hin.
  apply in_flat_map in Hin as (p & _ & Hin).
  apply in_map_iff in Hin as (m & <- & Hm).
  eapply scanned_plain; [exact Hty | exact Hm | reflexivity].
Qed.

Lemma candidates_scanned text e :
  In e (NER.candidates text) -> scanned text e.
Proof.
  intros Hin. unfold NER.candidates in Hin.
  apply in_app_or in Hin as [Hin|Hin]; [|apply in_app_or in Hin as [Hin|Hin];
    [|apply in_app_or in Hin as [Hin|Hin]; [|apply in_app_or in Hin as [Hin|Hin];
    [|apply in_app_or in Hin as [Hin|Hin]]]]].
  - unfold NER._extract_sections in Hin.
    apply in_flat_map in Hin as ([p act] & Hp & Hin).
    apply in_map_iff in Hin as (m & <- & Hm).
    eapply scanned_section; [exact Hp | exact Hm | reflexivity].
  - unfold NER._extract_case_numbers in Hin.
    apply in_flat_map in Hin as (p & Hp & Hin).
    apply in_map_iff in Hin as (m & <- & Hm).
    assert (Hall : forallb NER.has_group NER.case_number_patterns = true)
      by reflexivity.
    rewrite forallb_forall in Hall. rewrite (Hall p Hp).
    eapply scanned_case; [exact Hp | exact Hm | reflexivity].
  - eapply scan_plain_scanned; [|exact Hin]. simpl. auto.
  - eapply scan_plain_scanned; [|exact Hin]. simpl. auto.
  - eapply scan_plain_scanned; [|exact Hin]. simpl. auto.
  - eapply scan_plain_scanned; [|exact Hin]. simpl. auto 6.
Qed.

Lemma extracted_scanned text e :
  In e (NER.extract_entities text) -> scanned text e.
Proof.
  intros H. apply candidates_scanned.
  unfold NER.extract_entities in H.
  now apply (proj1 (proj2 (remove_overlaps_sound _ (candidates_proper text)))).
Qed.

Lemma match_span text ic p m :
  In m (Re.finditer ic p text) ->
  (0 <= Z.of_nat (Re.m_start m))%Z
  /\ (Z.of_nat (Re.m_start m) <= Z.of_nat (Re.m_end m))%Z
  /\ (Z.of_nat (Re.m_end m) <= PyStr.len text)%Z
  /\ Re.group0 text m
     = PyStr.slice_z text (Z.of_nat (Re.m_start m)) (Z.of_nat (Re.m_end m)).
Proof.
  intros Hm. apply finditer_within in Hm.
  destruct Hm as (H0 & H1 & H2 & _). unfold PyStr.len.
  repeat split; try lia.
  unfold Re.group0. rewrite slice_z_of_nat by lia. reflexivity.
Qed.

(** ** The result is ordered and its spans are separated *)

Lemma start_sorted l :
  StronglySorted (fun a b => (NER.start a <= NER.start b)%Z)
                 (Py.sorted NER.start_lt l).
Proof.
  apply sorted_sorted.
  - intros a b c. lia.
  - intros a b H. apply Z.ltb_lt in H. lia.
  - intros a b H. apply Z.ltb_ge in H. exact H.
Qed.

Lemma remove_overlaps_separated l a b :
  Forall proper l ->
  before a b (NER._remove_overlaps l) ->
  (NER.start a < NER.end_ a)%Z
  /\ (NER.end_ a <= NER.start b)%Z
  /\ (NER.start b < NER.end_ b)%Z.
Proof.
  intros Hp Hb.
  destruct (remove_overlaps_sound _ Hp) as (Hdis & Hincl & _).
  destruct (before_In _ _ _ Hb) as [Ha Hb'].
  rewrite Forall_forall in Hp.
  assert (Pa := Hp a (Hincl a Ha)). assert (Pb := Hp b (Hincl b Hb')).
  assert (Hno := Hdis a b Hb).
  assert (Hle : (NER.start a <= NER.start b)%Z).
  { rewrite remove_overlaps_unfold in Hb.
    apply (strongly_sorted_before _ _ _ _ (start_sorted _) Hb). }
  unfold proper, overlapping in *. lia.
Qed.

(** X1.  The entities returned by [extract_entities] come in text order
    and do not touch: each is non-empty and ends at or before the start of
    every later one. *)
Theorem X1_entities_in_text_order :
  forall text a b,
    before a b (NER.extract_entities text) ->
    (NER.start a < NER.end_ a)%Z
    /\ (NER.end_ a <= NER.start b)%Z
    /\ (NER.start b < NER.end_ b)%Z.
Proof.
  intros text a b Hb. unfold NER.extract_entities in Hb.
  apply (remove_overlaps_separated (NER.candidates text)).
  - apply candidates_proper.
  - exact Hb.
Qed.

(** The section reference of [tie_text]. *)
Definition tie_section : NER.Entity :=
  NER.mkEntity "IPC Section 5H" NER.LEGAL_SECTION 0 14 (9 # 10)
               [("act", "IPC"); ("section_number", "5H")].

(** X1 on [tie_text]: the section reference ends before the legal term
    starts. *)
Lemma X1_witness :
  (NER.start tie_section < NER.end_ tie_section)%Z
  /\ (NER.end_ tie_section <= NER.start tie_term)%Z
  /\ (NER.start tie_term < NER.end_ tie_term)%Z.
Proof.
  apply (X1_entities_in_text_order tie_text tie_section tie_term).
  vm_compute. apply before_here. left. reflexivity.
Defined.

(** X2.  The span of every extracted entity is a non-empty range of
    offsets of the text. *)
Theorem X2_entity_span_within_text :
  forall text e,
    In e (NER.extract_entities text) ->
    (0 <= NER.start e)%Z
    /\ (NER.start e < NER.end_ e)%Z
    /\ (NER.end_ e <= PyStr.len text)%Z.
Proof.
  intros text e H.
  assert (Hp : proper e).
  { pose proof (candidates_proper text) as Hp. rewrite Forall_forall in Hp.
    apply Hp. unfold NER.extract_entities in H.
    now apply (proj1 (proj2 (remove_overlaps_sound _ (candidates_proper text)))). }
  apply extracted_scanned in H.
  destruct H as [p act m _ Hm ->|p m _ Hm ->|ic ty conf p m _ Hm ->];
    destruct (match_span _ _ _ _ Hm) as (H0 & _ & H2 & _);
    unfold proper in Hp; simpl in *; repeat split; lia.
Qed.

(** X2 at the mention of [bare_text]. *)
Lemma X2_witness :
  (0 <= NER.start bare_entity)%Z
  /\ (NER.start bare_entity < NER.end_ bare_entity)%Z
  /\ (NER.end_ bare_entity <= PyStr.len bare_text)%Z.
Proof.
  apply (X2_entity_span_within_text bare_text bare_entity).
  vm_compute. left. reflexivity.
Defined.

(** X3.  The scanners of courts, statutes, legal terms and dates record
    the matched text verbatim: the entity text is [text[start:end]].  The
    scanner of case numbers records it under the key [full_match]. *)
Theorem X3_matched_text_is_recorded :
  forall text e,
    In e (NER.extract_entities text) ->
    (In (NER.entity_type e) [NER.COURT; NER.STATUTE; NER.LEGAL_TERM; NER.DATE] ->
     NER.text e = PyStr.slice_z text (NER.start e) (NER.end_ e)
     /\ NER.metadata e = [])
    /\ (NER.entity_type e = NER.CASE_NUMBER ->
        NER.metadata e
        = [("full_match", PyStr.slice_z text (NER.start e) (NER.end_ e))]).
Proof.
  intros text e H. apply extracted_scanned in H.
  destruct H as [p act m _ Hm ->|p m _ Hm ->|ic ty conf p m Hty Hm ->].
  - split; [|discriminate]. simpl.
    intros [H|[H|[H|[H|[]]]]]; discriminate.
  - split.
    + simpl. intros [H|[H|[H|[H|[]]]]]; discriminate.
    + intros _. simpl.
      destruct (match_span _ _ _ _ Hm) as (_ & _ & _ & ->).
      reflexivity.
  - split.
    + intros _.
      destruct (match_span _ _ _ _ Hm) as (_ & _ & _ & E).
      simpl. now rewrite E.
    + simpl. intros ->.
      simpl in Hty. destruct Hty as [H|[H|[H|[H|[]]]]]; discriminate.
Qed.

(** X3 at the legal term of [tie_text]. *)
Lemma X3_witness :
  (In (NER.entity_type tie_term) [NER.COURT; NER.STATUTE; NER.LEGAL_TERM; NER.DATE] ->
   NER.text tie_term
   = PyStr.slice_z tie_text (NER.start tie_term) (NER.end_ tie_term)
   /\ NER.metadata tie_term = [])
  /\ (NER.entity_type tie_term = NER.CASE_NUMBER ->
      NER.metadata tie_term
      = [("full_match",
          PyStr.slice_z tie_text (NER.start tie_term) (NER.end_ tie_term))]).
Proof.
  apply (X3_matched_text_is_recorded tie_text tie_term).
  vm_compute. right. left. reflexivity.
Defined.

Definition acts : list string := ["IPC"; "CrPC"; "Evidence_Act"; "Constitution"].

Lemma scanned_section_shape :
  forall text e,
    scanned text e ->
    NER.entity_type e = NER.LEGAL_SECTION ->
    exists act num a b,
      In act acts
      /\ NER.text e = (act ++ " Section " ++ num)%string
      /\ NER.metadata e = [("act", act); ("section_number", num)]
      /\ (NER.start e <= a)%Z /\ (a <= b)%Z /\ (b <= NER.end_ e)%Z
      /\ num = PyStr.slice_z text a b.
Proof.
  intros text e H Hty.
  destruct H as [p act m Hp Hm ->|p m _ Hm ->|ic ty conf p m Hty' Hm ->].
  - assert (Hact : In act acts).
    { assert (Hall : forallb (fun pa : Re.regex * string =>
                                existsb (String.eqb (snd pa)) acts)
                             NER.section_patterns = true) by reflexivity.
      rewrite forallb_forall in Hall. specialize (Hall _ Hp). cbn [snd] in Hall.
      apply existsb_exists in Hall as (x & Hx & E).
      apply String.eqb_eq in E. now subst. }
    pose proof (finditer_within _ _ _ _ Hm) as (H0 & H1 & H2 & Hg).
    unfold Re.group1. simpl.
    destruct (Re.m_group1 m) as [[a b]|].
    + exists act, (PyStr.slice text a b), (Z.of_nat a), (Z.of_nat b).
      repeat split; try lia; [exact Hact|].
      rewrite slice_z_of_nat by lia. reflexivity.
    + exists act, EmptyString, (Z.of_nat (Re.m_start m)), (Z.of_nat (Re.m_start m)).
      repeat split; try lia; [exact Hact|].
      rewrite slice_z_of_nat by lia.
      unfold PyStr.slice. rewrite Nat.sub_diag. reflexivity.
  - discriminate.
  - simpl in Hty. subst ty.
    simpl in Hty'. destruct Hty' as [H|[H|[H|[H|[]]]]]; discriminate.
Qed.

(** X4.  A LEGAL_SECTION entity carries one of the four act tags, the
    section number cut out of its mention, both under their metadata keys,
    and the canonical text "<act> Section <number>". *)
Theorem X4_section_entity_is_canonical :
  forall text e,
    In e (NER.extract_entities text) ->
    NER.entity_type e = NER.LEGAL_SECTION ->
    exists act num a b,
      In act acts
      /\ NER.text e = (act ++ " Section " ++ num)%string
      /\ NER.metadata e = [("act", act); ("section_number", num)]
      /\ (NER.start e <= a)%Z /\ (a <= b)%Z /\ (b <= NER.end_ e)%Z
      /\ num = PyStr.slice_z text a b.
Proof.
  intros text e H Hty. apply extracted_scanned in H.
  now apply scanned_section_shape.
Qed.

(** X4 at the mention of [bare_text]. *)
Lemma X4_witness :
  exists act num a b,
    In act acts
    /\ NER.text bare_entity = (act ++ " Section " ++ num)%string
    /\ NER.metadata bare_entity = [("act", act); ("section_number", num)]
    /\ (NER.start bare_entity <= a)%Z /\ (a <= b)%Z
    /\ (b <= NER.end_ bare_entity)%Z
    /\ num = PyStr.slice_z bare_text a b.
Proof.
  apply (X4_section_entity_is_canonical bare_text bare_entity).
  - vm_compute. left. reflexivity.
  - reflexivity.
Defined.

Lemma scanned_type_confidence text e :
  scanned text e ->
  In (NER.entity_type e, NER.confidence e)
     [(NER.LEGAL_SECTION, (9 # 10)%Q); (NER.CASE_NUMBER, (95 # 100)%Q);
      (NER.COURT, (9 # 10)%Q); (NER.STATUTE, (85 # 100)%Q);
      (NER.LEGAL_TERM, (7 # 10)%Q); (NER.DATE, (8 # 10)%Q)].
Proof.
  intros H.
  destruct H as [p act m _ _ ->|p m _ _ ->|ic ty conf p m Hty _ ->]; simpl.
  - auto.
  - auto.
  - destruct Hty as [H|[H|[H|[H|[]]]]]; injection H as <- <-; auto 7.
Qed.

(** X5.  Extraction produces six of the eleven entity types only, each
    with its fixed confidence; PERSON, PENALTY, ORGANIZATION, JUDGE and
    LAWYER never occur. *)
Theorem X5_type_fixes_confidence :
  forall text e,
    In e (NER.extract_entities text) ->
    In (NER.entity_type e, NER.confidence e)
       [(NER.LEGAL_SECTION, (9 # 10)%Q); (NER.CASE_NUMBER, (95 # 100)%Q);
        (NER.COURT, (9 # 10)%Q); (NER.STATUTE, (85 # 100)%Q);
        (NER.LEGAL_TERM, (7 # 10)%Q); (NER.DATE, (8 # 10)%Q)].
Proof.
  intros text e H. apply extracted_scanned in H.
  now apply (scanned_type_confidence text).
Qed.

(** X5 at the mention of [bare_text]. *)
Lemma X5_witness :
  In (NER.entity_type bare_entity, NER.confidence bare_entity)
     [(NER.LEGAL_SECTION, (9 # 10)%Q); (NER.CASE_NUMBER, (95 # 100)%Q);
      (NER.COURT, (9 # 10)%Q); (NER.STATUTE, (85 # 100)%Q);
      (NER.LEGAL_TERM, (7 # 10)%Q); (NER.DATE, (8 # 10)%Q)].
Proof.
  apply (X5_type_fixes_confidence bare_text bare_entity).
  vm_compute. left. reflexivity.
Defined.

(** ** Overlap resolution on input that needs none *)

Lemma sorted_fixed {A : Type} (lt : A -> A -> bool) l :
  (forall x y, before x y l -> lt y x = false) -> Py.sorted lt l = l.
Proof.
  induction l as [|x l IH]; intros H; [reflexivity|].
  simpl. rewrite IH by (intros a b Hb; apply H; now apply before_next).
  destruct l as [|y l]; [reflexivity|].
  simpl. rewrite (H x y); [reflexivity|].
  apply before_here. now left.
Qed.

(** Nothing is dropped or evicted while no two entities overlap. *)
Lemma keep_all l : forall acc,
  pairwise_disjoint (acc ++ l) ->
  fold_left NER.keep_step l acc = acc ++ l.
Proof.
  induction l as [|e l IH]; intros acc Hd; simpl.
  - now rewrite app_nil_r.
  - assert (Hnone : List.find (NER.overlaps e) acc = None).
    { destruct (List.find (NER.overlaps e) acc) as [x|] eqn:E; [|reflexivity].
      apply find_some in E as [Hx Hov]. exfalso.
      apply overlaps_spec, overlapping_sym in Hov. revert Hov.
      apply Hd. apply before_app_iff. right. right.
      split; [exact Hx | now left]. }
    unfold NER.keep_step at 2. rewrite Hnone.
    rewrite IH; rewrite <- app_assoc; [reflexivity | exact Hd].
Qed.

Lemma pairwise_disjoint_perm l l' :
  Permutation l l' -> pairwise_disjoint l -> pairwise_disjoint l'.
Proof.
  intros Hp Hd a b Hb Hov.
  destruct (before_perm _ _ (Permutation_sym Hp) _ _ Hb) as [H|H].
  - now apply (Hd a b).
  - apply (Hd b a H). now apply overlapping_sym.
Qed.

(** X6.  Candidates of which no two overlap all survive
    [_remove_overlaps]: the result is the input rearranged. *)
Theorem X6_disjoint_candidates_all_kept :
  forall l,
    pairwise_disjoint l ->
    Permutation (NER._remove_overlaps l) l.
Proof.
  intros l Hd. rewrite remove_overlaps_unfold.
  rewrite sorted_perm.
  rewrite (keep_all _ []).
  - apply sorted_perm.
  - simpl. eapply pairwise_disjoint_perm; [|exact Hd].
    symmetry. apply sorted_perm.
Qed.

(** X6 on two candidates that do not overlap, given out of order. *)
Lemma X6_witness :
  Permutation (NER._remove_overlaps [tie_term; tie_section])
              [tie_term; tie_section].
Proof.
  apply (X6_disjoint_candidates_all_kept [tie_term; tie_section]).
  intros a b Hb. apply before_cons_iff in Hb as [[-> Hin]|Hb].
  - destruct Hin as [<-|[]]. vm_compute. intros [H _]. discriminate.
  - apply before_cons_iff in Hb as [[_ []]|Hb]. now apply before_nil in Hb.
Defined.

(** X7.  [_remove_overlaps] is idempotent on candidates with proper
    spans: its result needs no further resolution. *)
Theorem X7_remove_overlaps_idempotent :
  forall l,
    Forall proper l ->
    NER._remove_overlaps (NER._remove_overlaps l) = NER._remove_overlaps l.
Proof.
  intros l Hp.
  destruct (remove_overlaps_sound l Hp) as (Hdis & Hincl & _).
  set (o := NER._remove_overlaps l) in *.
  assert (Hsep : forall a b, before a b o -> (NER.start a < NER.start b)%Z).
  { intros a b Hb. apply (remove_overlaps_separated l a b Hp) in Hb. lia. }
  rewrite (remove_overlaps_unfold o).
  assert (E1 : Py.sorted NER.key_lt o = o).
  { apply sorted_fixed. intros x y Hb. apply Hsep in Hb.
    unfold NER.key_lt. apply orb_false_iff. split.
    - apply Z.ltb_ge. lia.
    - apply andb_false_iff. left. apply Z.eqb_neq. lia. }
  rewrite E1, (keep_all o []) by exact Hdis. simpl.
  apply sorted_fixed. intros x y Hb. apply Hsep in Hb.
  unfold NER.start_lt. apply Z.ltb_ge. lia.
Qed.

(** X7 on the court name and the legal term of [tie_text], which
    overlap. *)
Lemma X7_witness :
  NER._remove_overlaps (NER._remove_overlaps [tie_court; tie_term])
  = NER._remove_overlaps [tie_court; tie_term].
Proof.
  apply (X7_remove_overlaps_idempotent [tie_court; tie_term]).
  repeat constructor.
Defined.

(** X8.  Every dictionary returned by [extract_sections_from_text] has
    its act and its section number (neither lookup misses), the act is one
    of the four tags, and the text is "<act> Section <number>". *)
Theorem X8_section_references_are_complete :
  forall text r,
    In r (NER_more.extract_sections_from_text text) ->
    exists act num,
      In act acts
      /\ NER_more.act r = Some act
      /\ NER_more.section_number r = Some num
      /\ NER_more.text r = (act ++ " Section " ++ num)%string.
Proof.
  intros text r H. unfold NER_more.extract_sections_from_text in H.
  apply in_map_iff in H as (e & <- & He).
  apply filter_In in He as [He Hty]. apply EntityType_eqb_eq in Hty.
  destruct (scanned_section_shape text e (extracted_scanned _ _ He) Hty)
    as (act & num & a & b & Hact & Ht & Hm & _).
  exists act, num. simpl. rewrite Hm, Ht. simpl. auto.
Qed.

(** X8 on [bare_text]. *)
Lemma X8_witness :
  exists act num,
    In act acts
    /\ NER_more.act (NER_more.mkSectionRef (Some "IPC") (Some "302")
                                           "IPC Section 302") = Some act
    /\ NER_more.section_number
         (NER_more.mkSectionRef (Some "IPC") (Some "302") "IPC Section 302")
       = Some num
    /\ NER_more.text
         (NER_more.mkSectionRef (Some "IPC") (Some "302") "IPC Section 302")
       = (act ++ " Section " ++ num)%string.
Proof.
  apply (X8_section_references_are_complete bare_text).
  vm_compute. left. reflexivity.
Defined.

(* ================================================================== *)
(** * Further facts about Python strings *)
(* ================================================================== *)

Lemma drop_length n : forall s,
  String.length (PyStr.drop n s) = String.length s - n.
Proof.
  induction n as [|n IH]; intros s; simpl; [lia|].
  destruct s as [|c s]; simpl; [reflexivity | apply IH].
Qed.

Lemma take_length n : forall s,
  String.length (PyStr.take n s) = Nat.min n (String.length s).
Proof.
  induction n as [|n IH]; intros s; simpl; [reflexivity|].
  destruct s as [|c s]; simpl; [reflexivity | now rewrite IH].
Qed.

Lemma drop_drop a : forall b s,
  PyStr.drop a (PyStr.drop b s) = PyStr.drop (b + a) s.
Proof.
  intros b. revert a. induction b as [|b IH]; intros a s; simpl; [reflexivity|].
  destruct s as [|c s]; [now destruct a | apply IH].
Qed.

Lemma take_empty n : PyStr.take n EmptyString = EmptyString.
Proof. now destruct n. Qed.

Lemma drop_take a : forall b s,
  PyStr.drop a (PyStr.take b s) = PyStr.take (b - a) (PyStr.drop a s).
Proof.
  induction a as [|a IH]; intros b s; simpl.
  - now rewrite Nat.sub_0_r.
  - destruct b as [|b]; simpl.
    + destruct s; reflexivity.
    + destruct s as [|c s]; simpl; [now rewrite take_empty | apply IH].
Qed.

Lemma take_take a : forall b s,
  PyStr.take a (PyStr.take b s) = PyStr.take (Nat.min a b) s.
Proof.
  induction a as [|a IH]; intros b s; simpl; [reflexivity|].
  destruct b as [|b]; simpl; [reflexivity|].
  destruct s as [|c s]; simpl; [reflexivity | now rewrite IH].
Qed.

Lemma slice_length s a b :
  a <= b -> b <= String.length s -> String.length (PyStr.slice s a b) = b - a.
Proof.
  intros Hab Hb. unfold PyStr.slice. rewrite take_length, drop_length. lia.
Qed.

(** A slice of a slice is a slice of the string. *)
Lemma slice_slice s a b i j :
  j <= b - a ->
  PyStr.slice (PyStr.slice s a b) i j = PyStr.slice s (a + i) (a + j).
Proof.
  intros Hj. unfold PyStr.slice.
  rewrite drop_take, take_take, drop_drop.
  f_equal. lia.
Qed.

Lemma clip_in_range s i :
  (0 <= i <= PyStr.len s)%Z -> PyStr.clip s i = Z.to_nat i.
Proof.
  intros H. unfold PyStr.clip.
  destruct (i <? 0)%Z eqn:E; [apply Z.ltb_lt in E; lia|].
  now rewrite Z.min_l by lia.
Qed.

Lemma take_length_le n s : String.length (PyStr.take n s) <= n.
Proof. rewrite take_length. lia. Qed.

(* ================================================================== *)
(** * Further facts about dark-zone detection *)
(* ================================================================== *)

(** X9.  For an entity whose span lies in the text and a window size
    that is not negative, the context window holds the whole mention, at
    the offset [min(start, size)], and is at most [2 * size] characters
    longer than the mention. *)
Theorem X9_context_window_holds_the_mention :
  forall self text e,
    (0 <= DarkZones.context_window_size self)%Z ->
    (0 <= NER.start e)%Z ->
    (NER.start e <= NER.end_ e)%Z ->
    (NER.end_ e <= PyStr.len text)%Z ->
    let window := DarkZones._get_context_window self text e in
    let offset := Z.min (NER.start e) (DarkZones.context_window_size self) in
    PyStr.slice_z window offset (offset + (NER.end_ e - NER.start e))
    = PyStr.slice_z text (NER.start e) (NER.end_ e)
    /\ (PyStr.len window
        <= NER.end_ e - NER.start e + 2 * DarkZones.context_window_size self)%Z.
Proof.
  intros self text e Hsize H0 Hse Hlen window offset.
  unfold window, DarkZones._get_context_window.
  set (size := DarkZones.context_window_size self) in *.
  set (A := Z.max 0 (NER.start e - size)).
  set (B := Z.min (PyStr.len text) (NER.end_ e + size)).
  assert (HA : (0 <= A <= NER.start e)%Z) by (unfold A; lia).
  assert (HB : (NER.end_ e <= B <= PyStr.len text)%Z) by (unfold B; lia).
  assert (Hoff : offset = (NER.start e - A)%Z) by (unfold offset, A; lia).
  unfold PyStr.len in *.
  assert (Hw : String.length (PyStr.slice_z text A B) = Z.to_nat B - Z.to_nat A).
  { unfold PyStr.slice_z. rewrite !clip_in_range by (unfold PyStr.len; lia).
    apply slice_length; lia. }
  split.
  - unfold PyStr.slice_z at 1.
    rewrite !clip_in_range by (unfold PyStr.len; rewrite Hw; lia).
    unfold PyStr.slice_z.
    rewrite !clip_in_range by (unfold PyStr.len; lia).
    rewrite slice_slice by lia.
    f_equal; lia.
  - rewrite Hw. unfold A, B. lia.
Qed.

(** X9 at the mention of [bare_text] with the default window. *)
Lemma X9_witness :
  let window :=
    DarkZones._get_context_window DarkZones.default_detector bare_text
                                  bare_entity in
  let offset :=
    Z.min (NER.start bare_entity)
          (DarkZones.context_window_size DarkZones.default_detector) in
  PyStr.slice_z window offset
                (offset + (NER.end_ bare_entity - NER.start bare_entity))
  = PyStr.slice_z bare_text (NER.start bare_entity) (NER.end_ bare_entity)
  /\ (PyStr.len window
      <= NER.end_ bare_entity - NER.start bare_entity
         + 2 * DarkZones.context_window_size DarkZones.default_detector)%Z.
Proof.
  apply (X9_context_window_holds_the_mention
           DarkZones.default_detector bare_text bare_entity);
    vm_compute; discriminate.
Defined.

Lemma zone_of_shape self text entities e dz :
  In dz (DarkZones.zone_of self text entities e) ->
  DarkZones.section_entity dz = e
  /\ DarkZones.context_window dz = DarkZones._get_context_window self text e
  /\ DarkZones.position dz = (NER.start e, NER.end_ e)
  /\ DarkZones.explanation_needed dz = true
  /\ DarkZones.related_entities dz
     = DarkZones._find_related_entities
         self (DarkZones._get_context_window self text e) entities e
  /\ DarkZones._is_section_explained
       (DarkZones._get_context_window self text e) e = false
  /\ DarkZones.resolution_suggestions dz
     = DarkZones._generate_resolution_suggestions
         (DarkZones.mkDarkZone e (DarkZones._get_context_window self text e)
            (NER.start e, NER.end_ e)
            (DarkZones._find_related_entities
               self (DarkZones._get_context_window self text e) entities e)
            true []).
Proof.
  unfold DarkZones.zone_of.
  destruct (DarkZones._is_section_explained _ _); [intros []|].
  intros [<-|[]]. simpl. repeat split; reflexivity.
Qed.

Lemma detect_zone self text dz :
  In dz (DarkZones.detect_dark_zones self text) ->
  In (DarkZones.section_entity dz) (NER.extract_entities text)
  /\ NER.entity_type (DarkZones.section_entity dz) = NER.LEGAL_SECTION
  /\ In dz (DarkZones.zone_of self text (NER.extract_entities text)
                              (DarkZones.section_entity dz)).
Proof.
  intros H. unfold DarkZones.detect_dark_zones in H.
  apply in_flat_map in H as (e & He & Hdz).
  assert (E := zone_of_entity _ _ _ _ _ Hdz). rewrite E.
  apply filter_In in He as [Hin Hty].
  repeat split; [exact Hin | now apply EntityType_eqb_eq | exact Hdz].
Qed.

(** X10.  A dark zone records the span of its section entity as its
    position, is marked as needing explanation, and lists as related
    entities only other entities extracted from the text.  Its suggestions
    name the canonical section text: the first asks for the full text, the
    last for citing judgments, with at most one suggestion in between; the
    fallback act "Unknown" is never used. *)
Theorem X10_dark_zone_is_well_formed :
  forall self text dz,
    In dz (DarkZones.detect_dark_zones self text) ->
    DarkZones.position dz
    = (NER.start (DarkZones.section_entity dz),
       NER.end_ (DarkZones.section_entity dz))
    /\ DarkZones.explanation_needed dz = true
    /\ (forall r,
          In r (DarkZones.related_entities dz) ->
          In r (NER.extract_entities text)
          /\ NER.Entity_eqb r (DarkZones.section_entity dz) = false)
    /\ exists middle,
         DarkZones.resolution_suggestions dz
         = ("Retrieve full text of " ++ NER.text (DarkZones.section_entity dz))%string
           :: middle
           ++ [("Search for judgments citing "
                ++ NER.text (DarkZones.section_entity dz))%string]
         /\ List.length middle <= 1.
Proof.
  intros self text dz H.
  destruct (detect_zone _ _ _ H) as (Hin & Hty & Hz).
  destruct (zone_of_shape _ _ _ _ _ Hz) as (_ & _ & Hpos & Hneed & Hrel & _ & Hsug).
  split; [exact Hpos|]. split; [exact Hneed|]. split.
  - intros r Hr. rewrite Hrel in Hr.
    unfold DarkZones._find_related_entities in Hr.
    apply filter_In in Hr as [Hr Hc].
    apply andb_true_iff in Hc as [Hc _]. apply andb_true_iff in Hc as [Hc _].
    split; [exact Hr | now apply negb_true_iff in Hc].
  - destruct (scanned_section_shape _ _ (extracted_scanned _ _ Hin) Hty)
      as (act & num & _ & _ & _ & Ht & Hm & _).
    rewrite Hsug. unfold DarkZones._generate_resolution_suggestions.
    cbn [DarkZones.section_entity DarkZones.related_entities].
    rewrite Hm, Ht. cbn [DarkZones.get String.eqb Ascii.eqb Bool.eqb].
    match goal with
    | |- context [match ?l with [] => [] | _ :: _ => [?x] end] =>
        exists (match l with [] => [] | _ :: _ => [x] end)
    end.
    split; [reflexivity|].
    destruct (filter _ _); simpl; lia.
Qed.

(** X10 at the dark zone of [bare_text]. *)
Lemma X10_witness :
  DarkZones.position bare_zone
  = (NER.start (DarkZones.section_entity bare_zone),
     NER.end_ (DarkZones.section_entity bare_zone))
  /\ DarkZones.explanation_needed bare_zone = true
  /\ (forall r,
        In r (DarkZones.related_entities bare_zone) ->
        In r (NER.extract_entities bare_text)
        /\ NER.Entity_eqb r (DarkZones.section_entity bare_zone) = false)
  /\ exists middle,
       DarkZones.resolution_suggestions bare_zone
       = ("Retrieve full text of "
          ++ NER.text (DarkZones.section_entity bare_zone))%string
         :: middle
         ++ [("Search for judgments citing "
              ++ NER.text (DarkZones.section_entity bare_zone))%string]
       /\ List.length middle <= 1.
Proof.
  apply (X10_dark_zone_is_well_formed DarkZones.default_detector bare_text
                                      bare_zone).
  vm_compute. left. reflexivity.
Defined.

Lemma before_filter {A : Type} (f : A -> bool) x y l :
  before x y (filter f l) -> before x y l.
Proof.
  induction l as [|a l IH]; simpl; intros H; [exact H|].
  destruct (f a).
  - apply before_cons_iff in H as [[-> Hy]|H].
    + apply before_here. now apply filter_In in Hy.
    + apply before_next. now apply IH.
  - apply before_next. now apply IH.
Qed.

(** Through a [flat_map] whose pieces hold at most one element, each
    traced back to its source by [g], order is kept. *)
Lemma before_flat_map {A B : Type} (f : A -> list B) (g : B -> A) x y l :
  (forall a b, In b (f a) -> g b = a) ->
  (forall a, List.length (f a) <= 1) ->
  before x y (flat_map f l) -> before (g x) (g y) l.
Proof.
  intros Hg Hone. induction l as [|a l IH]; simpl; intros H.
  - now apply before_nil in H.
  - apply before_app_iff in H as [H|[H|[Hx Hy]]].
    + exfalso. specialize (Hone a).
      destruct (f a) as [|b1 [|b2 r]]; simpl in Hone; try lia.
      * now apply before_nil in H.
      * apply before_cons_iff in H as [[_ []]|H]. now apply before_nil in H.
    + apply before_next. now apply IH.
    + rewrite (Hg _ _ Hx). apply before_here.
      apply in_flat_map in Hy as (a' & Ha' & Hy).
      now rewrite (Hg _ _ Hy).
Qed.

Lemma zone_of_length self text entities e :
  List.length (DarkZones.zone_of self text entities e) <= 1.
Proof. unfold DarkZones.zone_of. destruct (negb _); simpl; lia. Qed.

(** X11.  Dark zones come in text order and their mentions do not
    touch: the section entity of a zone ends at or before the start of the
    section entity of every later zone.  No mention gets two zones. *)
Theorem X11_dark_zones_in_text_order :
  forall self text dz1 dz2,
    before dz1 dz2 (DarkZones.detect_dark_zones self text) ->
    (NER.end_ (DarkZones.section_entity dz1)
     <= NER.start (DarkZones.section_entity dz2))%Z.
Proof.
  intros self text dz1 dz2 H. unfold DarkZones.detect_dark_zones in H.
  apply (before_flat_map _ DarkZones.section_entity) in H.
  - apply before_filter in H.
    destruct (remove_overlaps_separated (NER.candidates text) _ _
                (candidates_proper text) H) as (_ & Hle & _).
    exact Hle.
  - intros a b. apply zone_of_entity.
  - intros a. apply zone_of_length.
Qed.

(** A text with two bare section references. *)
Definition two_sections_text : string :=
  "Charged under Section 302 IPC and Section 34 IPC.".

(** X11 on the two dark zones of [two_sections_text]. *)
Lemma X11_witness :
  let zones :=
    DarkZones.detect_dark_zones DarkZones.default_detector two_sections_text in
  (NER.end_ (DarkZones.section_entity (nth 0 zones bare_zone))
   <= NER.start (DarkZones.section_entity (nth 1 zones bare_zone)))%Z.
Proof.
  apply (X11_dark_zones_in_text_order DarkZones.default_detector
                                      two_sections_text).
  vm_compute. apply before_here. left. reflexivity.
Defined.

Lemma existsb_pointwise {A : Type} (f g : A -> bool) l :
  (forall x, In x l -> f x = g x) -> existsb f l = existsb g l.
Proof.
  induction l as [|a l IH]; intros H; simpl; [reflexivity|].
  rewrite (H a) by now left.
  rewrite IH; [reflexivity|]. intros x Hx. apply H. now right.
Qed.

(** X12.  When the canonical entity text does not occur in the context
    (as for a mention written "Section 302 of the Indian Penal Code"),
    [_is_section_explained] answers true exactly when some explanation
    indicator has a match that starts within the first 199 characters of
    the context; where the mention lies plays no part. *)
Theorem X12_explained_without_literal_mention :
  forall context e,
    PyStr.find (PyStr.lower context) (PyStr.lower (NER.text e)) = (-1)%Z ->
    DarkZones._is_section_explained context e
    = existsb
        (fun pattern =>
           existsb (fun m => (Re.m_start m <? 199)%nat)
                   (Re.finditer false pattern (PyStr.lower context)))
        DarkZones.explanation_indicators.
Proof.
  intros context e Hfind.
  unfold DarkZones._is_section_explained.
  assert (Hdef : DarkZones.definition_follows context e (PyStr.lower context)
                   (PyStr.lower (NER.text e)) = false).
  { unfold DarkZones.definition_follows. rewrite Hfind. reflexivity. }
  rewrite Hdef.
  assert (E : DarkZones.indicator_near (PyStr.lower context)
                (PyStr.lower (NER.text e))
              = existsb
                  (fun pattern =>
                     existsb (fun m => (Re.m_start m <? 199)%nat)
                             (Re.finditer false pattern (PyStr.lower context)))
                  DarkZones.explanation_indicators).
  { unfold DarkZones.indicator_near. rewrite Hfind.
    apply existsb_pointwise. intros p _.
    unfold Re.search.
    assert (Hm : forall ms : list Re.rmatch,
              existsb (fun m => (Z.abs (Z.of_nat (Re.m_start m) - -1) <? 200)%Z) ms
              = existsb (fun m => (Re.m_start m <? 199)%nat) ms).
    { intros ms. apply existsb_pointwise. intros m _.
      destruct ((Re.m_start m <? 199)%nat) eqn:E.
      - apply Nat.ltb_lt in E. apply Z.ltb_lt. lia.
      - apply Nat.ltb_ge in E. apply Z.ltb_ge. lia. }
    rewrite Hm.
    destruct (Re.finditer false p (PyStr.lower context)); reflexivity. }
  rewrite E. now destruct (existsb _ _).
Qed.

(** X12 on [bare_text], which does not hold the canonical text
    "IPC Section 302". *)
Lemma X12_witness :
  DarkZones._is_section_explained bare_text bare_entity
  = existsb
      (fun pattern =>
         existsb (fun m => (Re.m_start m <? 199)%nat)
                 (Re.finditer false pattern (PyStr.lower bare_text)))
      DarkZones.explanation_indicators.
Proof.
  apply (X12_explained_without_literal_mention bare_text bare_entity).
  vm_compute. reflexivity.
Defined.

Lemma listed_In p l : DarkZones_more.listed p l = true <-> In p l.
Proof.
  unfold DarkZones_more.listed. rewrite existsb_exists. split.
  - intros [x [Hx E]]. apply String.eqb_eq in E. now subst.
  - intros H. exists p. split; [exact H | apply String.eqb_refl].
Qed.

Lemma upto_100 s : (PyStr.len (PyStr.upto_z s 100) <= 100)%Z.
Proof.
  unfold PyStr.upto_z, PyStr.len.
  pose proof (take_length_le (PyStr.clip s 100) s).
  assert (PyStr.clip s 100 <= 100).
  { unfold PyStr.clip. simpl. lia. }
  lia.
Qed.

Definition phrases_ok (max_phrases : Z) (before_len : nat) (out : list string) : Prop :=
  NoDup out
  /\ Forall (fun p => p <> EmptyString /\ (PyStr.len p <= 100)%Z) out
  /\ (Z.of_nat (List.length out) <= Z.max max_phrases (Z.of_nat before_len + 1))%Z.

Lemma phrase_loop_inv max_phrases sentences : forall acc,
  NoDup acc ->
  Forall (fun p => p <> EmptyString /\ (PyStr.len p <= 100)%Z) acc ->
  phrases_ok max_phrases (List.length acc)
             (DarkZones_more.phrase_loop max_phrases sentences acc).
Proof.
  induction sentences as [|s rest IH]; intros acc Hnd Hall;
    cbn [DarkZones_more.phrase_loop].
  - repeat split; [exact Hnd | exact Hall | lia].
  - assert (Hskip := IH acc Hnd Hall).
    destruct (existsb _ DarkZones_more.legal_keywords); [|exact Hskip].
    cbv zeta.
    set (phrase := PyStr.upto_z (PyStr.strip s) 100).
    destruct (PyStr.nonempty phrase) eqn:Hne; [|exact Hskip].
    destruct (DarkZones_more.listed phrase acc) eqn:Hl; [exact Hskip|].
    cbn [negb andb].
    assert (Hnd' : NoDup (acc ++ [phrase])).
    { apply NoDup_app; [exact Hnd | repeat constructor; intros [] |].
      intros x Hx [<-|[]]. apply listed_In in Hx. congruence. }
    assert (Hall' : Forall (fun p => p <> EmptyString /\ (PyStr.len p <= 100)%Z)
                           (acc ++ [phrase])).
    { apply Forall_app. split; [exact Hall|]. constructor; [|constructor].
      split; [intros E; rewrite E in Hne; discriminate | apply upto_100]. }
    destruct (Z.of_nat (List.length (acc ++ [phrase])) >=? max_phrases)%Z eqn:E.
    + repeat split; [exact Hnd' | exact Hall'|].
      rewrite length_app. simpl. lia.
    + destruct (IH (acc ++ [phrase]) Hnd' Hall') as (H1 & H2 & H3).
      repeat split; [exact H1 | exact H2|].
      rewrite Z.geb_leb in E. apply Z.leb_gt in E.
      rewrite length_app in *. simpl in *. lia.
Qed.

(** X13.  [_extract_key_phrases] returns distinct, non-empty phrases of
    at most 100 characters each, and never more than [max_phrases] of them
    (one, when [max_phrases] is below one). *)
Theorem X13_key_phrases_are_bounded :
  forall text max_phrases,
    NoDup (DarkZones_more._extract_key_phrases text max_phrases)
    /\ Forall (fun p => p <> EmptyString /\ (PyStr.len p <= 100)%Z)
              (DarkZones_more._extract_key_phrases text max_phrases)
    /\ (Z.of_nat (List.length (DarkZones_more._extract_key_phrases text max_phrases))
        <= Z.max max_phrases 1)%Z.
Proof.
  intros text max_phrases. unfold DarkZones_more._extract_key_phrases.
  apply (phrase_loop_inv max_phrases _ []); constructor.
Qed.

(** X14.  The query built from dark zones holds every whitespace token
    of the section text of every zone, and at most three key phrases for
    each zone; without zones it is empty. *)
Theorem X14_dark_zone_query_names_every_section :
  forall dark_zones,
    (forall dz tok,
       In dz dark_zones ->
       In tok (PyStr.split (NER.text (DarkZones.section_entity dz))) ->
       In tok (PyStr.split (DarkZones_more.get_dark_zone_query dark_zones)))
    /\ List.length (flat_map DarkZones_more.zone_parts dark_zones)
       <= 4 * List.length dark_zones
    /\ DarkZones_more.get_dark_zone_query [] = EmptyString.
Proof.
  intros dark_zones. split; [|split; [|reflexivity]].
  - intros dz tok Hdz Htok. unfold DarkZones_more.get_dark_zone_query.
    rewrite split_join. apply in_flat_map.
    exists (NER.text (DarkZones.section_entity dz)). split; [|exact Htok].
    apply in_flat_map. exists dz. split; [exact Hdz | now left].
  - assert (Hone : forall dz, List.length (DarkZones_more.zone_parts dz) <= 4).
    { intros dz. unfold DarkZones_more.zone_parts. cbn [List.length].
      destruct (PyStr.nonempty _); [|simpl; lia].
      assert (E : forall l : list string, List.length (Py.prefix l 3) <= 3).
      { intros l. unfold Py.prefix. cbn [Z.ltb Z.compare].
        apply (firstn_le_length (Z.to_nat 3)). }
      specialize (E (DarkZones_more._extract_key_phrases
                       (DarkZones.context_window dz) 5)).
      lia. }
    induction dark_zones as [|dz l IH]; [simpl; lia|].
    cbn [flat_map]. rewrite length_app. specialize (Hone dz).
    cbn [List.length]. lia.
Qed.

(** X14 at the dark zone of [bare_text]: the query holds "IPC". *)
Lemma X14_witness :
  In "IPC" (PyStr.split (DarkZones_more.get_dark_zone_query [bare_zone])).
Proof.
  apply (proj1 (X14_dark_zone_query_names_every_section [bare_zone]) bare_zone).
  - left. reflexivity.
  - vm_compute. left. reflexivity.
Defined.

(* ================================================================== *)
(** * Further facts about query enhancement *)
(* ================================================================== *)

(** [subseq a b]: [a] is [b] with some elements left out. *)
Inductive subseq {A : Type} : list A -> list A -> Prop :=
| subseq_nil : subseq [] []
| subseq_keep x a b : subseq a b -> subseq (x :: a) (x :: b)
| subseq_skip x a b : subseq a b -> subseq a (x :: b).

Lemma subseq_refl {A : Type} (l : list A) : subseq l l.
Proof. induction l; constructor; assumption. Qed.

Lemma subseq_app_r {A : Type} (a b c : list A) :
  subseq a b -> subseq a (c ++ b).
Proof. intros H. induction c; simpl; [exact H | now constructor]. Qed.

Lemma subseq_app {A : Type} (a b c d : list A) :
  subseq a b -> subseq c d -> subseq (a ++ c) (b ++ d).
Proof. induction 1; simpl; intros H'; [exact H' | constructor; auto..]. Qed.

Lemma unique_words_subseq ws : forall seen,
  subseq (Enhancer.unique_words seen ws) ws.
Proof.
  induction ws as [|w ws IH]; intros seen; simpl; [constructor|].
  destruct (Enhancer.mem (PyStr.lower w) seen); constructor; apply IH.
Qed.

Lemma unique_words_prefix a b : forall seen,
  exists rest,
    Enhancer.unique_words seen (a ++ b) = Enhancer.unique_words seen a ++ rest.
Proof.
  induction a as [|w a IH]; intros seen; simpl.
  - eexists. reflexivity.
  - destruct (Enhancer.mem (PyStr.lower w) seen).
    + apply IH.
    + destruct (IH (PyStr.lower w :: seen)) as [rest ->].
      exists rest. reflexivity.
Qed.

(** X15.  Deduplication only leaves words out: the tokens of its result
    are the tokens of the query with later repetitions removed, in their
    order; the first word always stays; a query without repeated words is
    returned with its white space normalised. *)
Theorem X15_deduplication_only_removes :
  forall q,
    subseq (PyStr.split (Enhancer._deduplicate_query q)) (PyStr.split q)
    /\ hd_error (PyStr.split (Enhancer._deduplicate_query q))
       = hd_error (PyStr.split q)
    /\ (NoDup (map PyStr.lower (PyStr.split q)) ->
        Enhancer._deduplicate_query q = PyStr.join " " (PyStr.split q)).
Proof.
  intros q. rewrite split_deduplicate. split; [apply unique_words_subseq|].
  split.
  - destruct (PyStr.split q); reflexivity.
  - intros H. unfold Enhancer._deduplicate_query.
    rewrite unique_words_fixed; [reflexivity | exact H | intros w _ []].
Qed.

(** X15 on a query without repeated words. *)
Lemma X15_witness :
  Enhancer._deduplicate_query "bail   granted"
  = PyStr.join " " (PyStr.split "bail   granted").
Proof.
  apply (proj2 (proj2 (X15_deduplication_only_removes "bail   granted"))).
  vm_compute. repeat constructor; simpl; intuition discriminate.
Defined.

(** X16.  For a text of at most 500 characters the enhanced query
    starts with the words of the text itself, deduplicated, in their
    order; what enhancement adds comes after them. *)
Theorem X16_enhanced_query_starts_with_the_text :
  forall set_order text inc_entities inc_dark_zones inc_terms,
    (PyStr.len text <= 500)%Z ->
    exists rest,
      PyStr.split
        (Enhancer.enhanced_query
           (Enhancer.enhance_query set_order text inc_entities
                                   inc_dark_zones inc_terms))
      = Enhancer.unique_words [] (PyStr.split text) ++ rest.
Proof.
  intros set_order text f1 f2 f3 Hlen.
  cbn [Enhancer.enhance_query Enhancer.enhanced_query].
  rewrite split_deduplicate, split_join.
  unfold Enhancer.query_parts.
  rewrite Z.gtb_ltb, (proj2 (Z.ltb_ge _ _) Hlen).
  cbn [app flat_map].
  apply unique_words_prefix.
Qed.

(** X16 on a short query. *)
Lemma X16_witness :
  exists rest,
    PyStr.split
      (Enhancer.enhanced_query
         (Enhancer.enhance_query (fun l => l) "Section 302 IPC" true true true))
    = Enhancer.unique_words [] (PyStr.split "Section 302 IPC") ++ rest.
Proof.
  apply (X16_enhanced_query_starts_with_the_text
           (fun l => l) "Section 302 IPC" true true true).
  vm_compute. discriminate.
Defined.

(** X17.  With dark zones included, every whitespace token of the
    section text of every dark zone, and of the stripped first 150
    characters of its context, occurs (compared after lower-casing) among
    the tokens of the enhanced query. *)
Theorem X17_dark_zone_tokens_kept :
  forall set_order text inc_entities inc_terms dz tok,
    In dz (DarkZones.detect_dark_zones DarkZones.default_detector text) ->
    In tok (PyStr.split (NER.text (DarkZones.section_entity dz)))
    \/ In tok (PyStr.split
                 (PyStr.strip (PyStr.upto_z (DarkZones.context_window dz) 150))) ->
    In (PyStr.lower tok)
       (map PyStr.lower
            (PyStr.split
               (Enhancer.enhanced_query
                  (Enhancer.enhance_query set_order text inc_entities
                                          true inc_terms)))).
Proof.
  intros set_order text f1 f3 dz tok Hdz Htok.
  cbn [Enhancer.enhance_query Enhancer.enhanced_query].
  rewrite split_deduplicate, split_join.
  match goal with
  | |- In _ (map _ (Enhancer.unique_words [] ?l)) =>
      destruct (unique_words_covers l [] tok) as [[]|H]; [|exact H]
  end.
  assert (Hpart : exists part,
            In part (Enhancer.dark_zone_parts dz) /\ In tok (PyStr.split part)).
  { unfold Enhancer.dark_zone_parts. destruct Htok as [Htok|Htok].
    - eexists. split; [left; reflexivity | exact Htok].
    - destruct (DarkZones.context_window dz) as [|c s] eqn:E.
      + destruct Htok.
      + eexists. split; [right; left; reflexivity | exact Htok]. }
  destruct Hpart as (part & Hpart & Htok').
  apply in_flat_map. exists part. split; [|exact Htok'].
  unfold Enhancer.query_parts.
  apply in_or_app. right. apply in_or_app. right. apply in_or_app. left.
  apply in_flat_map. exists dz. split; [exact Hdz | exact Hpart].
Qed.

(** X17 at the dark zone of [bare_text]. *)
Lemma X17_witness :
  In (PyStr.lower "IPC")
     (map PyStr.lower
          (PyStr.split
             (Enhancer.enhanced_query
                (Enhancer.enhance_query (fun l => l) bare_text true true true)))).
Proof.
  apply (X17_dark_zone_tokens_kept (fun l => l) bare_text true true
                                   bare_zone "IPC").
  - vm_compute. left. reflexivity.
  - left. vm_compute. left. reflexivity.
Defined.

Lemma in_three_types e :
  match NER.entity_type e with
  | NER.LEGAL_SECTION | NER.STATUTE | NER.CASE_NUMBER => true
  | _ => false
  end
  = (NER.EntityType_eqb (NER.entity_type e) NER.LEGAL_SECTION
     || NER.EntityType_eqb (NER.entity_type e) NER.CASE_NUMBER
     || NER.EntityType_eqb (NER.entity_type e) NER.STATUTE).
Proof. destruct (NER.entity_type e); reflexivity. Qed.

Lemma flat_map_filter_map {A B : Type} (p : A -> bool) (g : A -> B) l :
  flat_map (fun a => if p a then [g a] else []) l = map g (filter p l).
Proof.
  induction l as [|a l IH]; simpl; [reflexivity|].
  destruct (p a); simpl; now rewrite IH.
Qed.

(** X18.  On the entities that [extract_entities] returns the confidence
    threshold 0.8 of [enhance_query] removes nothing: the texts it appends
    are those of all LEGAL_SECTION, CASE_NUMBER and STATUTE entities, and
    joined by blanks they are the query of [build_entity_query]. *)
Theorem X18_confidence_threshold_keeps_all :
  forall text,
    Enhancer.high_conf_entities (NER.extract_entities text)
    = map NER.text
          (filter
             (fun e =>
                NER.EntityType_eqb (NER.entity_type e) NER.LEGAL_SECTION
                || NER.EntityType_eqb (NER.entity_type e) NER.CASE_NUMBER
                || NER.EntityType_eqb (NER.entity_type e) NER.STATUTE)
             (NER.extract_entities text))
    /\ Enhancer_more.build_entity_query (NER.extract_entities text)
       = PyStr.join " "
           (Enhancer.high_conf_entities (NER.extract_entities text)).
Proof.
  intros text.
  assert (E : Enhancer.high_conf_entities (NER.extract_entities text)
              = map NER.text
                  (filter
                     (fun e =>
                        NER.EntityType_eqb (NER.entity_type e) NER.LEGAL_SECTION
                        || NER.EntityType_eqb (NER.entity_type e) NER.CASE_NUMBER
                        || NER.EntityType_eqb (NER.entity_type e) NER.STATUTE)
                     (NER.extract_entities text))).
  { unfold Enhancer.high_conf_entities. f_equal.
    apply filter_ext_in. intros e He.
    apply extracted_scanned, (scanned_type_confidence text) in He.
    simpl in He.
    destruct He as [H|[H|[H|[H|[H|[H|[]]]]]]]; injection H as <- <-;
      reflexivity. }
  split; [exact E|].
  rewrite E. unfold Enhancer_more.build_entity_query. f_equal.
  rewrite <- flat_map_filter_map.
  apply flat_map_ext. intros e. rewrite <- in_three_types.
  destruct (NER.entity_type e); reflexivity.
Qed.

Lemma expand_tokens words :
  Forall token words ->
  subseq words
         (flat_map PyStr.split
            (flat_map (fun word => word :: Enhancer_more.synonyms_of (PyStr.lower word))
                      words)).
Proof.
  induction 1 as [|w ws Hw _ IH]; simpl; [constructor|].
  rewrite (split_token w Hw). simpl. constructor.
  rewrite flat_map_app. now apply subseq_app_r.
Qed.

Lemma synonyms_of_none w :
  (forall kv, In kv Enhancer_more.synonyms -> fst kv <> w) ->
  Enhancer_more.synonyms_of w = [].
Proof.
  intros H. unfold Enhancer_more.synonyms_of.
  induction Enhancer_more.synonyms as [|kv l IH]; [reflexivity|].
  simpl. destruct (String.eqb (fst kv) w) eqn:E.
  - apply String.eqb_eq in E. exfalso. apply (H kv); [now left | exact E].
  - simpl. apply IH. intros kv' Hkv. apply H. now right.
Qed.

(** X19.  [expand_with_synonyms] never drops or reorders a word: the
    words of the query are, in order, among the tokens of the result.  A
    query none of whose words is, lower-cased, a key of the table comes
    back with its white space normalised and nothing else changed. *)
Theorem X19_synonym_expansion_keeps_the_words :
  forall query,
    subseq (PyStr.split query)
           (PyStr.split (Enhancer_more.expand_with_synonyms query))
    /\ ((forall word kv,
           In word (PyStr.split query) ->
           In kv Enhancer_more.synonyms ->
           fst kv <> PyStr.lower word) ->
        Enhancer_more.expand_with_synonyms query
        = PyStr.join " " (PyStr.split query)).
Proof.
  intros query. unfold Enhancer_more.expand_with_synonyms. split.
  - rewrite split_join. apply expand_tokens, split_tokens.
  - intros H. f_equal.
    induction (PyStr.split query) as [|w ws IH]; [reflexivity|].
    cbn [flat_map]. rewrite synonyms_of_none.
    + simpl. f_equal. apply IH. intros word kv Hw. apply H. now right.
    + intros kv Hkv. apply (H w kv); [now left | exact Hkv].
Qed.

(** X19 on a query without a word of the table. *)
Lemma X19_witness :
  Enhancer_more.expand_with_synonyms "the  accused"
  = PyStr.join " " (PyStr.split "the  accused").
Proof.
  apply (proj2 (X19_synonym_expansion_keeps_the_words "the  accused")).
  intros word kv Hw Hkv. vm_compute in Hw.
  destruct Hw as [<-|[<-|[]]];
    vm_compute in Hkv;
    repeat (destruct Hkv as [<-|Hkv]; [vm_compute; discriminate|]);
    destruct Hkv.
Defined.

(* ================================================================== *)
(** * Stripping *)
(* ================================================================== *)

Lemma lstrip_head s :
  PyStr.lstrip s = EmptyString
  \/ exists c r, PyStr.lstrip s = String c r /\ PyStr.isspace c = false.
Proof.
  induction s as [|c s IH]; simpl; [now left|].
  destruct (PyStr.isspace c) eqn:E; [exact IH|].
  right. exists c, s. auto.
Qed.

Lemma rstrip_head c s :
  PyStr.isspace c = false -> exists r, PyStr.rstrip (String c s) = String c r.
Proof.
  intros H. simpl. destruct (PyStr.rstrip s); rewrite ?H; eauto.
Qed.

Lemma rstrip_idem s : PyStr.rstrip (PyStr.rstrip s) = PyStr.rstrip s.
Proof.
  induction s as [|c s IH]; [reflexivity|].
  simpl. destruct (PyStr.rstrip s) as [|d r] eqn:E.
  - destruct (PyStr.isspace c) eqn:Ec; [reflexivity|].
    simpl. now rewrite Ec.
  - change (PyStr.rstrip (String c (String d r)))
      with (match PyStr.rstrip (String d r) with
            | EmptyString =>
                if PyStr.isspace c then EmptyString else String c EmptyString
            | x => String c x
            end).
    now rewrite IH.
Qed.

(** [strip] is idempotent. *)
Lemma strip_idem s : PyStr.strip (PyStr.strip s) = PyStr.strip s.
Proof.
  unfold PyStr.strip.
  destruct (lstrip_head s) as [->|(c & r & -> & Hc)]; [reflexivity|].
  destruct (rstrip_head c r Hc) as [r' E]. rewrite E.
  cbn [PyStr.lstrip]. rewrite Hc, <- E. apply rstrip_idem.
Qed.

Lemma nonempty_true s : PyStr.nonempty s = true <-> s <> EmptyString.
Proof. destruct s; simpl; split; congruence. Qed.

(* ================================================================== *)
(** * Further facts about sentences *)
(* ================================================================== *)

(** X20.  Every sentence returned by [_split_sentences] is non-empty and
    has no white space at either end. *)
Theorem X20_sentences_are_stripped :
  forall text s,
    In s (Chunking._split_sentences text) ->
    s <> EmptyString /\ PyStr.strip s = s.
Proof.
  intros text s H. unfold Chunking._split_sentences in H.
  apply in_map_iff in H as (piece & <- & Hp).
  apply filter_In in Hp as [_ Hne].
  split; [now apply nonempty_true | apply strip_idem].
Qed.

(** X20 at the first sentence of a short text. *)
Lemma X20_witness :
  "Leave granted." <> EmptyString /\ PyStr.strip "Leave granted." = "Leave granted.".
Proof.
  apply (X20_sentences_are_stripped "Leave granted.  Appeal allowed.").
  vm_compute. left. reflexivity.
Defined.

Lemma split_sentences_nonempty text :
  Forall (fun s => s <> EmptyString) (Chunking._split_sentences text).
Proof.
  apply Forall_forall. intros s H. unfold Chunking._split_sentences in H.
  apply in_map_iff in H as (piece & <- & Hp).
  apply filter_In in Hp as [_ Hne]. now apply nonempty_true.
Qed.

Lemma prefix_length {A : Type} (l : list A) n :
  (0 <= n)%Z -> (Z.of_nat (List.length (Py.prefix l n)) <= n)%Z.
Proof.
  intros H. unfold Py.prefix.
  rewrite (proj2 (Z.ltb_ge _ _) H).
  pose proof (firstn_le_length (Z.to_nat n) l). lia.
Qed.

Lemma firstn_sorted {A : Type} (R : A -> A -> Prop) n : forall l,
  StronglySorted R l -> StronglySorted R (firstn n l).
Proof.
  induction n as [|n IH]; intros l H; [constructor|].
  destruct l as [|a l]; [constructor|].
  apply StronglySorted_inv in H as [Hs Hall]. simpl.
  constructor; [now apply IH|].
  apply Forall_forall. intros x Hx. apply firstn_In in Hx.
  rewrite Forall_forall in Hall. auto.
Qed.

Lemma prefix_sorted {A : Type} (R : A -> A -> Prop) n l :
  StronglySorted R l -> StronglySorted R (Py.prefix l n).
Proof. unfold Py.prefix. destruct (n <? 0)%Z; apply firstn_sorted. Qed.

Lemma map_sorted {A B : Type} (f : A -> B) (R : B -> B -> Prop) l :
  StronglySorted (fun x y => R (f x) (f y)) l -> StronglySorted R (map f l).
Proof.
  induction 1 as [|a l Hs IH Hall]; simpl; constructor; [exact IH|].
  apply Forall_forall. intros y Hy.
  apply in_map_iff in Hy as (x & <- & Hx).
  rewrite Forall_forall in Hall. auto.
Qed.

(** X21.  [_extract_key_sentences] returns at most [num_sentences]
    sentences (for a count that is not negative), each non-empty and
    without white space at either end, in descending order of their
    score. *)
Theorem X21_key_sentences_are_ranked :
  forall text num_sentences,
    (0 <= num_sentences)%Z ->
    (Z.of_nat (List.length (Enhancer._extract_key_sentences text num_sentences))
     <= num_sentences)%Z
    /\ (forall s,
          In s (Enhancer._extract_key_sentences text num_sentences) ->
          s <> EmptyString /\ PyStr.strip s = s)
    /\ StronglySorted
         (fun a b => (Enhancer.sentence_score b <= Enhancer.sentence_score a)%Q)
         (Enhancer._extract_key_sentences text num_sentences).
Proof.
  intros text n Hn. unfold Enhancer._extract_key_sentences.
  set (sentences := filter PyStr.nonempty _).
  set (scored := map (fun s => (s, Enhancer.sentence_score s)) sentences).
  set (lt := fun a b : string * Q => Py.Qltb (snd b) (snd a)).
  assert (Hscored : forall x, In x (Py.sorted lt scored) ->
            snd x = Enhancer.sentence_score (fst x) /\ In (fst x) sentences).
  { intros x Hx. apply sorted_In in Hx.
    apply in_map_iff in Hx as (s & <- & Hs). auto. }
  split; [rewrite length_map; now apply prefix_length|]. split.
  - intros s Hs. apply in_map_iff in Hs as (x & <- & Hx).
    apply prefix_In, Hscored in Hx as [_ Hx].
    apply filter_In in Hx as [Hx Hne].
    apply in_map_iff in Hx as (piece & E & _).
    split; [now apply nonempty_true|].
    rewrite <- E. apply strip_idem.
  - apply map_sorted.
    assert (Hs : StronglySorted (fun x y : string * Q => (snd y <= snd x)%Q)
                                (Py.sorted lt scored)).
    { apply sorted_sorted.
      - intros a b c H1 H2. eapply Qle_trans; eassumption.
      - intros a b H. apply Qltb_spec in H. now apply Qlt_le_weak.
      - intros a b H. now apply Qltb_false in H. }
    apply (prefix_sorted _ n) in Hs.
    assert (Hin : forall x, In x (Py.prefix (Py.sorted lt scored) n) ->
                            snd x = Enhancer.sentence_score (fst x)).
    { intros x Hx. now apply prefix_In, Hscored in Hx. }
    revert Hin. induction Hs as [|a l Hs IH Hall]; intros Hin; constructor.
    + apply IH. intros x Hx. apply Hin. now right.
    + apply Forall_forall. intros y Hy.
      rewrite Forall_forall in Hall. specialize (Hall y Hy).
      rewrite <- (Hin a) by now left.
      rewrite <- (Hin y) by now right. exact Hall.
Qed.

(** X21 on a short text with the default count. *)
Lemma X21_witness :
  (Z.of_nat (List.length
               (Enhancer._extract_key_sentences
                  "The appeal is allowed. Costs follow! Why?" 5)) <= 5)%Z
  /\ (forall s,
        In s (Enhancer._extract_key_sentences
                "The appeal is allowed. Costs follow! Why?" 5) ->
        s <> EmptyString /\ PyStr.strip s = s)
  /\ StronglySorted
       (fun a b => (Enhancer.sentence_score b <= Enhancer.sentence_score a)%Q)
       (Enhancer._extract_key_sentences
          "The appeal is allowed. Costs follow! Why?" 5).
Proof.
  apply (X21_key_sentences_are_ranked
           "The appeal is allowed. Costs follow! Why?" 5).
  vm_compute. discriminate.
Defined.

(* ================================================================== *)
(** * Further facts about chunking *)
(* ================================================================== *)

Lemma total_rev self l : total self (rev l) = total self l.
Proof.
  induction l as [|p l IH]; [reflexivity|].
  simpl. rewrite total_app, IH. simpl. lia.
Qed.

(** The loop of [_get_overlap_text] takes a prefix of the reversed
    sentences: it stays within the budget and stops at the first sentence
    that would exceed it. *)
Lemma overlap_loop_spec self reversed : forall acc tok,
  exists taken rest,
    reversed = taken ++ rest
    /\ Chunking.overlap_loop self reversed acc tok = rev taken ++ acc
    /\ (taken <> [] ->
        (tok + total self taken <= Chunking.chunk_overlap self)%Z)
    /\ (forall s r, rest = s :: r ->
          (Chunking.chunk_overlap self
           < tok + total self taken + Chunking._count_tokens self s)%Z).
Proof.
  induction reversed as [|s r IH]; intros acc tok; simpl.
  - exists [], []. repeat split; congruence.
  - destruct (_ <=? _)%Z eqn:E.
    + destruct (IH (s :: acc) (tok + Chunking._count_tokens self s)%Z)
        as (taken & rest & -> & Hres & Hb & Hnext).
      exists (s :: taken), rest. repeat split.
      * rewrite Hres. simpl. now rewrite <- app_assoc.
      * intros _. simpl. destruct taken as [|t taken].
        -- simpl. apply Z.leb_le in E. lia.
        -- specialize (Hb ltac:(discriminate)). lia.
      * intros s' r' Hr. specialize (Hnext s' r' Hr). simpl. lia.
    + exists [], (s :: r). repeat split; [congruence|].
      intros s' r' [= <- <-]. apply Z.leb_gt in E. simpl. lia.
Qed.

(** X22.  The overlap text is made of the last sentences of the chunk:
    nothing for a chunk of fewer than two sentences, otherwise the longest
    run of final sentences whose token counts, added from the last one
    backwards, stay within [chunk_overlap]. *)
Theorem X22_overlap_is_a_bounded_suffix :
  forall self chunk_sentences,
    exists dropped kept,
      chunk_sentences = dropped ++ kept
      /\ Chunking._get_overlap_text self chunk_sentences = PyStr.join " " kept
      /\ (kept <> [] ->
          2 <= List.length chunk_sentences
          /\ (total self kept <= Chunking.chunk_overlap self)%Z)
      /\ (forall s before_s,
            2 <= List.length chunk_sentences ->
            dropped = before_s ++ [s] ->
            (Chunking.chunk_overlap self
             < total self kept + Chunking._count_tokens self s)%Z).
Proof.
  intros self l. unfold Chunking._get_overlap_text.
  destruct (List.length l <? 2)%nat eqn:El.
  - exists l, []. rewrite app_nil_r. apply Nat.ltb_lt in El.
    repeat split; [congruence | congruence | lia].
  - apply Nat.ltb_ge in El.
    destruct (overlap_loop_spec self (rev l) [] 0%Z)
      as (taken & rest & Hrev & Hres & Hb & Hnext).
    exists (rev rest), (rev taken). repeat split.
    + rewrite <- rev_app_distr, <- Hrev. now rewrite rev_involutive.
    + rewrite Hres. now rewrite app_nil_r.
    + exact El.
    + rewrite total_rev. destruct taken as [|t taken]; [now destruct H|].
      specialize (Hb ltac:(discriminate)). lia.
    + intros s before_s _ Hd.
      assert (Hrest : rest = s :: rev before_s).
      { rewrite <- (rev_involutive rest), Hd, rev_app_distr. reflexivity. }
      specialize (Hnext _ _ Hrest). rewrite total_rev. lia.
Qed.

(** A chunker with small limits and the fallback counter. *)
Definition small_chunker : Chunking.LegalChunker := Chunking.mkChunker 5 2 0 None.

(** X22 on three two-word sentences with an overlap of two tokens: the
    overlap is a final part of the chunk. *)
Lemma X22_witness :
  exists dropped kept,
    ["A b."; "C d."; "E f."] = dropped ++ kept
    /\ Chunking._get_overlap_text small_chunker ["A b."; "C d."; "E f."]
       = PyStr.join " " kept
    /\ (kept <> [] ->
        (total small_chunker kept <= 2)%Z).
Proof.
  destruct (X22_overlap_is_a_bounded_suffix small_chunker
              ["A b."; "C d."; "E f."])
    as (dropped & kept & H1 & H2 & H3 & _).
  exists dropped, kept. split; [exact H1|]. split; [exact H2|].
  intros Hk. exact (proj2 (H3 Hk)).
Defined.

Lemma overlap_text_suffix self l :
  exists dropped kept,
    l = dropped ++ kept
    /\ Chunking._get_overlap_text self l = PyStr.join " " kept.
Proof.
  unfold Chunking._get_overlap_text.
  destruct (List.length l <? 2)%nat.
  - exists l, []. now rewrite app_nil_r.
  - destruct (overlap_loop_spec self (rev l) [] 0%Z)
      as (taken & rest & Hrev & Hres & _).
    exists (rev rest), (rev taken). split.
    + rewrite <- rev_app_distr, <- Hrev. now rewrite rev_involutive.
    + rewrite Hres. now rewrite app_nil_r.
Qed.

Lemma append_length a b :
  String.length (a ++ b) = String.length a + String.length b.
Proof. induction a as [|c a IH]; simpl; [reflexivity | now rewrite IH]. Qed.

Lemma join_cons p parts :
  parts <> [] ->
  PyStr.join " " (p :: parts) = (p ++ String " " (PyStr.join " " parts))%string.
Proof. destruct parts; [congruence | reflexivity]. Qed.

Lemma join_suffix_length dropped kept :
  String.length (PyStr.join " " kept)
  <= String.length (PyStr.join " " (dropped ++ kept)).
Proof.
  induction dropped as [|d dropped IH]; [simpl; lia|].
  change ((d :: dropped) ++ kept) with (d :: (dropped ++ kept)).
  destruct (dropped ++ kept) as [|x r] eqn:E.
  - destruct dropped; [|simpl in E; discriminate]. simpl in E. subst kept.
    simpl. lia.
  - rewrite join_cons by discriminate. rewrite append_length.
    cbn [String.length]. lia.
Qed.

Lemma join_nonempty parts :
  parts <> [] -> Forall (fun p => p <> EmptyString) parts ->
  PyStr.join " " parts <> EmptyString.
Proof.
  intros Hne Hall. destruct parts as [|p parts]; [congruence|].
  inversion Hall as [|? ? Hp _]; subst.
  destruct parts as [|q parts].
  - exact Hp.
  - rewrite join_cons by discriminate. destruct p; [congruence | discriminate].
Qed.

Lemma overlap_text_length self parts :
  String.length (Chunking._get_overlap_text self parts)
  <= String.length (PyStr.join " " parts).
Proof.
  destruct (overlap_text_suffix self parts) as (dropped & kept & -> & ->).
  apply join_suffix_length.
Qed.

Definition last_chunk (l : list Chunking.Chunk) : option Chunking.Chunk :=
  List.last (map Some l) None.

Lemma last_chunk_snoc l c : last_chunk (l ++ [c]) = Some c.
Proof.
  unfold last_chunk. rewrite map_app. simpl. apply last_last.
Qed.

(** Two consecutive chunks: the later one starts inside the span of the
    earlier one. *)
Definition follows (c1 c2 : Chunking.Chunk) : Prop :=
  (Chunking.start_pos c1 <= Chunking.start_pos c2)%Z
  /\ (Chunking.start_pos c2 <= Chunking.end_pos c1)%Z.

Lemma sorted_snoc {A : Type} (R : A -> A -> Prop) l c :
  Sorted R l ->
  (forall x, List.last (map Some l) None = Some x -> R x c) ->
  Sorted R (l ++ [c]).
Proof.
  induction l as [|a l IH]; intros Hs Hl; simpl.
  - repeat constructor.
  - apply Sorted_inv in Hs as [Hs Hhd].
    destruct l as [|b l].
    + simpl. repeat constructor. apply Hl. reflexivity.
    + constructor.
      * apply IH; [exact Hs|]. intros x Hx. apply Hl. exact Hx.
      * inversion Hhd; subst. simpl. now constructor.
Qed.

(** A chunk as [make_chunk] builds it from parts that are not empty. *)
Definition well_made (ty : option string) (c : Chunking.Chunk) : Prop :=
  exists parts start,
    parts <> [] /\ Forall (fun p => p <> EmptyString) parts
    /\ c = Chunking.make_chunk ty parts start.

Record chunk_inv (ty : option string) (off : Z) (st : Chunking.LoopState) : Prop := {
  ci_parts : Forall (fun p => p <> EmptyString) (Chunking.current_chunk st);
  ci_made : Forall (well_made ty) (Chunking.chunks st);
  ci_chain : Sorted follows (Chunking.chunks st);
  ci_first : forall c, hd_error (Chunking.chunks st) = Some c ->
                       Chunking.start_pos c = off;
  ci_link : match last_chunk (Chunking.chunks st) with
            | None => Chunking.current_start st = off
            | Some c => (Chunking.start_pos c <= Chunking.current_start st)%Z
                        /\ (Chunking.current_start st <= Chunking.end_pos c)%Z
            end
}.

Lemma nonempty_spec s : PyStr.nonempty s = true <-> s <> EmptyString.
Proof. destruct s; simpl; split; congruence. Qed.

Lemma hd_error_snoc {A : Type} (l : list A) c x :
  hd_error (l ++ [c]) = Some x ->
  (l = [] /\ x = c) \/ hd_error l = Some x.
Proof. destruct l; simpl; intros [= <-]; auto. Qed.

Lemma snoc_chunk_inv ty off st parts :
  chunk_inv ty off st ->
  parts <> [] -> Forall (fun p => p <> EmptyString) parts ->
  let c := Chunking.make_chunk ty parts (Chunking.current_start st) in
  Forall (well_made ty) (Chunking.chunks st ++ [c])
  /\ Sorted follows (Chunking.chunks st ++ [c])
  /\ (forall x, hd_error (Chunking.chunks st ++ [c]) = Some x ->
                Chunking.start_pos x = off).
Proof.
  intros [Hp Hm Hc Hf Hl] Hne Hall c. repeat split.
  - apply Forall_app. split; [exact Hm|]. constructor; [|constructor].
    exists parts, (Chunking.current_start st). auto.
  - apply sorted_snoc; [exact Hc|]. intros x Hx.
    fold (last_chunk (Chunking.chunks st)) in Hx. rewrite Hx in Hl.
    exact Hl.
  - intros x Hx. apply hd_error_snoc in Hx as [[Hnil ->]|Hx]; [|auto].
    rewrite Hnil in Hl. exact Hl.
Qed.

Lemma chunk_step_chunk_inv self ty off st sentence :
  chunk_inv ty off st -> sentence <> EmptyString ->
  chunk_inv ty off (Chunking.chunk_step self ty st sentence).
Proof.
  intros Hinv Hs. unfold Chunking.chunk_step.
  destruct (Chunking.closes self st sentence) eqn:Ecl.
  - unfold Chunking.closes in Ecl. apply andb_true_iff in Ecl as [_ Hcur].
    assert (Hne : Chunking.current_chunk st <> []).
    { destruct (Chunking.current_chunk st); [discriminate | discriminate]. }
    destruct (snoc_chunk_inv ty off st (Chunking.current_chunk st) Hinv Hne
                (ci_parts _ _ _ Hinv)) as (Hm & Hc & Hf).
    constructor; cbn [Chunking.close_chunk Chunking.chunks
                      Chunking.current_chunk Chunking.current_start].
    + apply Forall_app. split; [|repeat constructor; exact Hs].
      destruct (PyStr.nonempty _) eqn:En; [|constructor].
      constructor; [|constructor]. now apply nonempty_spec.
    + exact Hm.
    + exact Hc.
    + exact Hf.
    + rewrite last_chunk_snoc.
      pose proof (overlap_text_length self (Chunking.current_chunk st)) as Hlen.
      unfold Chunking.make_chunk at 1 2.
      cbn [Chunking.start_pos Chunking.end_pos].
      unfold Chunking.make_chunk. cbn [Chunking.end_pos]. unfold PyStr.len.
      destruct (PyStr.nonempty _); lia.
  - destruct Hinv as [Hp Hm Hc Hf Hl]. constructor; simpl; auto.
    apply Forall_app. split; [exact Hp | repeat constructor; exact Hs].
Qed.

Lemma chunk_loop_chunk_inv self ty off sentences : forall st,
  chunk_inv ty off st ->
  Forall (fun s => s <> EmptyString) sentences ->
  chunk_inv ty off (fold_left (Chunking.chunk_step self ty) sentences st).
Proof.
  induction sentences as [|s l IH]; intros st Hinv Hall; simpl; [exact Hinv|].
  inversion Hall; subst. apply IH; [|assumption].
  now apply chunk_step_chunk_inv.
Qed.

Lemma split_sentences_not_empty text :
  Forall (fun s => s <> EmptyString) (Chunking._split_sentences text).
Proof.
  unfold Chunking._split_sentences. apply Forall_forall. intros s Hin.
  apply in_map_iff in Hin as (p & <- & Hp).
  apply filter_In in Hp as [_ Hp]. now apply nonempty_spec.
Qed.

Lemma chunk_text_shape self text ty off :
  Forall (well_made ty) (Chunking._chunk_text self text ty off)
  /\ Sorted follows (Chunking._chunk_text self text ty off)
  /\ (forall c, hd_error (Chunking._chunk_text self text ty off) = Some c ->
                Chunking.start_pos c = off).
Proof.
  unfold Chunking._chunk_text, Chunking.loop_end.
  assert (Hinit : chunk_inv ty off (Chunking.mkLoop [] [] 0 off)).
  { constructor; simpl; auto. discriminate. }
  pose proof (chunk_loop_chunk_inv self ty off _ _ Hinit
                (split_sentences_not_empty text)) as Hinv.
  set (st := fold_left _ _ _) in *. cbv zeta.
  unfold Chunking.trailing.
  destruct (Chunking.current_chunk st) as [|p parts] eqn:Ecur.
  - rewrite app_nil_r. destruct Hinv; auto.
  - destruct (_ >=? _)%Z.
    + apply snoc_chunk_inv; [exact Hinv | discriminate |].
      rewrite <- Ecur. apply Hinv.
    + rewrite app_nil_r. destruct Hinv; auto.
Qed.

(** The labels of [section_patterns]. *)
Definition section_labels : list string :=
  ["facts"; "analysis"; "conclusion"; "headnote"; "issue"].

(** Two kept section markers: the later one starts more than 500
    characters after the earlier one. *)
Definition apart (a b : Chunking.DocSection) : Prop :=
  (Chunking.sec_start a + 500 < Chunking.sec_start b)%Z.

(** The markers found by the patterns, before they are sorted. *)
Definition section_markers (text : string) : list Chunking.DocSection :=
  flat_map
    (fun tp : string * Re.regex =>
       map (fun m =>
              Chunking.mkDocSection (fst tp) (Z.of_nat (Re.m_start m))
                (Z.of_nat (Re.m_end m)) (PyStr.drop (Re.m_end m) text))
           (Re.finditer true (snd tp) (PyStr.upper text)))
    Chunking.section_patterns.

Lemma detect_sections_markers text :
  Chunking._detect_sections text
  = fold_left Chunking.clean_step
      (Py.sorted (fun a b => (Chunking.sec_start a <? Chunking.sec_start b)%Z)
                 (section_markers text)) [].
Proof.
  unfold Chunking._detect_sections, section_markers. cbv zeta.
  reflexivity.
Qed.

Lemma clean_step_cases cleaned s :
  Chunking.clean_step cleaned s = cleaned
  \/ (Chunking.clean_step cleaned s = cleaned ++ [s]
      /\ forall prev, List.last (map Some cleaned) None = Some prev ->
                      apart prev s).
Proof.
  unfold Chunking.clean_step.
  destruct (List.last (map Some cleaned) None) as [prev|] eqn:El.
  - destruct (_ >? _)%Z eqn:E; [right | now left].
    split; [reflexivity|]. intros p [= <-]. unfold apart.
    apply Z.gtb_lt in E. lia.
  - right. split; [reflexivity | discriminate].
Qed.

Lemma clean_loop_inv l : forall cleaned,
  Sorted apart cleaned ->
  Sorted apart (fold_left Chunking.clean_step l cleaned)
  /\ (forall s, In s (fold_left Chunking.clean_step l cleaned) ->
                In s cleaned \/ In s l)
  /\ (forall s, In s cleaned -> In s (fold_left Chunking.clean_step l cleaned)).
Proof.
  induction l as [|a l IH]; intros cleaned Hs; simpl.
  - auto.
  - destruct (clean_step_cases cleaned a) as [E|[E Hlast]]; rewrite E.
    + destruct (IH cleaned Hs) as (H1 & H2 & H3). repeat split; auto.
      intros s H. apply H2 in H. tauto.
    + destruct (IH (cleaned ++ [a]) (sorted_snoc apart cleaned a Hs Hlast))
        as (H1 & H2 & H3).
      repeat split; auto.
      * intros s H. apply H2 in H. rewrite in_app_iff in H. simpl in H. tauto.
      * intros s H. apply H3. apply in_or_app. now left.
Qed.

Lemma clean_loop_first a l :
  In a (fold_left Chunking.clean_step (a :: l) []).
Proof.
  simpl. apply (clean_loop_inv l [a]).
  - repeat constructor.
  - now left.
Qed.

Lemma section_patterns_consume :
  forallb (fun tp : string * Re.regex => negb (Re.nullable (snd tp)))
          Chunking.section_patterns = true.
Proof. vm_compute. reflexivity. Qed.

Lemma drop_all n : forall s, String.length s <= n -> PyStr.drop n s = EmptyString.
Proof.
  induction n as [|n IH]; intros [|c s] H; simpl in *; try reflexivity; try lia.
  apply IH. lia.
Qed.

Lemma from_z_of_nat s n : PyStr.from_z s (Z.of_nat n) = PyStr.drop n s.
Proof.
  unfold PyStr.from_z, PyStr.clip, PyStr.len.
  destruct (Z.of_nat n <? 0)%Z eqn:E; [apply Z.ltb_lt in E; lia|].
  destruct (Nat.le_gt_cases n (String.length s)) as [Hle|Hgt].
  - rewrite Z.min_l by lia. now rewrite Nat2Z.id.
  - rewrite Z.min_r by lia. rewrite Nat2Z.id.
    rewrite !drop_all by lia. reflexivity.
Qed.

Lemma section_marker_shape text s :
  In s (section_markers text) ->
  In (Chunking.sec_type s) section_labels
  /\ (0 <= Chunking.sec_start s < Chunking.sec_end s)%Z
  /\ (Chunking.sec_end s <= PyStr.len (PyStr.upper text))%Z
  /\ Chunking.sec_text s = PyStr.from_z text (Chunking.sec_end s).
Proof.
  unfold section_markers. intros H.
  apply in_flat_map in H as ([ty p] & Htp & H).
  apply in_map_iff in H as (m & <- & Hm).
  cbn [Chunking.sec_type Chunking.sec_start Chunking.sec_end Chunking.sec_text
       fst snd] in *.
  pose proof section_patterns_consume as Hall.
  rewrite forallb_forall in Hall. specialize (Hall _ Htp).
  cbn [snd] in Hall. apply negb_true_iff in Hall.
  pose proof (finditer_nonempty _ _ _ _ Hall Hm) as Hlt.
  destruct (finditer_within _ _ _ _ Hm) as (_ & _ & Hend & _).
  repeat split.
  - apply (in_map fst) in Htp. exact Htp.
  - lia.
  - lia.
  - unfold PyStr.len. lia.
  - now rewrite from_z_of_nat.
Qed.

(** X25.  The sections that [_detect_sections] keeps are more than 500
    characters apart, each from the one kept before it; each carries one
    of the five labels, the span of a marker that is not empty, found in
    the upper-cased text, and the original text from the end of the
    marker on.  No section is reported exactly when no marker occurs. *)
Theorem X25_detected_sections_are_spaced :
  forall text,
    Sorted apart (Chunking._detect_sections text)
    /\ (forall s, In s (Chunking._detect_sections text) ->
          In (Chunking.sec_type s) section_labels
          /\ (0 <= Chunking.sec_start s < Chunking.sec_end s)%Z
          /\ (Chunking.sec_end s <= PyStr.len (PyStr.upper text))%Z
          /\ Chunking.sec_text s = PyStr.from_z text (Chunking.sec_end s))
    /\ (Chunking._detect_sections text = [] <-> section_markers text = []).
Proof.
  intros text. rewrite detect_sections_markers.
  set (lt := fun a b => (Chunking.sec_start a <? Chunking.sec_start b)%Z).
  destruct (clean_loop_inv (Py.sorted lt (section_markers text)) [])
    as (Hs & Hin & _); [constructor|].
  split; [exact Hs|]. split.
  - intros s H. apply Hin in H as [[]|H].
    apply (proj1 (sorted_In lt _ _)) in H. exact (section_marker_shape text s H).
  - split; intros H.
    + destruct (Py.sorted lt (section_markers text)) as [|a l] eqn:E.
      * pose proof (sorted_perm lt (section_markers text)) as Hp.
        rewrite E in Hp. now apply Permutation_nil in Hp.
      * pose proof (clean_loop_first a l) as Ha. rewrite H in Ha. destruct Ha.
    + rewrite H. reflexivity.
Qed.

(** X25 on a text with one marker. *)
Lemma X25_witness :
  let s := Chunking.mkDocSection "facts" 4 9 " of the case" in
  In (Chunking.sec_type s) section_labels
  /\ (0 <= Chunking.sec_start s < Chunking.sec_end s)%Z
  /\ (Chunking.sec_end s <= PyStr.len (PyStr.upper "The facts of the case"))%Z
  /\ Chunking.sec_text s
     = PyStr.from_z "The facts of the case" (Chunking.sec_end s).
Proof.
  apply (proj1 (proj2 (X25_detected_sections_are_spaced
                         "The facts of the case"))).
  vm_compute. left. reflexivity.
Defined.

Lemma well_made_shape ty c :
  well_made ty c ->
  Chunking.end_pos c = (Chunking.start_pos c + PyStr.len (Chunking.text c))%Z
  /\ Chunking.text c <> EmptyString
  /\ Chunking.section_type c = ty
  /\ Chunking.page_number c = None
  /\ Chunking.metadata c = [].
Proof.
  intros (parts & start & Hne & Hall & ->). unfold Chunking.make_chunk.
  cbn. repeat split. now apply join_nonempty.
Qed.

Lemma chunk_cases self text c :
  In c (Chunking.chunk self text) ->
  (Chunking._detect_sections text = [] /\ well_made None c)
  \/ exists s, In s (Chunking._detect_sections text)
               /\ well_made (Some (Chunking.sec_type s)) c.
Proof.
  unfold Chunking.chunk.
  destruct (Chunking._detect_sections text) as [|s0 secs] eqn:E; intros H.
  - left. split; [reflexivity|].
    destruct (chunk_text_shape self text None 0) as (Hm & _).
    rewrite Forall_forall in Hm. auto.
  - right. apply in_flat_map in H as (s & Hs & H). exists s. split; [exact Hs|].
    destruct (chunk_text_shape self (Chunking.sec_text s)
                (Some (Chunking.sec_type s)) (Chunking.sec_start s)) as (Hm & _).
    rewrite Forall_forall in Hm. auto.
Qed.

(** X23.  Every chunk that [chunk] returns has a text that is not empty,
    an end that is its start plus the length of its text, no page number
    and empty metadata.  Its section type is missing exactly when the
    text has no section marker, and is otherwise one of the five
    labels. *)
Theorem X23_chunks_are_well_formed :
  forall self text c,
    In c (Chunking.chunk self text) ->
    Chunking.text c <> EmptyString
    /\ Chunking.end_pos c = (Chunking.start_pos c + PyStr.len (Chunking.text c))%Z
    /\ Chunking.page_number c = None
    /\ Chunking.metadata c = []
    /\ (Chunking.section_type c = None <-> Chunking._detect_sections text = [])
    /\ (forall label, Chunking.section_type c = Some label ->
                      In label section_labels).
Proof.
  intros self text c H.
  destruct (chunk_cases self text c H) as [[Hnone Hw]|(s & Hs & Hw)];
    apply well_made_shape in Hw as (Hend & Htext & Hty & Hpage & Hmeta);
    repeat split; auto.
  - intros label Hl. congruence.
  - intros Hn. congruence.
  - intros Hn. rewrite Hn in Hs. destruct Hs.
  - intros label Hl. rewrite Hty in Hl. injection Hl as <-.
    rewrite detect_sections_markers in Hs.
    set (lt := fun a b => (Chunking.sec_start a <? Chunking.sec_start b)%Z) in Hs.
    destruct (clean_loop_inv (Py.sorted lt (section_markers text)) [])
      as (_ & Hin & _); [constructor|].
    apply Hin in Hs as [[]|Hs]. apply (proj1 (sorted_In lt _ _)) in Hs.
    exact (proj1 (section_marker_shape text s Hs)).
Qed.

(** Three sentences of three words. *)
Definition three_sentences : string := "A b c. D e f. G h i.".

(** X23 at the first chunk of [three_sentences]. *)
Lemma X23_witness :
  let c := Chunking.mkChunk "A b c." 0 6 None None [] in
  Chunking.text c <> EmptyString
  /\ Chunking.end_pos c = (Chunking.start_pos c + PyStr.len (Chunking.text c))%Z
  /\ Chunking.page_number c = None
  /\ Chunking.metadata c = []
  /\ (Chunking.section_type c = None
      <-> Chunking._detect_sections three_sentences = [])
  /\ (forall label, Chunking.section_type c = Some label ->
                    In label section_labels).
Proof.
  apply (X23_chunks_are_well_formed small_chunker three_sentences).
  vm_compute. left. reflexivity.
Defined.

(** X24.  The chunks of one call of [_chunk_text] form a chain: the first
    one starts at the start offset, and each later one starts inside the
    span of the chunk before it, not before that chunk's start and not
    after its end. *)
Theorem X24_chunks_form_a_chain :
  forall self text section_type start_offset,
    Sorted follows (Chunking._chunk_text self text section_type start_offset)
    /\ (forall c,
          hd_error (Chunking._chunk_text self text section_type start_offset)
          = Some c ->
          Chunking.start_pos c = start_offset).
Proof.
  intros self text ty off.
  destruct (chunk_text_shape self text ty off) as (_ & Hs & Hf). auto.
Qed.

(** X24 on [three_sentences]: the first chunk starts at the offset. *)
Lemma X24_witness :
  Chunking.start_pos (Chunking.mkChunk "A b c." 7 13 None None []) = 7%Z.
Proof.
  apply (proj2 (X24_chunks_form_a_chain small_chunker three_sentences None 7)).
  vm_compute. reflexivity.
Defined.

Lemma words_total_bounds self parts :
  Chunking.tokenizer self = None ->
  (10 * total self parts
   <= 13 * Z.of_nat (List.length (flat_map PyStr.split parts)))%Z
  /\ (13 * Z.of_nat (List.length (flat_map PyStr.split parts))
      <= 10 * total self parts + 9 * Z.of_nat (List.length parts))%Z.
Proof.
  intros Htok. induction parts as [|p parts [IH1 IH2]].
  - simpl. lia.
  - cbn [flat_map total List.length]. rewrite length_app.
    unfold total in *. cbn [map fold_right].
    unfold Chunking._count_tokens at 1 3. rewrite Htok.
    set (w := Z.of_nat (List.length (PyStr.split p))).
    pose proof (Z.div_mod (13 * w) 10 ltac:(lia)) as Hdm.
    pose proof (Z.mod_pos_bound (13 * w) 10 ltac:(lia)) as Hb.
    rewrite Nat2Z.inj_add, Nat2Z.inj_succ. fold w. lia.
Qed.

(** X26.  With the fallback counter (no tokenizer), the token count of a
    joined chunk text is at least the sum of the counts of its parts,
    which is the running total of the loop, and exceeds it by at most
    nine tenths of a token for each part. *)
Theorem X26_fallback_count_of_joined_text :
  forall self parts,
    Chunking.tokenizer self = None ->
    (total self parts
     <= Chunking._count_tokens self (PyStr.join " " parts))%Z
    /\ (Chunking._count_tokens self (PyStr.join " " parts)
        <= total self parts + 9 * Z.of_nat (List.length parts) / 10)%Z.
Proof.
  intros self parts Htok.
  destruct (words_total_bounds self parts Htok) as [H1 H2].
  unfold Chunking._count_tokens at 1 2. rewrite Htok, split_join.
  set (W := Z.of_nat (List.length (flat_map PyStr.split parts))) in *.
  set (n := Z.of_nat (List.length parts)) in *.
  split.
  - apply Z.div_le_lower_bound; lia.
  - transitivity ((10 * total self parts + 9 * n) / 10)%Z.
    + apply Z.div_le_mono; lia.
    + replace (10 * total self parts + 9 * n)%Z
        with (9 * n + total self parts * 10)%Z by lia.
      rewrite Z.div_add by lia. lia.
Qed.

(** X26 on three parts of three words: the parts count 3 tokens each,
    the joined text 11. *)
Lemma X26_witness :
  (total small_chunker ["A b c."; "D e f."; "G h i."]
   <= Chunking._count_tokens small_chunker
        (PyStr.join " " ["A b c."; "D e f."; "G h i."]))%Z
  /\ (Chunking._count_tokens small_chunker
        (PyStr.join " " ["A b c."; "D e f."; "G h i."])
      <= total small_chunker ["A b c."; "D e f."; "G h i."]
         + 9 * Z.of_nat (List.length ["A b c."; "D e f."; "G h i."]) / 10)%Z.
Proof.
  apply (X26_fallback_count_of_joined_text small_chunker).
  reflexivity.
Defined.

(* ================================================================== *)
(** * Further facts about hybrid retrieval *)
(* ================================================================== *)

Lemma for_each_all {A B : Type} (f : A -> Hybrid.result B) (P : B -> Prop) l :
  (forall a, In a l -> exists b, f a = Hybrid.Ok b /\ P b) ->
  exists out,
    Hybrid.for_each f l = Hybrid.Ok out
    /\ Forall P out /\ List.length out = List.length l.
Proof.
  induction l as [|a l IH]; intros H; simpl.
  - exists []. auto.
  - destruct (H a (or_introl eq_refl)) as (b & -> & Hb).
    destruct IH as (out & -> & Hall & Hlen); [intros x Hx; apply H; now right|].
    exists (b :: out). simpl. auto.
Qed.

Lemma concat_short {A : Type} (P : A -> Prop) (ls : list (list A)) :
  Forall (fun l => List.length l <= 1 /\ Forall P l) ls ->
  List.length (concat ls) <= List.length ls /\ Forall P (concat ls).
Proof.
  induction 1 as [|l ls [Hl Hp] _ [IH1 IH2]]; simpl.
  - auto.
  - rewrite length_app. split; [lia|]. apply Forall_app. auto.
Qed.

(** X27.  [build_index] refuses lists of different lengths with a
    [ValueError].  On an index it has built from at least one document
    (the library rejects an empty corpus), with one score for each
    document and valid indices from the sort, [retrieve] returns at most
    [top_k] pairs (for a [top_k] that is not negative); each pairs the
    chunk id and the score of one document of the index, and every score
    is positive. *)
Theorem X27_lexical_hits_are_positive :
  forall get_scores argsort self documents ids,
    (List.length documents <> List.length ids ->
     Hybrid.build_index self documents ids
     = Hybrid.Raise
         (Hybrid.ValueError "Documents and chunk_ids must have same length"))
    /\ (forall built query top_k,
          documents <> [] ->
          Hybrid.build_index self documents ids = Hybrid.Ok built ->
          (forall scores idx,
             In idx (argsort scores) -> idx < List.length scores) ->
          (forall k1 b index q,
             List.length (get_scores k1 b index q) = List.length index) ->
          exists results,
            Hybrid.bm25_retrieve get_scores argsort built query top_k
            = Hybrid.Ok results
            /\ (forall id s,
                  In (id, s) results ->
                  (0 < s)%Q
                  /\ exists idx,
                       nth_error ids idx = Some id
                       /\ nth_error
                            (get_scores (Hybrid.k1 self) (Hybrid.b self)
                               (map Hybrid._tokenize documents)
                               (Hybrid._tokenize query)) idx = Some s)
            /\ ((0 <= top_k)%Z -> (Z.of_nat (List.length results) <= top_k)%Z)).
Proof.
  intros get_scores argsort self documents ids. unfold Hybrid.build_index.
  split.
  - intros Hne. apply Nat.eqb_neq in Hne. now rewrite Hne.
  - intros built query top_k _ Hbuilt Hidx Hlen.
    destruct (List.length documents =? List.length ids)%nat eqn:El;
      [|discriminate].
    apply Nat.eqb_eq in El. simpl in Hbuilt. injection Hbuilt as <-.
    unfold Hybrid.bm25_retrieve.
    cbn [Hybrid._is_initialized Hybrid.bm25 Hybrid.k1 Hybrid.b
         Hybrid.chunk_ids negb].
    set (scores := get_scores (Hybrid.k1 self) (Hybrid.b self)
                     (map Hybrid._tokenize documents) (Hybrid._tokenize query)).
    set (top_indices := Py.prefix (rev (argsort scores)) top_k).
    set (hit := fun p : Hybrid.candidate =>
                  (0 < snd p)%Q
                  /\ exists idx, nth_error ids idx = Some (fst p)
                                 /\ nth_error scores idx = Some (snd p)).
    match goal with
    | |- context [Hybrid.for_each ?f top_indices] =>
        destruct (for_each_all f
                    (fun l => List.length l <= 1 /\ Forall hit l) top_indices)
          as (found & Efound & Hall & Hfl)
    end.
    { intros idx Hin. apply prefix_In in Hin. apply in_rev in Hin.
      apply Hidx in Hin.
      destruct (nth_error scores idx) as [s|] eqn:Es;
        [|apply nth_error_None in Es; lia].
      destruct (Py.Qltb 0 s) eqn:Epos.
      - destruct (nth_error ids idx) as [id|] eqn:Eid.
        + eexists. split; [reflexivity|]. split; [simpl; lia|].
          constructor; [|constructor]. split.
          * now apply Qltb_spec in Epos.
          * exists idx. auto.
        + apply nth_error_None in Eid. unfold scores in Hin.
          rewrite Hlen, length_map in Hin. lia.
      - eexists. split; [reflexivity|]. split; [simpl; lia | constructor]. }
    rewrite Efound. cbn [Hybrid.bind].
    destruct (concat_short hit found Hall) as [Hshort Hhits].
    eexists. split; [reflexivity|]. split.
    + intros id s Hin. rewrite Forall_forall in Hhits.
      exact (Hhits _ Hin).
    + intros Htop. pose proof (prefix_length (rev (argsort scores)) top_k Htop).
      fold top_indices in H. rewrite <- Hfl in H.
      apply Nat2Z.inj_le in Hshort. eapply Z.le_trans; eassumption.
Qed.

(** A scorer that counts the query words a document holds, and a sort
    that leaves the indices in place. *)
Definition count_hits (_ _ : Q) (index : list (list string)) (q : list string)
    : list Q :=
  map (fun doc =>
         inject_Z (Z.of_nat (List.length
                               (filter (fun w => existsb (String.eqb w) doc) q))))
      index.

Definition in_place (scores : list Q) : list nat := seq 0 (List.length scores).

(** X27 on an index of two documents: one hit for "bail". *)
Lemma X27_witness :
  exists results,
    Hybrid.bm25_retrieve count_hits in_place
      (Hybrid.mkBM25 (15 # 10) (75 # 100)
         (Some [["bail"; "granted"]; ["appeal"; "dismissed"]])
         ["Bail granted"; "Appeal dismissed"] [11%Z; 12%Z] true)
      "bail" 10
    = Hybrid.Ok results
    /\ ((0 <= 10)%Z -> (Z.of_nat (List.length results) <= 10)%Z).
Proof.
  destruct (proj2 (X27_lexical_hits_are_positive count_hits in_place
                     (Hybrid.new_bm25 (15 # 10) (75 # 100))
                     ["Bail granted"; "Appeal dismissed"] [11%Z; 12%Z])
                  (Hybrid.mkBM25 (15 # 10) (75 # 100)
                     (Some [["bail"; "granted"]; ["appeal"; "dismissed"]])
                     ["Bail granted"; "Appeal dismissed"] [11%Z; 12%Z] true)
                  "bail" 10%Z)
    as (results & H1 & _ & H3).
  - discriminate.
  - vm_compute. reflexivity.
  - intros scores idx H. unfold in_place in H. apply in_seq in H. lia.
  - intros k1 b index q. unfold count_hits. apply length_map.
  - exists results. split; [exact H1 | exact H3].
Defined.

Lemma index_from_nth ids : forall r n,
  NoDup ids -> n < List.length ids ->
  exists id, In id ids /\ index_from id ids r = Some (r + Z.of_nat n)%Z.
Proof.
  induction ids as [|c ids IH]; intros r n Hnd Hn; simpl in Hn; [lia|].
  inversion Hnd as [|? ? Hc Hnd']; subst.
  destruct n as [|n].
  - exists c. split; [now left|]. simpl. rewrite Z.eqb_refl. f_equal. lia.
  - destruct (IH (r + 1)%Z n Hnd' ltac:(lia)) as (id & Hin & Hid).
    exists id. split; [now right|]. simpl.
    destruct (c =? id)%Z eqn:E; [apply Z.eqb_eq in E; congruence|].
    rewrite Hid. f_equal. lia.
Qed.

(** The division fails in two ways only. *)
Lemma reciprocal_raises r k e :
  Hybrid.reciprocal r k = Hybrid.Raise e ->
  e = Hybrid.ZeroDivisionError \/ e = Hybrid.OverflowError.
Proof.
  unfold Hybrid.reciprocal. cbv zeta.
  destruct (PyFloat.is_infinite _); [intros [= <-]; now right|].
  destruct (PyFloat.is_zero _); [intros [= <-]; now left | discriminate].
Qed.

Lemma reciprocal_zero r k :
  (r + k = 0)%Z -> Hybrid.reciprocal r k = Hybrid.Raise Hybrid.ZeroDivisionError.
Proof. intros H. unfold Hybrid.reciprocal. rewrite H. reflexivity. Qed.

Lemma reciprocal_no_overflow r k :
  (Z.abs (r + k) < 2 ^ 53)%Z ->
  Hybrid.reciprocal r k <> Hybrid.Raise Hybrid.OverflowError.
Proof.
  intros H. unfold Hybrid.reciprocal. cbv zeta.
  rewrite (proj1 (of_int_small _ H)).
  destruct (PyFloat.is_zero _); discriminate.
Qed.

Lemma add_rank_raises ranks k id score e :
  Hybrid.add_rank ranks k id score = Hybrid.Raise e ->
  exists r,
    Hybrid.dict_get ranks id = Some r
    /\ Hybrid.reciprocal r k = Hybrid.Raise e.
Proof.
  unfold Hybrid.add_rank.
  destruct (Hybrid.dict_get ranks id) as [r|]; [|discriminate].
  destruct (Hybrid.reciprocal r k) as [x|e'] eqn:E; simpl; [discriminate|].
  intros [= <-]. eauto.
Qed.

Lemma rrf_score_raises bm25_ranks vector_ranks k id e :
  Hybrid.rrf_score bm25_ranks vector_ranks k id = Hybrid.Raise e ->
  exists r,
    (Hybrid.dict_get bm25_ranks id = Some r
     \/ Hybrid.dict_get vector_ranks id = Some r)
    /\ Hybrid.reciprocal r k = Hybrid.Raise e.
Proof.
  unfold Hybrid.rrf_score.
  destruct (Hybrid.add_rank bm25_ranks k id PyFloat.zero) as [s1|e1] eqn:E1;
    simpl.
  - destruct (Hybrid.add_rank vector_ranks k id s1) as [s2|e2] eqn:E2; simpl;
      [discriminate|].
    intros [= <-]. apply add_rank_raises in E2 as (r & Hr & He). eauto.
  - intros [= <-]. apply add_rank_raises in E1 as (r & Hr & He). eauto.
Qed.

Lemma rrf_score_zero bm25_ranks vector_ranks k id r :
  Hybrid.dict_get bm25_ranks id = Some r
  \/ Hybrid.dict_get vector_ranks id = Some r ->
  (r + k = 0)%Z ->
  exists e, Hybrid.rrf_score bm25_ranks vector_ranks k id = Hybrid.Raise e.
Proof.
  intros Hr H0. unfold Hybrid.rrf_score.
  destruct (Hybrid.add_rank bm25_ranks k id PyFloat.zero) as [s1|e1] eqn:E1;
    simpl; [|eauto].
  unfold Hybrid.add_rank in *.
  destruct Hr as [Hr|Hr]; rewrite Hr in *.
  - rewrite (reciprocal_zero r k H0) in E1. discriminate.
  - rewrite (reciprocal_zero r k H0). simpl. eauto.
Qed.

(** A loop over a list that holds a failing element fails, with the
    error of one of its elements. *)
Lemma for_each_raises {A B : Type} (f : A -> Hybrid.result B) l x :
  In x l -> (exists e, f x = Hybrid.Raise e) ->
  exists y e,
    In y l /\ f y = Hybrid.Raise e /\ Hybrid.for_each f l = Hybrid.Raise e.
Proof.
  induction l as [|a l IH]; intros Hin Hx; [destruct Hin|].
  simpl. destruct (f a) as [b|e'] eqn:Ea; simpl.
  - destruct Hin as [->|Hin].
    + destruct Hx as (e & Hx). congruence.
    + destruct (IH Hin Hx) as (y & e & Hy & Hfy & Hl). rewrite Hl. simpl.
      exists y, e. auto.
  - exists a, e'. auto.
Qed.

(** X28.  A negative fusion constant that cancels a rank makes the
    fusion fail: for candidate lists with distinct chunk ids, when
    [-rrf_k] is a rank that one of the lists reaches,
    [_reciprocal_rank_fusion] raises.  The error is [ZeroDivisionError]
    for lists of fewer than 2^53 candidates; beyond that it can also be
    the [OverflowError] of a [rank + rrf_k] outside the range of
    doubles. *)
Theorem X28_cancelled_rank_divides_by_zero :
  forall union_order rrf_k bm25_results vector_results top_k,
    set_like union_order ->
    NoDup (map fst bm25_results) ->
    NoDup (map fst vector_results) ->
    (1 <= - rrf_k <= Z.of_nat (List.length bm25_results))%Z
    \/ (1 <= - rrf_k <= Z.of_nat (List.length vector_results))%Z ->
    (Hybrid._reciprocal_rank_fusion union_order rrf_k
       bm25_results vector_results top_k
     = Hybrid.Raise Hybrid.ZeroDivisionError
     \/ Hybrid._reciprocal_rank_fusion union_order rrf_k
          bm25_results vector_results top_k
        = Hybrid.Raise Hybrid.OverflowError)
    /\ ((Z.of_nat (List.length bm25_results) < 2 ^ 53)%Z ->
        (Z.of_nat (List.length vector_results) < 2 ^ 53)%Z ->
        Hybrid._reciprocal_rank_fusion union_order rrf_k
          bm25_results vector_results top_k
        = Hybrid.Raise Hybrid.ZeroDivisionError).
Proof.
  intros union_order k bm vec top_k Hset Hb Hv Hk.
  unfold Hybrid._reciprocal_rank_fusion.
  destruct (Hset (Hybrid.keys (Hybrid.ranks_of bm))
                 (Hybrid.keys (Hybrid.ranks_of vec))) as [_ Hin].
  assert (Hid : exists id,
            (In id (map fst bm) \/ In id (map fst vec))
            /\ (Hybrid.dict_get (Hybrid.ranks_of bm) id = Some (- k)%Z
                \/ Hybrid.dict_get (Hybrid.ranks_of vec) id = Some (- k)%Z)).
  { destruct Hk as [Hk|Hk].
    - destruct (index_from_nth (map fst bm) 1 (Z.to_nat (- k - 1)) Hb)
        as (id & Hi & Hp); [rewrite length_map; lia|].
      exists id. split; [now left|]. left.
      rewrite ranks_of_get by exact Hb. unfold position. rewrite Hp.
      f_equal. lia.
    - destruct (index_from_nth (map fst vec) 1 (Z.to_nat (- k - 1)) Hv)
        as (id & Hi & Hp); [rewrite length_map; lia|].
      exists id. split; [now right|]. right.
      rewrite ranks_of_get by exact Hv. unfold position. rewrite Hp.
      f_equal. lia. }
  destruct Hid as (id & Hmem & Hrank).
  destruct (for_each_raises
              (Hybrid.rrf_score (Hybrid.ranks_of bm) (Hybrid.ranks_of vec) k)
              (union_order (Hybrid.keys (Hybrid.ranks_of bm))
                           (Hybrid.keys (Hybrid.ranks_of vec))) id)
    as (y & e & _ & Hy & Hf).
  { apply Hin. rewrite !ranks_of_keys. exact Hmem. }
  { apply (rrf_score_zero _ _ _ _ (- k)%Z Hrank). lia. }
  rewrite Hf. cbn [Hybrid.bind].
  apply rrf_score_raises in Hy as (r & Hr & He).
  split.
  - destruct (reciprocal_raises r k e He) as [-> | ->]; auto.
  - intros Hlb Hlv.
    destruct (reciprocal_raises r k e He) as [-> | ->]; [reflexivity|].
    exfalso. apply (reciprocal_no_overflow r k); [|exact He].
    rewrite !ranks_of_get in Hr by assumption.
    destruct Hr as [Hr|Hr]; apply position_range in Hr;
      unfold Hybrid.candidate in *; lia.
Qed.

(** X28 with the constant -1 and one lexical result. *)
Lemma X28_witness :
  Hybrid._reciprocal_rank_fusion first_seen (-1) [(1%Z, (7 # 1)%Q)] [] 10
  = Hybrid.Raise Hybrid.ZeroDivisionError.
Proof.
  apply (proj2 (X28_cancelled_rank_divides_by_zero first_seen (-1)
                  [(1%Z, (7 # 1)%Q)] [] 10
                  first_seen_set_like
                  ltac:(repeat constructor; intros [])
                  ltac:(constructor)
                  ltac:(left; simpl; lia))).
  - vm_compute. reflexivity.
  - vm_compute. reflexivity.
Defined.

Lemma rank_loop_app pre post : forall r d,
  Hybrid.rank_loop (pre ++ post) r d
  = Hybrid.rank_loop post (r + Z.of_nat (List.length pre))%Z
      (Hybrid.rank_loop pre r d).
Proof.
  induction pre as [|[c s] pre IH]; intros r d.
  - simpl. now rewrite Z.add_0_r.
  - cbn [app Hybrid.rank_loop List.length]. rewrite IH. f_equal. lia.
Qed.

Lemma rank_loop_absent results : forall r d id,
  ~ In id (map fst results) ->
  Hybrid.dict_get (Hybrid.rank_loop results r d) id = Hybrid.dict_get d id.
Proof.
  induction results as [|[c s] rest IH]; intros r d id Hid; [reflexivity|].
  simpl in *. rewrite IH by tauto. rewrite dict_get_set.
  destruct (c =? id)%Z eqn:E; [apply Z.eqb_eq in E; tauto | reflexivity].
Qed.

Lemma dict_set_nodup {V : Type} (d : list (Z * V)) key value :
  NoDup (Hybrid.keys d) -> NoDup (Hybrid.keys (Hybrid.dict_set d key value)).
Proof.
  unfold Hybrid.keys. induction d as [|[k v] d IH]; simpl; intros H.
  - constructor; [intros [] | constructor].
  - inversion H as [|? ? Hk Hd]; subst.
    destruct (k =? key)%Z eqn:E; simpl.
    + now constructor.
    + constructor; [|now apply IH].
      intros Hin. apply (keys_dict_set d key value k) in Hin as [->|Hin].
      * now rewrite Z.eqb_refl in E.
      * contradiction.
Qed.

Lemma rank_loop_nodup results : forall r d,
  NoDup (Hybrid.keys d) -> NoDup (Hybrid.keys (Hybrid.rank_loop results r d)).
Proof.
  induction results as [|[c s] rest IH]; intros r d H; simpl; [exact H|].
  apply IH. now apply dict_set_nodup.
Qed.

(** X29.  The rank table of a candidate list holds each chunk id once;
    a chunk id that the list holds more than once is given the rank of
    its last occurrence. *)
Theorem X29_last_occurrence_gives_the_rank :
  forall results,
    NoDup (Hybrid.keys (Hybrid.ranks_of results))
    /\ forall earlier id score later,
         results = earlier ++ (id, score) :: later ->
         ~ In id (map fst later) ->
         Hybrid.dict_get (Hybrid.ranks_of results) id
         = Some (Z.of_nat (List.length earlier) + 1)%Z.
Proof.
  intros results. split.
  - apply rank_loop_nodup. constructor.
  - intros earlier id score later -> Hlast. unfold Hybrid.ranks_of.
    rewrite rank_loop_app. cbn [Hybrid.rank_loop].
    rewrite rank_loop_absent by exact Hlast.
    rewrite dict_get_set, Z.eqb_refl. f_equal. apply Z.add_comm.
Qed.

(** X29 on a list that holds chunk 7 twice: it is ranked second. *)
Lemma X29_witness :
  Hybrid.dict_get
    (Hybrid.ranks_of [(7%Z, (9 # 10)%Q); (7%Z, (8 # 10)%Q)]) 7
  = Some (Z.of_nat (List.length [(7%Z, (9 # 10)%Q)]) + 1)%Z.
Proof.
  apply (proj2 (X29_last_occurrence_gives_the_rank
                  [(7%Z, (9 # 10)%Q); (7%Z, (8 # 10)%Q)])
               [(7%Z, (9 # 10)%Q)] 7%Z (8 # 10)%Q []).
  - reflexivity.
  - intros [].
Defined.

Lemma prefix_map {A B : Type} (f : A -> B) l n :
  map f (Py.prefix l n) = Py.prefix (map f l) n.
Proof.
  unfold Py.prefix. rewrite length_map.
  destruct (n <? 0)%Z; symmetry; apply firstn_map.
Qed.

(** With the default constant 60 the scores of a list of up to 1000
    candidates differ from each rank to the next, whether one list holds
    the chunk or both do. *)
Lemma default_constant_separates_ranks :
  strictly_decreasing (recip 60) 1000 = true
  /\ strictly_decreasing (twice 60) 1000 = true.
Proof. split; vm_compute; reflexivity. Qed.

(** With a fusion constant as large as 10^17 the doubles
    [1.0 / (rank + k)] of the first two ranks are equal. *)
Lemma large_constant_ties :
  PyFloat.eqb (recip (10 ^ 17) 1) (recip (10 ^ 17) 2) = true.
Proof. vm_compute. reflexivity. Qed.

(** X30.  When the lexical index has not been built, [retrieve] passes
    on an exception of the vector retriever.  When the vector retriever
    returns candidates with distinct chunk ids (and the fusion constant
    is not negative and, added to their number, stays below 2^53),
    [retrieve] returns chunks of the vector retriever only, each scored
    the double [1.0 / (rank + rrf_k)], and [top_k] of them unless there
    are fewer.  Where these scores differ from each rank to the next, the
    chunks come in the order of the vector retriever; equal scores leave
    the order to the set of chunk ids. *)
Theorem X30_vector_only_keeps_the_vector_order :
  forall get_scores argsort vector_retrieve union_order
         self query top_k judgment_id,
    set_like union_order ->
    Hybrid._is_initialized (Hybrid.bm25_retriever self) = false ->
    (forall e,
       vector_retrieve query (top_k * 5)%Z judgment_id = Hybrid.Raise e ->
       Hybrid.retrieve get_scores argsort vector_retrieve union_order
         self query top_k judgment_id = Hybrid.Raise e)
    /\ (forall vector_results,
          vector_retrieve query (top_k * 5)%Z judgment_id
          = Hybrid.Ok vector_results ->
          (0 <= Hybrid.rrf_k self)%Z ->
          (Hybrid.rrf_k self + Z.of_nat (List.length vector_results)
           < 2 ^ 53)%Z ->
          NoDup (map fst vector_results) ->
          exists out,
            Hybrid.retrieve get_scores argsort vector_retrieve union_order
              self query top_k judgment_id = Hybrid.Ok out
            /\ (forall id s,
                  In (id, s) out ->
                  exists r,
                    position id vector_results = Some r
                    /\ s = recip (Hybrid.rrf_k self) r)
            /\ ((0 <= top_k)%Z ->
                List.length out
                = Nat.min (Z.to_nat top_k) (List.length vector_results))
            /\ (strictly_decreasing (recip (Hybrid.rrf_k self))
                                    (List.length vector_results) = true ->
                map fst out = Py.prefix (map fst vector_results) top_k)).
Proof.
  intros get_scores argsort vector_retrieve union_order self query top_k jid
         Hset Hinit.
  unfold Hybrid.retrieve. rewrite Hinit. cbn [Hybrid.bind]. split.
  - intros e ->. reflexivity.
  - intros vec -> Hk Hlen Hv. cbn [Hybrid.bind].
    set (k := Hybrid.rrf_k self) in *.
    destruct (fusion_ok union_order k (@nil Hybrid.candidate) vec top_k Hset Hk)
      as (fused & Hrun & Hndf & Hmem & Hscore & Hsorted);
      [simpl; lia | exact Hlen | constructor | exact Hv |].
    assert (Hmem' : forall id, In id (map fst fused) <-> In id (map fst vec)).
    { intros id. rewrite Hmem. simpl. tauto. }
    assert (Hsc : forall id s r,
              In (id, s) fused -> position id vec = Some r -> s = recip k r).
    { intros id s r H Hr. rewrite (Hscore id s H).
      unfold rrf_spec, add_contribution. rewrite Hr.
      unfold position at 1. simpl. apply add_zero_l.
      apply position_range in Hr. unfold Hybrid.candidate in *.
      apply (reciprocal_ok r k). lia. }
    assert (Hsame : List.length fused = List.length vec).
    { transitivity (List.length (map fst fused));
        [symmetry; apply length_map|].
      transitivity (List.length (map fst vec)); [|apply length_map].
      apply Permutation_length.
      apply NoDup_Permutation; [exact Hndf | exact Hv | exact Hmem']. }
    destruct (prefix_spec fused top_k) as (dropped & Hcut & Hl & _).
    exists (Py.prefix fused top_k). split; [exact Hrun|]. split; [|split].
    + intros id s H. apply prefix_In in H.
      destruct (index_from_In id (map fst vec) 1) as (r & Hr).
      { apply Hmem'. now apply (in_map fst) in H. }
      exists r. split; [exact Hr | exact (Hsc id s r H Hr)].
    + intros Htop. rewrite (Hl Htop). f_equal. exact Hsame.
    + intros Hdec. rewrite prefix_map. f_equal.
      apply (sorted_by_decreasing_scores (recip k) vec fused Hv Hndf Hmem');
        [exact Hsc | exact Hsorted | exact Hdec].
Qed.

(** A vector store that answers every query with the chunks 7, 3 and 9. *)
Definition three_hits
    : string -> Z -> option Z -> Hybrid.result (list Hybrid.candidate) :=
  fun _ _ _ => Hybrid.Ok [(7%Z, (9 # 10)%Q); (3%Z, (8 # 10)%Q); (9%Z, (7 # 10)%Q)].

(** X30 on the retriever without an index and [three_hits], with the
    default constant 60: the two best chunks, in the order of the
    store. *)
Lemma X30_witness :
  exists out,
    Hybrid.retrieve (fun _ _ _ _ => []) (fun _ => []) three_hits first_seen
                    fresh_hybrid "murder" 2 None = Hybrid.Ok out
    /\ List.length out = 2
    /\ map fst out = [7%Z; 3%Z].
Proof.
  destruct (proj2 (X30_vector_only_keeps_the_vector_order
                     (fun _ _ _ _ => []) (fun _ => []) three_hits first_seen
                     fresh_hybrid "murder" 2 None
                     first_seen_set_like eq_refl)
                  [(7%Z, (9 # 10)%Q); (3%Z, (8 # 10)%Q); (9%Z, (7 # 10)%Q)]
                  eq_refl)
    as (out & H1 & _ & H2 & H3).
  - vm_compute. discriminate.
  - vm_compute. reflexivity.
  - repeat constructor; simpl; intuition discriminate.
  - exists out. split; [exact H1|]. split.
    + apply H2. lia.
    + apply H3. vm_compute. reflexivity.
Defined.
